(** * DLT recommendation scoring: a shallow embedding of dlt_bonus_calculation.py

    The definitions follow the order of the Python module: the
    configuration constants, the Python helpers the module calls ([sorted],
    [int], the [str] methods, the regular expressions, [csv.reader],
    [strptime], [itertools.combinations], [math.comb]), then
    [get_period_data_from_csv], [find_matching_report],
    [parse_recommendations_from_report], [generate_complex_tickets],
    [calculate_prize], [manage_report] and the scoring steps of
    [main_process].  The properties come after all the definitions.

    Python integers are [Z]; lengths, hit counts and tiers are [nat];
    dictionaries are [gmap]s (or the list of their items where the order of
    the keys is printed) and sets are [gset]s.  A function that can raise
    returns an [option] or an [outcome].

    What the module reads from its environment is an argument of the
    function that reads it: the content of the draw file, the paths [glob]
    lists with what [robust_file_read] returns for each, the previous
    content of the report file and the time of the call.

    Text is a list of bytes ([list ascii]) holding the UTF-8 encoding of the
    Python string; the character classes [\d] and [\s], [str.strip],
    [str.split] and [str.splitlines] are modelled on their ASCII ranges, so
    the embedding is exact for text made of ASCII characters and of
    non-ASCII characters that are neither digits nor white space (the Chinese
    labels of the reports are of that kind).

    The definitions that depend on the interpreter take it as an argument
    ([interpreter]): before Python 3.11 [csv.reader] raises on a NUL
    character, from Python 3.11 on it reads it as data. *)

From Stdlib Require Import ZArith List String Ascii Lia Sorted Permutation.
From Stdlib Require Import DecimalString.
From stdpp Require Import gmap strings list fin_maps sorting.

Local Open Scope Z_scope.

(** ** Configuration (lines 34-56 of the source) *)

Definition MAX_NORMAL_RECORDS : nat := 10.
Definition MAX_ERROR_LOGS : nat := 20.

Definition PRIZE_TABLE : gmap nat Z :=
  list_to_map
    [ (1%nat, 10000000); (2%nat, 300000); (3%nat, 10000); (4%nat, 3000);
      (5%nat, 300); (6%nat, 200); (7%nat, 100); (8%nat, 15); (9%nat, 5) ].

(** The nine tiers, in the order the dictionary literal lists them. *)
Definition tiers : list nat := seq 1 9.

(** ** Data model *)

(** A ticket: [(fronts, backs)]. *)
Definition ticket : Type := list Z * list Z.

(** ** Python's [sorted] on integers

    [sorted] is a stable sort; on integers every sort returns the same
    list.  It is written here as an insertion sort. *)

Fixpoint insert_sorted (x : Z) (l : list Z) : list Z :=
  match l with
  | [] => [x]
  | y :: l' => if x <=? y then x :: l else y :: insert_sorted x l'
  end.

Definition sorted (l : list Z) : list Z := foldr insert_sorted [] l.

(** ** Console log

    [log_message] prints to the console.  The functions whose messages
    matter return them as a list of entries, oldest first; the text of a
    message is kept as a constructor with the values it formats. *)

Inductive log_level : Type := INFO | WARNING | ERROR | CRITICAL.

Inductive log_text : Type :=
  | CombinationsOverLimit (num_combs limit : Z)
  | CombinationsGenerated (n : nat)
  | MathCombUnavailable
  | CsvContentEmpty
  | CsvParseError
  | CsvRowInvalid (line : nat) (row : list (list ascii))
  | CsvNoValidData.

Definition log_entry : Type := log_level * log_text.

(** ** Text primitives

    A Python [str] is the list of the bytes of its UTF-8 encoding; a
    literal is written [str "..."]. *)

Definition str (s : string) : list ascii := list_ascii_of_string s.

Definition chr_code (c : ascii) : nat := nat_of_ascii c.

(** The double quote and the line feed, as strings. *)
Definition double_quote : list ascii := ["034"%char].
Definition line_feed : list ascii := ["010"%char].

(** [\d] on the ASCII range. *)
Definition is_digit (c : ascii) : bool :=
  (48 <=? chr_code c)%nat && (chr_code c <=? 57)%nat.

Definition digit_value (c : ascii) : Z := Z.of_nat (chr_code c) - 48.

(** [\s] and [str.isspace] on the ASCII range: tab, line feed, vertical
    tab, form feed, carriage return, the separators 0x1c-0x1f and space. *)
Definition is_space (c : ascii) : bool :=
  ((9 <=? chr_code c)%nat && (chr_code c <=? 13)%nat)
  || ((28 <=? chr_code c)%nat && (chr_code c <=? 32)%nat).

(** The class [[\d\s]]. *)
Definition is_digit_or_space (c : ascii) : bool := is_digit c || is_space c.

(** Removal of the characters of a class at both ends of a text. *)
Fixpoint lstrip_with (p : ascii → bool) (s : list ascii) : list ascii :=
  match s with
  | c :: s' => if p c then lstrip_with p s' else s
  | [] => []
  end.

Definition strip_with (p : ascii → bool) (s : list ascii) : list ascii :=
  rev (lstrip_with p (rev (lstrip_with p s))).

(** [s.strip()] *)
Definition strip (s : list ascii) : list ascii := strip_with is_space s.

(** [s.split(sep)] for a separator of one character: one more piece than
    there are separators, empty pieces kept. *)
Fixpoint split_char (sep : ascii) (s : list ascii) : list (list ascii) :=
  match s with
  | [] => [[]]
  | c :: s' =>
      if Ascii.eqb c sep then [] :: split_char sep s'
      else match split_char sep s' with
           | piece :: pieces => (c :: piece) :: pieces
           | [] => [[c]]
           end
  end.

(** [s.split()]: the maximal runs of characters that are not white space.
    [cur] is the run being read, reversed. *)
Fixpoint split_ws_go (cur : list ascii) (s : list ascii) : list (list ascii) :=
  match s with
  | [] => match cur with [] => [] | _ => [rev cur] end
  | c :: s' =>
      if is_space c
      then match cur with
           | [] => split_ws_go [] s'
           | _ => rev cur :: split_ws_go [] s'
           end
      else split_ws_go (c :: cur) s'
  end.

Definition split_ws (s : list ascii) : list (list ascii) := split_ws_go [] s.

Fixpoint starts_with (prefix s : list ascii) : bool :=
  match prefix, s with
  | [], _ => true
  | p :: prefix', c :: s' => Ascii.eqb p c && starts_with prefix' s'
  | _ :: _, [] => false
  end.

(** [s.split(sep)] for a separator string (not empty): the text is cut at
    each occurrence of [sep] found scanning left to right.  [skip] counts
    the characters of an occurrence still to pass over. *)
Fixpoint split_str_go (sep : list ascii) (skip : nat) (cur s : list ascii)
    : list (list ascii) :=
  match s with
  | [] => [rev cur]
  | c :: s' =>
      match skip with
      | S skip' => split_str_go sep skip' cur s'
      | O =>
          if starts_with sep s
          then rev cur :: split_str_go sep (length sep - 1) [] s'
          else split_str_go sep 0 (c :: cur) s'
      end
  end.

Definition split_str (sep s : list ascii) : list (list ascii) :=
  split_str_go sep 0 [] s.

(** [sub in s] *)
Fixpoint contains (sub s : list ascii) : bool :=
  starts_with sub s
  || match s with
     | [] => false
     | _ :: s' => contains sub s'
     end.

(** [s.splitlines()] on the ASCII line boundaries: LF, CR, CR LF, VT, FF
    and the separators 0x1c-0x1e.  No empty last line after a final
    boundary. *)
Definition is_line_boundary (c : ascii) : bool :=
  ((10 <=? chr_code c)%nat && (chr_code c <=? 13)%nat)
  || ((28 <=? chr_code c)%nat && (chr_code c <=? 30)%nat).

Fixpoint splitlines_go (cur : list ascii) (s : list ascii) : list (list ascii) :=
  match s with
  | [] => match cur with [] => [] | _ => [rev cur] end
  | c :: s' =>
      if is_line_boundary c then
        match s' with
        | c' :: s'' =>
            if (chr_code c =? 13)%nat && (chr_code c' =? 10)%nat
            then rev cur :: splitlines_go [] s''
            else rev cur :: splitlines_go [] s'
        | [] => [rev cur]
        end
      else splitlines_go (c :: cur) s'
  end.

Definition splitlines (s : list ascii) : list (list ascii) := splitlines_go [] s.

(** [sep.join(pieces)] *)
Fixpoint join (sep : list ascii) (pieces : list (list ascii)) : list ascii :=
  match pieces with
  | [] => []
  | [piece] => piece
  | piece :: pieces' => piece ++ sep ++ join sep pieces'
  end.

(** ** [int(s)]

    White space around the number is ignored (here the white space of C:
    tab, line feed, vertical tab, form feed, carriage return and space;
    the separators 0x1c-0x1f are not); then an optional sign, then decimal
    digits, where single underscores may stand between digits.
    [None] is Python's ValueError.  (The bound that Python 3.11 puts on the
    number of digits, 4300 by default, is not modelled.) *)
Definition is_int_space (c : ascii) : bool :=
  ((9 <=? chr_code c)%nat && (chr_code c <=? 13)%nat) || (chr_code c =? 32)%nat.

Fixpoint parse_digits (acc : Z) (after_digit : bool) (s : list ascii) : option Z :=
  match s with
  | [] => if after_digit then Some acc else None
  | c :: s' =>
      if is_digit c then parse_digits (acc * 10 + digit_value c) true s'
      else if (chr_code c =? 95)%nat && after_digit then parse_digits acc false s'
      else None
  end.

Definition py_int (s : list ascii) : option Z :=
  match strip_with is_int_space s with
  | c :: rest =>
      if (chr_code c =? 43)%nat then parse_digits 0 false rest
      else if (chr_code c =? 45)%nat then Z.opp <$> parse_digits 0 false rest
      else parse_digits 0 false (c :: rest)
  | [] => None
  end.

(** [sorted(map(int, pieces))]: [None] when some piece is not an integer. *)
Definition sorted_ints (pieces : list (list ascii)) : option (list Z) :=
  sorted <$> mapM py_int pieces.

(** ** Regular expressions

    The patterns of the module use literals, one-character classes,
    greedy [*], [+] and [{m,n}] on a class, capture groups and [$].  A
    pattern is a list of items; [match_here] is the backtracking matcher
    of [re]: every repetition first takes as many characters as it can and
    gives them back one by one while the rest of the pattern fails. *)

Inductive re_item : Type :=
  | Chr (c : ascii)                    (* a literal *)
  | Cls (p : ascii → bool)             (* one character of a class *)
  | Many (p : ascii → bool)            (* class*, greedy *)
  | Upto (p : ascii → bool) (n : nat)  (* class{0,n}, greedy *)
  | GroupOpen                          (* ( *)
  | GroupClose                         (* ) *)
  | EndOfString.                       (* $ *)

Definition regex : Type := list re_item.

(** [pos] counts the characters consumed since the start of the match;
    [opened] holds the start positions of the groups still open; [groups]
    holds the spans of the closed groups, last closed first.  The result is
    the spans of the groups, in the order they close, and the end of the
    match. *)
Fixpoint match_here (items : regex) (pos : nat) (opened : list nat)
    (groups : list (nat * nat)) (s : list ascii)
    : option (list (nat * nat) * nat) :=
  match items with
  | [] => Some (rev groups, pos)
  | Chr c :: items' =>
      match s with
      | x :: s' =>
          if Ascii.eqb x c then match_here items' (S pos) opened groups s'
          else None
      | [] => None
      end
  | Cls p :: items' =>
      match s with
      | x :: s' =>
          if p x then match_here items' (S pos) opened groups s' else None
      | [] => None
      end
  | Many p :: items' =>
      (fix many (pos : nat) (s : list ascii) {struct s} :=
         match s with
         | x :: s' =>
             if p x then
               match many (S pos) s' with
               | Some r => Some r
               | None => match_here items' pos opened groups s
               end
             else match_here items' pos opened groups s
         | [] => match_here items' pos opened groups []
         end) pos s
  | Upto p n :: items' =>
      (fix upto (n : nat) (pos : nat) (s : list ascii) {struct n} :=
         match n with
         | O => match_here items' pos opened groups s
         | S n' =>
             match s with
             | x :: s' =>
                 if p x then
                   match upto n' (S pos) s' with
                   | Some r => Some r
                   | None => match_here items' pos opened groups s
                   end
                 else match_here items' pos opened groups s
             | [] => match_here items' pos opened groups []
             end
         end) n pos s
  | GroupOpen :: items' => match_here items' pos (pos :: opened) groups s
  | GroupClose :: items' =>
      match opened with
      | o :: opened' => match_here items' pos opened' ((o, pos) :: groups) s
      | [] => None
      end
  | EndOfString :: items' =>
      match s with
      | [] => match_here items' pos opened groups s
      | [x] =>
          if (chr_code x =? 10)%nat then match_here items' pos opened groups s
          else None
      | _ => None
      end
  end.

(** A match object: where the match starts and ends in the searched text,
    and the text of its groups ([group(1)] is the first of the list). *)
Record re_match : Type := ReMatch {
  m_start : nat;
  m_end : nat;
  m_groups : list (list ascii)
}.

Definition span_text (s : list ascii) (span : nat * nat) : list ascii :=
  take (span.2 - span.1) (drop span.1 s).

(** A match of the pattern that starts at the head of [s]; [offset] is
    the position of [s] in the searched text. *)
Definition match_at (r : regex) (offset : nat) (s : list ascii) : option re_match :=
  match match_here r 0 [] [] s with
  | Some (spans, e) => Some (ReMatch offset (offset + e) (span_text s <$> spans))
  | None => None
  end.

(** [re.match(r, s)] *)
Definition re_match_start (r : regex) (s : list ascii) : option re_match :=
  match_at r 0 s.

(** [re.search(r, s)]: the match at the first position that has one. *)
Fixpoint search_from (r : regex) (offset : nat) (s : list ascii) : option re_match :=
  match match_at r offset s with
  | Some m => Some m
  | None =>
      match s with
      | [] => None
      | _ :: s' => search_from r (S offset) s'
      end
  end.

Definition re_search (r : regex) (s : list ascii) : option re_match :=
  search_from r 0 s.

(** [r.finditer(s)]: the matches found scanning left to right, each search
    resuming where the previous match ended.  [skip] counts the characters
    of the last match still to pass over. *)
Fixpoint finditer_go (r : regex) (skip offset : nat) (s : list ascii)
    : list re_match :=
  match skip with
  | S skip' =>
      match s with
      | [] => []
      | _ :: s' => finditer_go r skip' (S offset) s'
      end
  | O =>
      match match_at r offset s with
      | Some m =>
          m :: match s with
               | [] => []
               | _ :: s' => finditer_go r (m_end m - offset - 1) (S offset) s'
               end
      | None =>
          match s with
          | [] => []
          | _ :: s' => finditer_go r 0 (S offset) s'
          end
      end
  end.

Definition re_finditer (r : regex) (s : list ascii) : list re_match :=
  finditer_go r 0 0 s.

(** [m.group(1)], [m.group(2)] *)
Definition group (m : re_match) (i : nat) : list ascii :=
  default [] (m_groups m !! (i - 1)%nat).

(** A literal piece of a pattern. *)
Definition lit (s : string) : regex := Chr <$> str s.

(** [class+] *)
Definition plus (p : ascii → bool) : regex := [Cls p; Many p].

(** ** DrawRecordStore: [get_period_data_from_csv] (lines 93-133) *)

Definition row : Type := list (list ascii).

(** [csv.reader(csv_content.splitlines())] with the default dialect:
    fields are separated by commas; a field in double quotes may hold
    commas and doubled quotes; an empty line is the empty row; a quoted
    field still open at the end of a line goes on with the next line, and
    ends with the text when no line is left.  [csv_records] gives the rows
    of the lines; [csv_reader], below, is the reader with the errors it
    raises. *)
Inductive csv_mode : Type :=
  | RecordStart | FieldStart | InField | InQuoted | QuoteInQuoted.

(** The reader's state: its mode, the field being read (reversed) and the
    fields of the row read so far (last first). *)
Definition csv_state0 : Type := csv_mode * list ascii * list (list ascii).

(** The characters of one line. *)
Fixpoint csv_scan (mode : csv_mode) (cur : list ascii)
    (fields : list (list ascii)) (s : list ascii) : csv_state0 :=
  match s with
  | [] => (mode, cur, fields)
  | c :: s' =>
      if (chr_code c =? 44)%nat then
        match mode with
        | InQuoted => csv_scan InQuoted (c :: cur) fields s'
        | _ => csv_scan FieldStart [] (rev cur :: fields) s'
        end
      else if (chr_code c =? 34)%nat then
        match mode with
        | RecordStart | FieldStart => csv_scan InQuoted cur fields s'
        | InField => csv_scan InField (c :: cur) fields s'
        | InQuoted => csv_scan QuoteInQuoted cur fields s'
        | QuoteInQuoted => csv_scan InQuoted (c :: cur) fields s'
        end
      else
        match mode with
        | InQuoted => csv_scan InQuoted (c :: cur) fields s'
        | _ => csv_scan InField (c :: cur) fields s'
        end
  end.

(** The rows of a list of lines. *)
Fixpoint csv_records (mode : csv_mode) (cur : list ascii)
    (fields : list (list ascii)) (lines : list (list ascii)) : list row :=
  match lines with
  | [] =>
      match mode with
      | InQuoted => [rev (rev cur :: fields)]
      | _ => []
      end
  | line :: lines' =>
      let '(mode', cur', fields') := csv_scan mode cur fields line in
      match mode' with
      | RecordStart => [] :: csv_records RecordStart [] [] lines'
      | InQuoted => csv_records InQuoted cur' fields' lines'
      | _ => rev (rev cur' :: fields') :: csv_records RecordStart [] [] lines'
      end
  end.

(** A call either returns a value or lets an exception escape. *)
Inductive outcome (A : Type) : Type :=
  | Returned (a : A)
  | Raised.
Arguments Returned {A} a.
Arguments Raised {A}.

(** The interpreter that runs the module: [csv.reader] raises on a line
    that holds a NUL character before Python 3.11, and reads the character
    as data from Python 3.11 on. *)
Inductive interpreter : Type := BeforePython311 | Python311.

Definition nul_raises (py : interpreter) : bool :=
  match py with BeforePython311 => true | Python311 => false end.

(** [csv.field_size_limit()]: the greatest number of characters of a
    field. *)
Definition field_size_limit : Z := 131072.

(** The number of characters of a text: a byte from 0x80 to 0xbf goes on
    with the character of the byte before it. *)
Definition is_continuation (c : ascii) : bool :=
  (128 <=? chr_code c)%nat && (chr_code c <=? 191)%nat.

Definition char_count (s : list ascii) : Z :=
  foldl (λ n c, if is_continuation c then n else n + 1) 0 s.

Definition is_nul (c : ascii) : bool := (chr_code c =? 0)%nat.

Section Interpreter.

Variable py : interpreter.

(** A field the reader accepts: the reader raises [_csv.Error] when a
    field grows over the limit and, before Python 3.11, when it meets a
    NUL character (any character that is not a comma or a quote mark goes
    into a field). *)
Definition field_readable (field : list ascii) : bool :=
  (char_count field <=? field_size_limit)
  && negb (existsb is_nul field && nul_raises py).

Definition row_readable (r : row) : bool := forallb field_readable r.

(** The reader is an iterator: it yields the rows one by one and raises at
    the first row with a field it does not accept.  The result is the rows
    yielded, and whether [_csv.Error] is raised after them. *)
Fixpoint rows_until_error (rows : list row) : list row * bool :=
  match rows with
  | [] => ([], false)
  | r :: rows' =>
      if row_readable r then
        let '(read, raised) := rows_until_error rows' in (r :: read, raised)
      else ([], true)
  end.

Definition csv_reader (csv_content : list ascii) : list row * bool :=
  rows_until_error (csv_records RecordStart [] [] (splitlines csv_content)).

(** The value stored for a period:
    [{'date': date, 'front': front_balls, 'back': back_balls}]. *)
Record draw : Type := Draw {
  draw_date : list ascii;
  draw_front : list Z;
  draw_back : list Z
}.

(** [r'^\d{4,7}$'] *)
Definition period_pattern : regex :=
  [Cls is_digit; Cls is_digit; Cls is_digit; Cls is_digit;
   Upto is_digit 3; EndOfString].

(** [all(lo <= x <= hi for x in balls)] *)
Definition all_between (lo hi : Z) (balls : list Z) : bool :=
  forallb (λ x, (lo <=? x) && (x <=? hi)) balls.

(** What the body of the loop does with one row. *)
Inductive row_result : Type :=
  | RowPassedOver    (* the test of line 114 is false *)
  | RowInvalid       (* ValueError: the warning of line 124 *)
  | RowDropped       (* the [continue] of line 120 *)
  | RowStored (period date : list ascii) (front_balls back_balls : list Z).

Definition read_row (r : row) : row_result :=
  match r with
  | period :: date :: red_str :: blue_str :: _ =>
      match re_match_start period_pattern period with
      | Some _ =>
          match sorted_ints (split_char "," red_str) with
          | None => RowInvalid
          | Some front_balls =>
              match sorted_ints (split_char "," blue_str) with
              | None => RowInvalid
              | Some back_balls =>
                  if negb (length front_balls =? 5)%nat
                     || negb (all_between 1 35 front_balls)
                     || negb (length back_balls =? 2)%nat
                     || negb (all_between 1 12 back_balls)
                  then RowDropped
                  else RowStored period date front_balls back_balls
              end
          end
      | None => RowPassedOver
      end
  | _ => RowPassedOver
  end.

(** The accumulators of the loop: [period_map], [periods_list] and the
    messages logged so far. *)
Definition csv_state : Type :=
  gmap (list ascii) draw * list (list ascii) * list log_entry.

(** One iteration for row [r] at index [i] of [enumerate(reader)]. *)
Definition csv_step (st : csv_state) (ir : nat * row) : csv_state :=
  let '(period_map, periods_list, log) := st in
  match read_row ir.2 with
  | RowStored period date front_balls back_balls =>
      (<[period := Draw date front_balls back_balls]> period_map,
       periods_list ++ [period], log)
  | RowInvalid =>
      (period_map, periods_list,
       log ++ [(WARNING, CsvRowInvalid (ir.1 + 2) ir.2)])
  | RowPassedOver | RowDropped => st
  end.

Definition csv_loop (rows : list row) : csv_state :=
  foldl csv_step (∅, [], []) (zip (seq 0 (length rows)) rows).

(** [sorted(periods_list, key=int)]: a stable sort on the keys; [None]
    when [int] raises on some element. *)
Fixpoint insert_by_key (x : Z * list ascii) (l : list (Z * list ascii))
    : list (Z * list ascii) :=
  match l with
  | [] => [x]
  | y :: l' => if x.1 <=? y.1 then x :: l else y :: insert_by_key x l'
  end.

Definition sorted_by_int (l : list (list ascii)) : option (list (list ascii)) :=
  keys ← mapM py_int l;
  Some ((foldr insert_by_key [] (zip keys l)).*2).

(** The function: [Returned None] is the pair [(None, None)].  An empty
    content returns at once (line 106); [next(reader)] on a reader without
    rows raises StopIteration, and the reader raises [_csv.Error] at a row
    it cannot read: the handler of line 125 turns both into
    [(None, None)], whatever the rows before have stored, after the
    warnings of these rows; an empty [period_map] returns [(None, None)]
    (line 129); the sort of line 133 is outside the [try], so a ValueError
    of [int] there would escape the call. *)
Definition get_period_data_from_csv (csv_content : list ascii)
    : outcome (option (gmap (list ascii) draw * list (list ascii)))
      * list log_entry :=
  match csv_content with
  | [] => (Returned None, [(WARNING, CsvContentEmpty)])
  | _ =>
      let '(read, raised) := csv_reader csv_content in
      match read with
      | [] => (Returned None, [(ERROR, CsvParseError)])
      | _header :: rows =>
          let '(period_map, periods_list, log) := csv_loop rows in
          if raised then (Returned None, log ++ [(ERROR, CsvParseError)])
          else if decide (period_map = ∅) then
            (Returned None, log ++ [(WARNING, CsvNoValidData)])
          else
            match sorted_by_int periods_list with
            | Some periods => (Returned (Some (period_map, periods)), log)
            | None => (Raised, log)
            end
      end
  end.

(** *** Reading the results of [get_period_data_from_csv] *)

(** The period a row contributes, when the loop stores it. *)
Definition stored_period (r : row) : option (list ascii) :=
  match read_row r with
  | RowStored period _ _ _ => Some period
  | _ => None
  end.

(** The warning a row at index [i] causes, when it causes one. *)
Definition row_warning (ir : nat * row) : option log_entry :=
  match read_row ir.2 with
  | RowInvalid => Some (WARNING, CsvRowInvalid (ir.1 + 2) ir.2)
  | _ => None
  end.

(** The rows the loop reads: those the reader yields after the header. *)
Definition data_rows (csv_content : list ascii) : list row :=
  tail (csv_reader csv_content).1.

(** Whether the reader raises at some row of the content. *)
Definition reader_raises (csv_content : list ascii) : bool :=
  (csv_reader csv_content).2.

(** The period list a call returns, when it returns one. *)
Definition returned_periods
    (r : outcome (option (gmap (list ascii) draw * list (list ascii)))
         * list log_entry) : option (list (list ascii)) :=
  match r.1 with
  | Returned (Some (_, periods)) => Some periods
  | _ => None
  end.

(** The period map a call returns, when it returns one. *)
Definition returned_map
    (r : outcome (option (gmap (list ascii) draw * list (list ascii)))
         * list log_entry) : option (gmap (list ascii) draw) :=
  match r.1 with
  | Returned (Some (period_map, _)) => Some period_map
  | _ => None
  end.

(** The order [sorted(periods_list, key=int)] sorts by. *)
Definition key_le (x y : Z * list ascii) : Prop := x.1 ≤ y.1.

(** ** ReportLocator: [find_matching_report] (lines 135-172) *)

(** [r'分析基于数据:\s*截至\s*(\d+)\s*期'] *)
Definition cutoff_pattern : regex :=
  lit "分析基于数据:" ++ [Many is_space] ++ lit "截至" ++ [Many is_space]
  ++ [GroupOpen] ++ plus is_digit ++ [GroupClose] ++ [Many is_space]
  ++ lit "期".

(** [r'_(\d{8}_\d{6})\.txt$'] *)
Definition timestamp_pattern : regex :=
  lit "_" ++ [GroupOpen] ++ replicate 8 (Cls is_digit) ++ lit "_"
  ++ replicate 6 (Cls is_digit) ++ [GroupClose] ++ lit ".txt"
  ++ [EndOfString].

(** A [datetime] value. *)
Record datetime : Type := DateTime {
  dt_year : Z;
  dt_month : Z;
  dt_day : Z;
  dt_hour : Z;
  dt_minute : Z;
  dt_second : Z
}.

Definition is_leap (y : Z) : bool :=
  ((y mod 4 =? 0) && negb (y mod 100 =? 0)) || (y mod 400 =? 0).

Definition days_in_month (y m : Z) : Z :=
  if m =? 2 then (if is_leap y then 29 else 28)
  else if (m =? 4) || (m =? 6) || (m =? 9) || (m =? 11) then 30
  else 31.

Definition digits_value (s : list ascii) : Z :=
  foldl (λ acc c, acc * 10 + digit_value c) 0 s.

(** [datetime.strptime(s, "%Y%m%d_%H%M%S")] on the strings the timestamp
    pattern captures (eight digits, an underscore, six digits): the fields
    are read two digits each after the four of the year, and the call raises
    ValueError ([None]) unless they form a date and time of day: year from 1,
    month 1-12, day within the month, hour 0-23, minute and second 0-59. *)
Definition strptime (s : list ascii) : option datetime :=
  if (length s =? 15)%nat
     && forallb is_digit (take 8 s)
     && bool_decide (take 1 (drop 8 s) = str "_")
     && forallb is_digit (drop 9 s)
  then
    let y := digits_value (take 4 s) in
    let m := digits_value (take 2 (drop 4 s)) in
    let d := digits_value (take 2 (drop 6 s)) in
    let hh := digits_value (take 2 (drop 9 s)) in
    let mm := digits_value (take 2 (drop 11 s)) in
    let ss := digits_value (take 2 (drop 13 s)) in
    if (1 <=? y) && (1 <=? m) && (m <=? 12) && (1 <=? d)
       && (d <=? days_in_month y m) && (hh <=? 23) && (mm <=? 59)
       && (ss <=? 59)
    then Some (DateTime y m d hh mm ss)
    else None
  else None.

(** Comparison of tuples of integers, as Python compares tuples. *)
Fixpoint lex_compare (a b : list Z) : comparison :=
  match a, b with
  | [], [] => Eq
  | [], _ :: _ => Lt
  | _ :: _, [] => Gt
  | x :: a', y :: b' =>
      match x ?= y with
      | Eq => lex_compare a' b'
      | c => c
      end
  end.

Definition lex_leb (a b : list Z) : bool :=
  match lex_compare a b with Gt => false | _ => true end.

Definition datetime_fields (t : datetime) : list Z :=
  [dt_year t; dt_month t; dt_day t; dt_hour t; dt_minute t; dt_second t].

(** [t1 <= t2] on [datetime] values. *)
Definition datetime_leb (t1 t2 : datetime) : bool :=
  lex_leb (datetime_fields t1) (datetime_fields t2).

(** The bytes of a string as integers: Python orders strings by their code
    points, and UTF-8 keeps that order. *)
Definition codes (s : list ascii) : list Z := (λ c, Z.of_nat (chr_code c)) <$> s.

(** An element of [candidates]: [(timestamp, file_path)]. *)
Definition candidate : Type := datetime * list ascii.

(** [c1 <= c2] on the tuples: the timestamps first, then the paths. *)
Definition candidate_leb (c1 c2 : candidate) : bool :=
  lex_leb (datetime_fields c1.1 ++ codes c1.2) (datetime_fields c2.1 ++ codes c2.2).

(** [candidates.sort(reverse=True)] *)
Fixpoint insert_desc (x : candidate) (l : list candidate) : list candidate :=
  match l with
  | [] => [x]
  | y :: l' => if candidate_leb y x then x :: l else y :: insert_desc x l'
  end.

Definition sort_desc (l : list candidate) : list candidate :=
  foldr insert_desc [] l.

(** The period a report declares: group 1 of the first match of the
    cutoff pattern in its content. *)
Definition declared_period (content : list ascii) : option (list ascii) :=
  (λ m, group m 1) <$> re_search cutoff_pattern content.

(** The timestamp of a file name, when it has one that [strptime] accepts. *)
Definition file_timestamp (file_path : list ascii) : option datetime :=
  m ← re_search timestamp_pattern file_path; strptime (group m 1).

(** The body of the loop of lines 149-163 for one file: [content] is what
    [robust_file_read] returned ([None] when the file cannot be read). *)
Definition candidate_of (target_period : list ascii)
    (file : list ascii * option (list ascii)) : option candidate :=
  match file.2 with
  | None | Some [] => None
  | Some content =>
      match declared_period content with
      | Some period =>
          if decide (period = target_period) then
            (λ timestamp, (timestamp, file.1)) <$> file_timestamp file.1
          else None
      | None => None
      end
  end.

(** [files] lists the paths [glob] returns, in the order it returns them,
    each with the result of reading it. *)
Definition find_matching_report
    (files : list (list ascii * option (list ascii)))
    (target_period : list ascii) : option (list ascii) :=
  let candidates := omap (candidate_of target_period) files in
  match sort_desc candidates with
  | [] => None
  | latest :: _ => Some latest.2
  end.

(** ** RecommendationParser: [parse_recommendations_from_report]
    (lines 174-210) *)

(** [r'注\s*\d+:\s*前区\s*\[([\d\s]+)\]\s*后区\s*\[([\d\s]+)\]'] *)
Definition rec_pattern : regex :=
  lit "注" ++ [Many is_space] ++ plus is_digit ++ lit ":" ++ [Many is_space]
  ++ lit "前区" ++ [Many is_space] ++ lit "["
  ++ [GroupOpen] ++ plus is_digit_or_space ++ [GroupClose] ++ lit "]"
  ++ [Many is_space] ++ lit "后区" ++ [Many is_space] ++ lit "["
  ++ [GroupOpen] ++ plus is_digit_or_space ++ [GroupClose] ++ lit "]".

(** [r'前区\s*\(Top\s*\d+\):\s*([\d\s]+)'], and the same with the label
    of the back zone. *)
Definition complex_pattern (label : string) : regex :=
  lit label ++ [Many is_space] ++ lit "(Top" ++ [Many is_space]
  ++ plus is_digit ++ lit "):" ++ [Many is_space]
  ++ [GroupOpen] ++ plus is_digit_or_space ++ [GroupClose].

(** The body of the loop of lines 190-195 for one match; [None] when the
    match adds no ticket. *)
Definition ticket_of_match (m : re_match) : option ticket :=
  match sorted_ints (split_ws (group m 1)) with
  | Some fronts =>
      match sorted_ints (split_ws (group m 2)) with
      | Some backs =>
          if (length fronts =? 5)%nat && (length backs =? 2)%nat
          then Some (fronts, backs)
          else None
      | None => None
      end
  | None => None
  end.

(** Lines 199-202 and 204-207: the pool read from the first match, empty
    without a match or when a number does not parse. *)
Definition pool_of_match (m : option re_match) : list Z :=
  match m with
  | Some m => default [] (sorted_ints (split_ws (group m 1)))
  | None => []
  end.

Definition parse_recommendations_from_report (content : list ascii)
    : list ticket * list Z * list Z :=
  (omap ticket_of_match (re_finditer rec_pattern content),
   pool_of_match (re_search (complex_pattern "前区") content),
   pool_of_match (re_search (complex_pattern "后区") content)).

(** ** ComplexExpander: [generate_complex_tickets] (lines 216-251) *)

(** [itertools.combinations(l, k)]: the subsequences of [l] of length [k],
    in lexicographic order of the positions chosen. *)
Fixpoint combinations {A : Type} (l : list A) (k : nat) : list (list A) :=
  match k with
  | O => [[]]
  | S k' =>
      match l with
      | [] => []
      | x :: l' => map (cons x) (combinations l' k') ++ combinations l' k
      end
  end.

(** [math.comb(n, k)] for non-negative arguments: the binomial coefficient. *)
Fixpoint comb (n k : nat) : Z :=
  match k with
  | O => 1
  | S k' =>
      match n with
      | O => 0
      | S n' => comb n' k' + comb n' k
      end
  end.

Definition max_tickets_limit : Z := 20000.

(** The list comprehension of line 230 (and of line 246). *)
Definition expand_pool (fronts backs : list Z) : list ticket :=
  flat_map
    (λ f_combo, map (λ b_combo, (sorted f_combo, sorted b_combo))
                    (combinations backs 2))
    (combinations fronts 5).

(** The function where [from math import comb] succeeds (Python 3.8 and
    later); the [except ImportError] branch is
    [generate_complex_tickets_fallback] below. *)
Definition generate_complex_tickets (fronts backs : list Z)
    : list ticket * list log_entry :=
  if (length fronts <? 5)%nat || (length backs <? 2)%nat then ([], [])
  else
    let num_combs := comb (length fronts) 5 * comb (length backs) 2 in
    if max_tickets_limit <? num_combs then
      ([], [(WARNING, CombinationsOverLimit num_combs max_tickets_limit)])
    else
      let tickets := expand_pool fronts backs in
      (tickets, [(INFO, CombinationsGenerated (length tickets))]).

(** [combinations_count] of lines 235-241; the loop is
    [res = res * (n - i) // (i + 1)] for [i] in [range(k)]. *)
Fixpoint combinations_count_loop (n : Z) (steps : nat) (i res : Z) : Z :=
  match steps with
  | O => res
  | S steps' =>
      combinations_count_loop n steps' (i + 1) (res * (n - i) / (i + 1))
  end.

Definition combinations_count (n k : Z) : Z :=
  if (k <? 0) || (n <? k) then 0
  else if (k =? 0) || (k =? n) then 1
  else
    let k := if n / 2 <? k then n - k else k in
    combinations_count_loop n (Z.to_nat k) 0 1.

(** The function where the import raises ImportError (Python 3.6, 3.7). *)
Definition generate_complex_tickets_fallback (fronts backs : list Z)
    : list ticket * list log_entry :=
  if (length fronts <? 5)%nat || (length backs <? 2)%nat then ([], [])
  else
    let num_combs := combinations_count (Z.of_nat (length fronts)) 5
                     * combinations_count (Z.of_nat (length backs)) 2 in
    if max_tickets_limit <? num_combs then
      ([], [(WARNING, MathCombUnavailable);
            (WARNING, CombinationsOverLimit num_combs max_tickets_limit)])
    else
      let tickets := expand_pool fronts backs in
      (tickets, [(WARNING, MathCombUnavailable);
                 (INFO, CombinationsGenerated (length tickets))]).

(** ** PrizeEngine: [calculate_prize] (lines 253-293) *)

(** One element of [winning_tickets_details]:
    [{'front': front, 'back': back, 'level': level}]. *)
Record winning_detail : Type := WinningDetail {
  wd_front : list Z;
  wd_back : list Z;
  wd_level : nat
}.

(** [len(set(nums) & prize_set)] *)
Definition hits (nums prize : list Z) : nat :=
  size ((list_to_set nums : gset Z) ∩ list_to_set prize).

(** The if/elif chain of lines 275-285; [None] is Python's [level = None]. *)
Definition level_of (front_hits back_hits : nat) : option nat :=
  if (front_hits =? 5)%nat && (back_hits =? 2)%nat then Some 1%nat
  else if (front_hits =? 5)%nat && (back_hits =? 1)%nat then Some 2%nat
  else if (front_hits =? 5)%nat && (back_hits =? 0)%nat then Some 3%nat
  else if (front_hits =? 4)%nat && (back_hits =? 2)%nat then Some 4%nat
  else if (front_hits =? 4)%nat && (back_hits =? 1)%nat then Some 5%nat
  else if (front_hits =? 3)%nat && (back_hits =? 2)%nat then Some 6%nat
  else if (front_hits =? 4)%nat && (back_hits =? 0)%nat then Some 7%nat
  else if (front_hits =? 3)%nat && (back_hits =? 1)%nat then Some 8%nat
  else if ((front_hits =? 2)%nat && (back_hits =? 2)%nat)
       || ((front_hits =? 3)%nat && (back_hits =? 0)%nat)
       || ((front_hits =? 1)%nat && (back_hits =? 2)%nat)
       || ((front_hits =? 2)%nat && (back_hits =? 1)%nat)
       || ((front_hits =? 0)%nat && (back_hits =? 2)%nat) then Some 9%nat
  else None.

(** The level a ticket gets against a draw. *)
Definition ticket_level (prize_front prize_back : list Z) (t : ticket) : option nat :=
  level_of (hits t.1 prize_front) (hits t.2 prize_back).

(** [if level and level in PRIZE_TABLE]: [level] is truthy (neither [None]
    nor [0]) and a key of the table. *)
Definition level_pays (level : option nat) : option (nat * Z) :=
  match level with
  | Some lv =>
      if negb (lv =? 0)%nat then
        match PRIZE_TABLE !! lv with
        | Some amount => Some (lv, amount)
        | None => None
        end
      else None
  | None => None
  end.

(** The accumulators of the loop: [total_prize], [breakdown] and
    [winning_tickets_details]. *)
Definition prize_state : Type := Z * gmap nat nat * list winning_detail.

(** [{level: 0 for level in PRIZE_TABLE}] *)
Definition breakdown_init : gmap nat nat := (λ _, 0%nat) <$> PRIZE_TABLE.

(** One iteration of the loop of lines 271-291.  [breakdown[level] += 1]
    reads the old count; the key is present because [breakdown] has the keys
    of [PRIZE_TABLE]. *)
Definition score_ticket (prize_front prize_back : list Z)
    (st : prize_state) (t : ticket) : prize_state :=
  let '(total_prize, breakdown, details) := st in
  match level_pays (ticket_level prize_front prize_back t) with
  | Some (lv, prize_amount) =>
      (total_prize + prize_amount,
       <[lv := S (breakdown !!! lv)]> breakdown,
       details ++ [WinningDetail t.1 t.2 lv])
  | None => st
  end.

Definition calculate_prize (tickets : list ticket) (prize_front prize_back : list Z)
    : prize_state :=
  foldl (score_ticket prize_front prize_back) (0, breakdown_init, []) tickets.

(** *** The tier table as the specification words it *)

Definition spec_tier (front_hits back_hits : nat) : option nat :=
  match front_hits, back_hits with
  | 5, 2 => Some 1
  | 5, 1 => Some 2
  | 5, 0 => Some 3
  | 4, 2 => Some 4
  | 4, 1 => Some 5
  | 3, 2 => Some 6
  | 4, 0 => Some 7
  | 3, 1 => Some 8
  | 2, 2 | 3, 0 | 1, 2 | 2, 1 | 0, 2 => Some 9
  | _, _ => None
  end%nat.

(** The amount a ticket wins: [PRIZE_TABLE[tier]], or zero without a tier. *)
Definition ticket_prize (prize_front prize_back : list Z) (t : ticket) : Z :=
  match ticket_level prize_front prize_back t with
  | Some lv => PRIZE_TABLE !!! lv
  | None => 0
  end.

Definition ticket_detail (prize_front prize_back : list Z) (t : ticket)
    : option winning_detail :=
  WinningDetail t.1 t.2 <$> ticket_level prize_front prize_back t.

(** Number of tickets of a list that fall in tier [lv]. *)
Definition count_level (prize_front prize_back : list Z) (lv : nat)
    (tickets : list ticket) : nat :=
  length (filter (λ t, ticket_level prize_front prize_back t = Some lv) tickets).

Definition Zsum (l : list Z) : Z := foldr Z.add 0 l.
Definition nsum (l : list nat) : nat := foldr Nat.add 0%nat l.

(** ** ReportWriter: [manage_report] (lines 307-371) *)

(** [str(n)] for an integer. *)
Definition str_of_Z (z : Z) : list ascii :=
  list_ascii_of_string (NilZero.string_of_int (Z.to_int z)).

Definition str_of_nat (n : nat) : list ascii := str_of_Z (Z.of_nat n).

(** The digits of a number with a comma before every group of three,
    counted from the right: [digits] is the numeral reversed. *)
Fixpoint group_thousands (digits : list ascii) (seen : nat) : list ascii :=
  match digits with
  | [] => []
  | d :: digits' =>
      match digits' with
      | [] => [d]
      | _ =>
          if (seen =? 2)%nat then d :: ","%char :: group_thousands digits' 0
          else d :: group_thousands digits' (S seen)
      end
  end.

(** [f"{z:,}"] *)
Definition format_comma (z : Z) : list ascii :=
  (if z <? 0 then str "-" else [])
  ++ rev (group_thousands (rev (str_of_Z (Z.abs z))) 0).

(** [f"{z:02d}"] *)
Definition format_02d (z : Z) : list ascii :=
  if (0 <=? z) && (z <? 10) then str "0" ++ str_of_Z z else str_of_Z z.

(** [str(l)] for a list of integers: [[1, 2, 3]]. *)
Definition repr_list (l : list Z) : list ascii :=
  str "[" ++ join (str ", ") (str_of_Z <$> l) ++ str "]".

(** [format_winning_tickets_for_report] (lines 295-305): the numbers that
    are in the draw are set between [**]. *)
Definition highlight (prize : list Z) (x : Z) : list ascii :=
  if bool_decide (x ∈ prize)
  then str "**" ++ format_02d x ++ str "**"
  else format_02d x.

Definition format_winning_tickets_for_report (winning_list : list winning_detail)
    (prize_front prize_back : list Z) : list (list ascii) :=
  (λ t,
     str "  - 前区 [" ++ join (str " ") (highlight prize_front <$> wd_front t)
     ++ str "] 后区 [" ++ join (str " ") (highlight prize_back <$> wd_back t)
     ++ str "]  -> " ++ str_of_nat (wd_level t) ++ str "等奖")
  <$> winning_list.

(** The [report_entry] dictionary of [main_process]; a breakdown is the
    list of the items of its dictionary, in the order of the keys. *)
Record report_entry : Type := ReportEntry {
  eval_period : list ascii;
  report_cutoff_period : list ascii;
  entry_prize_front : list Z;
  entry_prize_back : list Z;
  entry_total_prize : Z;
  rec_prize : Z;
  rec_breakdown : list (nat * nat);
  rec_winners : list winning_detail;
  com_prize : Z;
  com_breakdown : list (nat * nat);
  com_winners : list winning_detail
}.

(** [", ".join(f"{k}等奖x{v}" for k, v in bd.items() if v > 0)] *)
Definition format_breakdown (bd : list (nat * nat)) : list ascii :=
  join (str ", ")
    ((λ kv : nat * nat, str_of_nat kv.1 ++ str "等奖x" ++ str_of_nat kv.2)
     <$> filter (λ kv : nat * nat, (0 < kv.2)%nat) bd).

(** The lines of one recommendation set (lines 339-342 and 346-349). *)
Definition detail_lines (prize : Z) (bd : list (nat * nat))
    (winners : list winning_detail) (prize_front prize_back : list Z)
    (none_text : string) : list (list ascii) :=
  if 0 <? prize then
    (str "奖金: " ++ format_comma prize ++ str "元 | 明细: " ++ format_breakdown bd)
    :: format_winning_tickets_for_report winners prize_front prize_back
  else [str none_text].

(** The text of a new entry (lines 330-351). *)
Definition entry_text (timestamp : list ascii) (e : report_entry) : list ascii :=
  join line_feed
    ([ str "评估时间: " ++ timestamp;
       str "评估期号 (实际开奖): " ++ eval_period e;
       str "分析报告数据截止期: " ++ report_cutoff_period e;
       str "开奖号码: 前区 " ++ repr_list (entry_prize_front e)
         ++ str " 后区 " ++ repr_list (entry_prize_back e);
       str "总奖金: " ++ format_comma (entry_total_prize e) ++ str " 元";
       []; str "--- 单式推荐详情 ---" ]
     ++ detail_lines (rec_prize e) (rec_breakdown e) (rec_winners e)
          (entry_prize_front e) (entry_prize_back e) "未中奖"
     ++ [ []; str "--- 复式推荐详情 ---" ]
     ++ detail_lines (com_prize e) (com_breakdown e) (com_winners e)
          (entry_prize_front e) (entry_prize_back e) "未中奖或未生成投注").

Definition normal_marker : list ascii := str "==== 评估记录 ====".
Definition error_marker : list ascii := str "==== 错误日志 ====".

(** ['=' * 20] *)
Definition entry_rule : list ascii := replicate 20 "="%char.

Definition is_blank (s : list ascii) : bool :=
  match strip s with [] => true | _ => false end.

(** Lines 319-325: the entries and the error lines read back from the
    content of the report file. *)
Definition read_normal_entries (content_str : list ascii) : list (list ascii) :=
  let normal_part := default [] (head (split_str error_marker content_str)) in
  strip <$> filter (λ entry, negb (is_blank entry)
                             && negb (contains normal_marker entry))
                   (split_str entry_rule normal_part).

Definition read_error_entries (content_str : list ascii) : list (list ascii) :=
  let error_part := default [] (split_str error_marker content_str !! 1%nat) in
  strip <$> filter (λ err, negb (is_blank err)) (splitlines error_part).

(** Lines 327-358: the two lists after the new record is put in front and
    the old ones are cut.  [new_entry] and [new_error] are [None] for
    Python's [None]; an empty error text counts as none. *)
Definition updated_entries (content_str timestamp : list ascii)
    (new_entry : option report_entry) : list (list ascii) :=
  let normal_entries := read_normal_entries content_str in
  take MAX_NORMAL_RECORDS
    match new_entry with
    | Some e => entry_text timestamp e :: normal_entries
    | None => normal_entries
    end.

Definition updated_errors (content_str timestamp : list ascii)
    (new_error : option (list ascii)) : list (list ascii) :=
  let error_entries := read_error_entries content_str in
  take MAX_ERROR_LOGS
    match new_error with
    | Some (c :: msg) =>
        (str "[" ++ timestamp ++ str "] " ++ c :: msg) :: error_entries
    | _ => error_entries
    end.

(** Lines 362-368: the text written to the file. *)
Definition render_report (final_normal_entries final_error_entries : list (list ascii))
    : list ascii :=
  normal_marker ++ line_feed
  ++ join (line_feed ++ entry_rule ++ line_feed) final_normal_entries
  ++ line_feed ++ line_feed ++ error_marker ++ line_feed
  ++ join line_feed final_error_entries.

(** The content of the report file after the call, given its content
    before ([[]] when there is no file) and the time of the call as
    [strftime] formats it. *)
Definition manage_report (content_str timestamp : list ascii)
    (new_entry : option report_entry) (new_error : option (list ascii))
    : list ascii :=
  render_report (updated_entries content_str timestamp new_entry)
                (updated_errors content_str timestamp new_error).

(** ** The scoring steps of [main_process] (lines 405-416)

    The recommendations parsed from the report go to [calculate_prize] as
    they are: the discrete tickets directly, the pools through
    [generate_complex_tickets]. *)
Definition score_report (report_content : list ascii)
    (prize_front prize_back : list Z) : prize_state * prize_state :=
  let '(rec_tickets, complex_fronts, complex_backs) :=
    parse_recommendations_from_report report_content in
  let complex_tickets := (generate_complex_tickets complex_fronts complex_backs).1 in
  (calculate_prize rec_tickets prize_front prize_back,
   calculate_prize complex_tickets prize_front prize_back).

(** ** Samples *)

(** *** Sample draw files *)

(** One line of the draw file, the two number fields in double quotes. *)
Definition csv_record (period date front back : string) : list ascii :=
  str period ++ str "," ++ str date ++ str ","
  ++ double_quote ++ str front ++ double_quote ++ str ","
  ++ double_quote ++ str back ++ double_quote.

(** A draw file: the header line, then the records. *)
Definition csv_text (records : list (list ascii)) : list ascii :=
  join line_feed (str "period,date,front,back" :: records).

(** A file whose second record has a front number out of range and whose
    third record has a period of two digits. *)
Definition csv_with_malformed_rows : list ascii :=
  csv_text [ csv_record "2024001" "2024-01-01" "1,2,3,4,5" "1,2";
             csv_record "2024002" "2024-01-03" "1,2,3,4,99" "1,2";
             str "12,2024-01-05,x,y" ].

(** A file whose records are not in the order of their periods. *)
Definition csv_out_of_order : list ascii :=
  csv_text [ csv_record "2024002" "2024-01-03" "3,1,2,5,4" "2,1";
             csv_record "2024001" "2024-01-01" "1,2,3,4,5" "1,2";
             csv_record "10003" "2010-01-05" "1,2,3,4,5" "1,2" ].

(** A file with two periods of the same numeric value. *)
Definition csv_equal_values : list ascii :=
  csv_text [ csv_record "0100" "2024-01-01" "1,2,3,4,5" "1,2";
             csv_record "00100" "2024-01-03" "1,2,3,4,6" "1,2" ].

(** A file with a valid record and then a line of [n] letters: one field of
    [n] characters. *)
Definition csv_with_long_field (n : nat) : list ascii :=
  csv_text [ csv_record "2024001" "2024-01-01" "1,2,3,4,5" "1,2";
             replicate n "a"%char ].

(** A file with a valid record and then a record with a NUL character. *)
Definition csv_with_nul : list ascii :=
  csv_text [ csv_record "2024001" "2024-01-01" "1,2,3,4,5" "1,2";
             str "2024002,2024-01-03," ++ ["000"%char] ].

(** *** Sample reports *)

(** A report as the analyzer writes it: the cutoff declaration, discrete
    tickets (the second with four front numbers only), the complex pools,
    and a second front pool further down. *)
Definition sample_report : list ascii :=
  join line_feed
    [ str "分析基于数据: 截至 2024001 期";
      str "注 1: 前区 [01 05 09 22 35] 后区 [03 11]";
      str "注 2: 前区 [01 05 09 22] 后区 [03 11]";
      str "注 3: 前区 [02 06 10 23 34] 后区 [04 12]";
      str "前区 (Top 7): 07 01 02 03 04 05 06";
      str "后区 (Top 3): 03 01 02";
      str "前区 (Top 8): 11 12 13 14 15 16 17 18" ].

(** A report with a ticket whose numbers are out of range and repeated,
    and pools of the same kind. *)
Definition unchecked_report : list ascii :=
  join line_feed
    [ str "分析基于数据: 截至 2024001 期";
      str "注 1: 前区 [01 02 03 99 99] 后区 [06 06]";
      str "前区 (Top 6): 01 01 02 03 04 77";
      str "后区 (Top 2): 00 13" ].

(** The files of a directory: two reports for the target period, one of
    them newer, a report whose name has no timestamp, one whose timestamp
    is not a date, an unreadable file and a report for another period. *)
Definition sample_files : list (list ascii * option (list ascii)) :=
  [ (str "/r/dlt_analysis_output_20240115_123456.txt", Some sample_report);
    (str "/r/dlt_analysis_output_latest.txt", Some sample_report);
    (str "/r/dlt_analysis_output_20240116_080000.txt", Some sample_report);
    (str "/r/dlt_analysis_output_20240230_080000.txt", Some sample_report);
    (str "/r/dlt_analysis_output_20240301_080000.txt", None);
    (str "/r/dlt_analysis_output_20240401_080000.txt",
     Some (str "分析基于数据: 截至 2024002 期")) ].

(** *** Sample report files *)

Definition sample_timestamp : list ascii := str "2024-01-16 08:00:00".

(** An entry as [main_process] builds it. *)
Definition sample_entry : report_entry :=
  ReportEntry (str "2024002") (str "2024001") [1; 2; 3; 4; 5] [6; 7] 15
    15 [(1, 0); (2, 0); (3, 0); (4, 0); (5, 0); (6, 0); (7, 0); (8, 1); (9, 0)]%nat
    [WinningDetail [1; 2; 3; 9; 10] [6; 8] 8]
    0 [(1, 0); (2, 0); (3, 0); (4, 0); (5, 0); (6, 0); (7, 0); (8, 0); (9, 0)]%nat
    [].

(** A report file that holds twenty error lines and no entry. *)
Definition report_with_twenty_errors : list ascii :=
  render_report []
    ((λ i, str "[2024-01-01 00:00:00] error " ++ str_of_nat i) <$> seq 1 20).

(** The message the top-level handler (lines 433-438) passes: the
    exception, then the lines of the traceback. *)
Definition traceback_error : list ascii :=
  join line_feed
    [ str "uncaught: KeyError - 2024002";
      str "Traceback (most recent call last):";
      str "KeyError: 2024002" ].

(** ** [main_process] (lines 377-428)

    What a run does to the report file is the sequence of its calls to
    [manage_report]; what it reads is [read_file], the result of
    [robust_file_read] for a path, and [report_paths], the paths [glob]
    lists for the report pattern.  The files are those of one run: a path
    read twice gives the same content. *)

Definition CSV_FILE : list ascii := str "daletou.csv".

(** [os.path.basename(path)] on POSIX: the text after the last slash. *)
Definition basename (path : list ascii) : list ascii :=
  default [] (last (split_char "/" path)).

(** A call [manage_report(new_error=...)] or [manage_report(new_entry=...)]. *)
Inductive report_call : Type :=
  | RecordError (new_error : list ascii)
  | RecordEntry (new_entry : report_entry).

(** [l[-k]] for [k >= 1]; [None] is Python's IndexError. *)
Definition index_from_end {A : Type} (l : list A) (k : nat) : option A :=
  if (length l <? k)%nat then None else l !! (length l - k)%nat.

(** The items of a breakdown dictionary, in the order of its keys: the
    keys are those of [PRIZE_TABLE], in the order of the table. *)
Definition breakdown_items (bd : gmap nat nat) : list (nat * nat) :=
  (λ lv, (lv, bd !!! lv)) <$> tiers.

(** The messages of the five error calls. *)
Definition csv_unreadable_error : list ascii :=
  str "无法读取或未找到CSV数据文件: " ++ CSV_FILE.

Definition csv_insufficient_error : list ascii :=
  str "CSV数据不足两期或解析失败，无法进行评估。".

Definition report_missing_error (report_cutoff_period : list ascii) : list ascii :=
  str "未找到数据截止期为 " ++ report_cutoff_period ++ str " 的分析报告。".

Definition report_unreadable_error (report_path : list ascii) : list ascii :=
  str "无法读取分析报告文件: " ++ report_path.

Definition no_bets_error (report_path : list ascii) : list ascii :=
  str "未能从报告 " ++ basename report_path ++ str " 中解析出任何有效投注。".

(** The run: whether it returns or lets an exception escape (the
    ValueError of the sort, the IndexError of [sorted_periods[-1]], the
    KeyError of [period_map[eval_period]]), and the calls to
    [manage_report] made until then, oldest first.  The call of line 409
    does not end the run. *)
Definition main_process (read_file : list ascii → option (list ascii))
    (report_paths : list (list ascii)) : outcome () * list report_call :=
  match read_file CSV_FILE with
  | None | Some [] => (Returned (), [RecordError csv_unreadable_error])
  | Some csv_content =>
      match (get_period_data_from_csv csv_content).1 with
      | Raised => (Raised, [])
      | Returned None => (Returned (), [RecordError csv_insufficient_error])
      | Returned (Some (period_map, sorted_periods)) =>
          if bool_decide (period_map = ∅) || (length sorted_periods <? 2)%nat
          then (Returned (), [RecordError csv_insufficient_error])
          else
            match index_from_end sorted_periods 1,
                  index_from_end sorted_periods 2 with
            | Some eval_period, Some report_cutoff_period =>
                match find_matching_report
                        ((λ path, (path, read_file path)) <$> report_paths)
                        report_cutoff_period with
                | None | Some [] =>
                    (Returned (),
                     [RecordError (report_missing_error report_cutoff_period)])
                | Some report_path =>
                    match read_file report_path with
                    | None | Some [] =>
                        (Returned (),
                         [RecordError (report_unreadable_error report_path)])
                    | Some report_content =>
                        let '(rec_tickets, complex_fronts, complex_backs) :=
                          parse_recommendations_from_report report_content in
                        let complex_tickets :=
                          (generate_complex_tickets complex_fronts complex_backs).1 in
                        let warned :=
                          match rec_tickets, complex_tickets with
                          | [], [] => [RecordError (no_bets_error report_path)]
                          | _, _ => []
                          end in
                        match period_map !! eval_period with
                        | None => (Raised, warned)
                        | Some prize_data =>
                            let prize_front := draw_front prize_data in
                            let prize_back := draw_back prize_data in
                            let '(rec_prize, rec_bd, rec_winners) :=
                              calculate_prize rec_tickets prize_front prize_back in
                            let '(com_prize, com_bd, com_winners) :=
                              calculate_prize complex_tickets prize_front prize_back in
                            (Returned (),
                             warned
                             ++ [RecordEntry
                                   (ReportEntry eval_period report_cutoff_period
                                      prize_front prize_back
                                      (rec_prize + com_prize)
                                      rec_prize (breakdown_items rec_bd) rec_winners
                                      com_prize (breakdown_items com_bd) com_winners)])
                        end
                    end
                end
            | _, _ => (Raised, [])
            end
      end
  end.

(** The entry a run records, when it records one. *)
Definition recorded_entry (calls : list report_call) : option report_entry :=
  match last calls with
  | Some (RecordEntry e) => Some e
  | _ => None
  end.

(** *** Reading back what [manage_report] wrote

    [robust_file_read] opens the file in text mode: a carriage return, alone
    or before a line feed, comes back as a line feed. *)
Fixpoint universal_newlines (s : list ascii) : list ascii :=
  match s with
  | [] => []
  | c :: s' =>
      if (chr_code c =? 13)%nat then
        "010"%char
        :: match s' with
           | c' :: s'' =>
               if (chr_code c' =? 10)%nat then universal_newlines s''
               else universal_newlines s'
           | [] => []
           end
      else c :: universal_newlines s'
  end.

(** An entry that can be written and read back: what
    [read_normal_entries] returns is of this kind. *)
Definition entry_ok (entry : list ascii) : Prop :=
  strip entry = entry ∧ entry ≠ []
  ∧ contains entry_rule entry = false
  ∧ contains error_marker entry = false
  ∧ contains normal_marker entry = false
  ∧ Forall (λ c, chr_code c ≠ 13%nat) entry.

(** An entry that can be put in front of the others: its text holds
    neither the rule nor the error marker, and no carriage return. *)
Definition entry_writable (entry : list ascii) : Prop :=
  contains entry_rule entry = false
  ∧ contains error_marker entry = false
  ∧ Forall (λ c, chr_code c ≠ 13%nat) entry.

(** An error line that can be written and read back: what
    [read_error_entries] returns is of this kind. *)
Definition error_ok (err : list ascii) : Prop :=
  strip err = err ∧ err ≠ []
  ∧ contains error_marker err = false
  ∧ Forall (λ c, is_line_boundary c = false) err.

(** *** The report file from call to call

    What a call leaves in the report file, given what the file held before
    ([[]] when there is none) and the time of the call; then the file after
    a sequence of calls, oldest first. *)
Definition record_call (content timestamp : list ascii) (call : report_call)
    : list ascii :=
  match call with
  | RecordError new_error =>
      manage_report (universal_newlines content) timestamp None (Some new_error)
  | RecordEntry new_entry =>
      manage_report (universal_newlines content) timestamp (Some new_entry) None
  end.

Definition report_file_after (content : list ascii)
    (calls : list (list ascii * report_call)) : list ascii :=
  foldl (λ content tc, record_call content tc.1 tc.2) content calls.

(** The line of an error in the file (line 354). *)
Definition error_line (timestamp new_error : list ascii) : list ascii :=
  str "[" ++ timestamp ++ str "] " ++ new_error.

(** The error lines of a sequence of calls, newest first. *)
Definition logged_lines (calls : list (list ascii * report_call))
    : list (list ascii) :=
  rev (omap (λ tc : list ascii * report_call,
               match tc.2 with
               | RecordError (c :: msg) => Some (error_line tc.1 (c :: msg))
               | _ => None
               end) calls).

(** A call whose record can be written: see [entry_writable] and
    [error_ok]. *)
Definition call_ok (timestamp : list ascii) (call : report_call) : Prop :=
  match call with
  | RecordError new_error =>
      new_error ≠ [] → error_ok (error_line timestamp new_error)
  | RecordEntry new_entry => entry_writable (entry_text timestamp new_entry)
  end.

(** A run of the script: the time of its k-th call to [manage_report], what
    it reads and the report files it finds. *)
Record run : Type := Run {
  run_now : nat → list ascii;
  run_read_file : list ascii → option (list ascii);
  run_report_paths : list (list ascii)
}.

Definition run_calls (r : run) : list (list ascii * report_call) :=
  imap (λ k call, (run_now r k, call))
    (main_process (run_read_file r) (run_report_paths r)).2.

(** A character that is neither the [=] of the rule and of the markers
    nor a line boundary: the characters of the numbers [main_process] prints,
    of the fixed texts around them and of a [strftime] time stamp. *)
Definition plain_char (c : ascii) : bool :=
  negb (Ascii.eqb c "="%char) && negb (is_line_boundary c).

Definition plain (s : list ascii) : Prop := Forall (λ c, plain_char c = true) s.

(** *** More samples *)

(** A draw file in which the period 2024002 has two records. *)
Definition csv_repeated_period : list ascii :=
  csv_text [ csv_record "2024001" "2024-01-01" "1,2,3,4,5" "1,2";
             csv_record "2024002" "2024-01-03" "1,2,3,4,6" "1,2";
             csv_record "2024002" "2024-01-04" "7,8,9,10,11" "3,4" ].

(** The files of a run: the draw file and the reports of [sample_files]. *)
Definition sample_read_file (path : list ascii) : option (list ascii) :=
  if bool_decide (path = CSV_FILE) then Some csv_out_of_order
  else default None (list_to_map (M := gmap (list ascii) (option (list ascii)))
                       sample_files !! path).

Definition sample_report_paths : list (list ascii) := sample_files.*1.


(** A run on the sample files, at the sample time. *)
Definition sample_run : run :=
  Run (λ _, sample_timestamp) sample_read_file sample_report_paths.

(** * Properties *)

(** ** PrizeEngine *)

Lemma level_of_spec_tier (fh bh : nat) : level_of fh bh = spec_tier fh bh.
Proof.
  destruct fh as [|[|[|[|[|[|fh]]]]]]; destruct bh as [|[|[|bh]]]; reflexivity.
Qed.

Lemma level_of_range (fh bh lv : nat) :
  level_of fh bh = Some lv → (1 ≤ lv ≤ 9)%nat.
Proof.
  rewrite level_of_spec_tier.
  destruct fh as [|[|[|[|[|[|fh]]]]]]; destruct bh as [|[|[|bh]]]; simpl;
    intros H; inversion H; lia.
Qed.

Lemma PRIZE_TABLE_lookup (lv : nat) :
  (1 ≤ lv ≤ 9)%nat → ∃ amount, PRIZE_TABLE !! lv = Some amount.
Proof.
  intros [H1 H9].
  do 10 (destruct lv as [|lv]; [first [lia | eexists; reflexivity]|]). lia.
Qed.

Lemma level_pays_level_of (fh bh : nat) :
  level_pays (level_of fh bh)
  = (λ lv, (lv, PRIZE_TABLE !!! lv)) <$> level_of fh bh.
Proof.
  destruct (level_of fh bh) as [lv|] eqn:E; [|reflexivity].
  apply level_of_range in E. destruct (PRIZE_TABLE_lookup lv E) as [a Ha].
  simpl. unfold level_pays.
  replace (lv =? 0)%nat with false by (symmetry; apply Nat.eqb_neq; lia).
  simpl. rewrite Ha. by rewrite (lookup_total_correct _ _ _ Ha).
Qed.

Lemma score_ticket_unfold pf pb (total : Z) (bd : gmap nat nat) ds (t : ticket) :
  score_ticket pf pb (total, bd, ds) t
  = match ticket_level pf pb t with
    | Some lv => (total + PRIZE_TABLE !!! lv, <[lv := S (bd !!! lv)]> bd,
                  ds ++ [WinningDetail t.1 t.2 lv])
    | None => (total, bd, ds)
    end.
Proof.
  unfold score_ticket, ticket_level. rewrite level_pays_level_of.
  by destruct (level_of _ _).
Qed.

(** The loop, from any accumulator: what it adds to each component. *)
Lemma calculate_prize_loop pf pb (tickets : list ticket) :
  ∀ (total : Z) (bd : gmap nat nat) ds,
    ∃ bd',
      foldl (score_ticket pf pb) (total, bd, ds) tickets
      = (total + Zsum (ticket_prize pf pb <$> tickets), bd',
         ds ++ omap (ticket_detail pf pb) tickets)
      ∧ (∀ lv, bd' !!! lv = (bd !!! lv + count_level pf pb lv tickets)%nat)
      ∧ (∀ lv, (1 ≤ lv ≤ 9)%nat → is_Some (bd !! lv) → is_Some (bd' !! lv))
      ∧ (∀ lv, is_Some (bd' !! lv) → is_Some (bd !! lv) ∨ (1 ≤ lv ≤ 9)%nat).
Proof.
  induction tickets as [|t tickets IH]; intros total bd ds.
  - exists bd. simpl. rewrite Z.add_0_r, app_nil_r. repeat split; auto.
  - cbn [foldl]. rewrite score_ticket_unfold.
    assert (Hcount : ∀ lv, count_level pf pb lv (t :: tickets)
              = ((if decide (ticket_level pf pb t = Some lv) then 1 else 0)
                 + count_level pf pb lv tickets)%nat).
    { intros lv. unfold count_level. rewrite filter_cons.
      by destruct (decide (ticket_level pf pb t = Some lv)). }
    assert (Hsum : Zsum (ticket_prize pf pb <$> t :: tickets)
              = ticket_prize pf pb t + Zsum (ticket_prize pf pb <$> tickets))
      by reflexivity.
    assert (Hdet : omap (ticket_detail pf pb) (t :: tickets)
              = option_list (ticket_detail pf pb t)
                ++ omap (ticket_detail pf pb) tickets).
    { cbn [omap list_omap]. by destruct (ticket_detail pf pb t). }
    rewrite Hsum, Hdet. unfold ticket_prize at 1, ticket_detail at 1.
    destruct (ticket_level pf pb t) as [lv0|] eqn:E.
    + destruct (IH (total + PRIZE_TABLE !!! lv0) (<[lv0:=S (bd !!! lv0)]> bd)
                  (ds ++ [WinningDetail t.1 t.2 lv0])) as (bd' & -> & Hc & Hd & He).
      exists bd'. split; [|split; [|split]].
      * f_equal; [f_equal; lia|]. by rewrite <- app_assoc.
      * intros lv. rewrite Hc, Hcount. destruct (decide (lv0 = lv)) as [->|Hne].
        -- rewrite lookup_total_insert_eq.
           rewrite decide_True by reflexivity. lia.
        -- rewrite lookup_total_insert_ne by done.
           rewrite decide_False by congruence. lia.
      * intros lv Hr Hs. apply Hd; [done|].
        rewrite lookup_insert. case_decide; eauto.
      * intros lv Hs. apply He in Hs as [Hs|Hs]; [|by right].
        rewrite lookup_insert in Hs. case_decide; [|by left].
        subst. right. unfold ticket_level in E. by apply level_of_range in E.
    + destruct (IH total bd ds) as (bd' & -> & Hc & Hd & He).
      exists bd'. split; [|split; [|split]]; auto.
      intros lv. rewrite Hc, Hcount. rewrite decide_False by congruence. lia.
Qed.

Lemma PRIZE_TABLE_values :
  PRIZE_TABLE !!! 1%nat = 10000000 ∧ PRIZE_TABLE !!! 2%nat = 300000
  ∧ PRIZE_TABLE !!! 3%nat = 10000 ∧ PRIZE_TABLE !!! 4%nat = 3000
  ∧ PRIZE_TABLE !!! 5%nat = 300 ∧ PRIZE_TABLE !!! 6%nat = 200
  ∧ PRIZE_TABLE !!! 7%nat = 100 ∧ PRIZE_TABLE !!! 8%nat = 15
  ∧ PRIZE_TABLE !!! 9%nat = 5.
Proof. repeat split; reflexivity. Qed.

Lemma PRIZE_TABLE_keys (lv : nat) :
  is_Some (PRIZE_TABLE !! lv) ↔ (1 ≤ lv ≤ 9)%nat.
Proof.
  split.
  - intros [a Ha]. apply elem_of_list_to_map_2 in Ha.
    repeat (apply elem_of_cons in Ha as [Ha|Ha]; [inversion Ha; lia|]).
    by apply elem_of_nil in Ha.
  - intros H. destruct (PRIZE_TABLE_lookup lv H) as [a Ha]. by exists a.
Qed.

Lemma breakdown_init_keys (lv : nat) :
  is_Some (breakdown_init !! lv) ↔ (1 ≤ lv ≤ 9)%nat.
Proof.
  unfold breakdown_init. rewrite lookup_fmap, fmap_is_Some.
  apply PRIZE_TABLE_keys.
Qed.

Lemma breakdown_init_zero (lv : nat) : breakdown_init !!! lv = 0%nat.
Proof.
  unfold breakdown_init. rewrite lookup_total_alt, lookup_fmap.
  by destruct (PRIZE_TABLE !! lv).
Qed.

Lemma elem_of_tiers (lv : nat) : lv ∈ tiers ↔ (1 ≤ lv ≤ 9)%nat.
Proof. unfold tiers. rewrite elem_of_seq. lia. Qed.

Lemma count_level_cons pf pb lv (t : ticket) tickets :
  count_level pf pb lv (t :: tickets)
  = ((if decide (ticket_level pf pb t = Some lv) then 1 else 0)
     + count_level pf pb lv tickets)%nat.
Proof.
  unfold count_level. rewrite filter_cons.
  by destruct (decide (ticket_level pf pb t = Some lv)).
Qed.

Ltac decide_levels :=
  repeat match goal with
    | |- context [decide (Some ?a = Some ?b)] =>
        destruct (decide (Some a = Some b)); [try discriminate | try congruence]
    | |- context [decide (None = Some ?b)] =>
        destruct (decide (None = Some b)); [try discriminate | try congruence]
    end.

(** Summing the prizes ticket by ticket or tier by tier gives the same. *)
Lemma prize_sum_by_level pf pb (tickets : list ticket) :
  Zsum (ticket_prize pf pb <$> tickets)
  = Zsum ((λ lv, Z.of_nat (count_level pf pb lv tickets) * (PRIZE_TABLE !!! lv))
            <$> tiers).
Proof.
  destruct PRIZE_TABLE_values as (P1 & P2 & P3 & P4 & P5 & P6 & P7 & P8 & P9).
  induction tickets as [|t tickets IH].
  - reflexivity.
  - change (Zsum (ticket_prize pf pb <$> t :: tickets))
      with (ticket_prize pf pb t + Zsum (ticket_prize pf pb <$> tickets)).
    rewrite IH. unfold tiers. cbn [seq fmap list_fmap Zsum foldr].
    rewrite !count_level_cons. unfold ticket_prize.
    destruct (ticket_level pf pb t) as [lv0|] eqn:E.
    + unfold ticket_level in E. apply level_of_range in E.
      do 10 (destruct lv0 as [|lv0]; [first [lia | decide_levels;
        rewrite ?P1, ?P2, ?P3, ?P4, ?P5, ?P6, ?P7, ?P8, ?P9; lia]|]).
      lia.
    + decide_levels. lia.
Qed.

Lemma winners_by_level pf pb (tickets : list ticket) :
  length (omap (ticket_detail pf pb) tickets)
  = nsum ((λ lv, count_level pf pb lv tickets) <$> tiers).
Proof.
  induction tickets as [|t tickets IH].
  - reflexivity.
  - cbn [omap list_omap]. unfold tiers in *.
    cbn [seq fmap list_fmap nsum foldr] in *.
    rewrite !count_level_cons. unfold ticket_detail at 1.
    destruct (ticket_level pf pb t) as [lv0|] eqn:E.
    + unfold ticket_level in E. apply level_of_range in E.
      cbn [fmap option_fmap option_map length].
      fold (ticket_detail pf pb). rewrite IH.
      do 10 (destruct lv0 as [|lv0]; [first [lia | decide_levels; lia]|]).
      lia.
    + cbn [fmap option_fmap option_map]. fold (ticket_detail pf pb).
      rewrite IH. decide_levels. lia.
Qed.

Lemma calculate_prize_components pf pb (tickets : list ticket) :
  ∃ bd,
    calculate_prize tickets pf pb
    = (Zsum (ticket_prize pf pb <$> tickets), bd,
       omap (ticket_detail pf pb) tickets)
    ∧ (∀ lv, bd !!! lv = count_level pf pb lv tickets)
    ∧ (∀ lv, is_Some (bd !! lv) ↔ (1 ≤ lv ≤ 9)%nat).
Proof.
  destruct (calculate_prize_loop pf pb tickets 0 breakdown_init [])
    as (bd & Heq & Hc & Hd & He).
  exists bd. split; [|split].
  - unfold calculate_prize. by rewrite Heq.
  - intros lv. rewrite Hc, breakdown_init_zero. lia.
  - intros lv. split.
    + intros Hs. apply He in Hs as [Hs|Hs]; [|done].
      by apply breakdown_init_keys.
    + intros Hr. apply Hd; [done|]. by apply breakdown_init_keys.
Qed.

(** C1: calculate_prize gives every ticket exactly the tier that the pair
    (front_hits, back_hits) determines in the specification's table, and no
    prize for every other pair.  The if/elif chain of the code is the table
    ([level_of] = [spec_tier], a total function of the pair); the winners of
    any ticket list are the tickets with a tier, each listed once with that
    tier; a single ticket yields at most one detail, one count and one
    amount; the three examples of the specification evaluate to tiers 1, 2
    and 6. *)
Theorem calculate_prize_tier_table :
  (∀ fh bh : nat, level_of fh bh = spec_tier fh bh)
  ∧ (∀ (tickets : list ticket) (pf pb : list Z),
       (calculate_prize tickets pf pb).2
       = omap (λ t : ticket,
                 WinningDetail t.1 t.2 <$> spec_tier (hits t.1 pf) (hits t.2 pb))
              tickets)
  ∧ (∀ (front back pf pb : list Z),
       calculate_prize [(front, back)] pf pb
       = match spec_tier (hits front pf) (hits back pb) with
         | Some lv => (PRIZE_TABLE !!! lv, <[lv := 1%nat]> breakdown_init,
                       [WinningDetail front back lv])
         | None => (0, breakdown_init, [])
         end)
  ∧ (calculate_prize [([1; 2; 3; 4; 5], [6; 7])] [1; 2; 3; 4; 5] [6; 7]).2
    = [WinningDetail [1; 2; 3; 4; 5] [6; 7] 1]
  ∧ (calculate_prize [([1; 2; 3; 4; 5], [6; 8])] [1; 2; 3; 4; 5] [6; 7]).2
    = [WinningDetail [1; 2; 3; 4; 5] [6; 8] 2]
  ∧ (calculate_prize [([1; 2; 3; 9; 10], [6; 7])] [1; 2; 3; 4; 5] [6; 7]).2
    = [WinningDetail [1; 2; 3; 9; 10] [6; 7] 6].
Proof.
  split; [exact level_of_spec_tier|]. split; [|split].
  - intros tickets pf pb.
    destruct (calculate_prize_components pf pb tickets) as (bd & -> & _).
    cbn [snd]. induction tickets as [|t tickets IH]; [reflexivity|].
    cbn [omap list_omap]. rewrite IH. unfold ticket_detail, ticket_level.
    by rewrite level_of_spec_tier.
  - intros front back pf pb. unfold calculate_prize. cbn [foldl].
    rewrite score_ticket_unfold. unfold ticket_level. cbn [fst snd].
    rewrite level_of_spec_tier.
    destruct (spec_tier _ _) as [lv|]; [|reflexivity].
    by rewrite breakdown_init_zero.
  - repeat split; vm_compute; reflexivity.
Qed.

(** C3: the total returned by calculate_prize is the sum of
    PRIZE_TABLE[tier] over the tickets that have a tier (the others add
    zero), the table being the one of the specification; the breakdown has
    exactly the keys 1..9, each mapped to the number of tickets of that tier
    (zero included); hence the total is the sum over the tiers of
    breakdown[t] * PRIZE_TABLE[t] and the winners list has as many elements
    as the breakdown counts add up to. *)
Theorem calculate_prize_totals (tickets : list ticket) (pf pb : list Z) :
  map_to_list PRIZE_TABLE
    ≡ₚ [ (1%nat, 10000000); (2%nat, 300000); (3%nat, 10000); (4%nat, 3000);
         (5%nat, 300); (6%nat, 200); (7%nat, 100); (8%nat, 15); (9%nat, 5) ]
  ∧ (calculate_prize tickets pf pb).1.1
    = Zsum ((λ t, match ticket_level pf pb t with
                  | Some lv => PRIZE_TABLE !!! lv
                  | None => 0
                  end) <$> tickets)
  ∧ dom (calculate_prize tickets pf pb).1.2 = list_to_set tiers
  ∧ (∀ lv, lv ∈ tiers →
       (calculate_prize tickets pf pb).1.2 !! lv
       = Some (length (filter (λ t, ticket_level pf pb t = Some lv) tickets)))
  ∧ (calculate_prize tickets pf pb).1.1
    = Zsum ((λ lv, Z.of_nat ((calculate_prize tickets pf pb).1.2 !!! lv)
                   * (PRIZE_TABLE !!! lv)) <$> tiers)
  ∧ length (calculate_prize tickets pf pb).2
    = nsum ((λ lv, (calculate_prize tickets pf pb).1.2 !!! lv) <$> tiers).
Proof.
  destruct (calculate_prize_components pf pb tickets) as (bd & -> & Hc & Hk).
  cbn [fst snd]. split; [|split; [|split; [|split; [|split]]]].
  - unfold PRIZE_TABLE. apply map_to_list_to_map.
    change (NoDup (seq 1 9)). apply NoDup_seq.
  - reflexivity.
  - apply set_eq. intros lv.
    rewrite elem_of_dom, Hk, elem_of_list_to_set, elem_of_tiers. done.
  - intros lv Hlv. apply elem_of_tiers, Hk in Hlv.
    apply lookup_lookup_total in Hlv. rewrite Hlv, Hc. done.
  - rewrite prize_sum_by_level. f_equal. apply list_fmap_ext.
    intros i lv _. by rewrite Hc.
  - rewrite winners_by_level. f_equal. apply list_fmap_ext.
    intros i lv _. by rewrite Hc.
Qed.

(** ** [sorted] *)

Lemma insert_sorted_perm (x : Z) (l : list Z) : insert_sorted x l ≡ₚ x :: l.
Proof.
  induction l as [|y l IH]; [reflexivity|]. simpl.
  destruct (x <=? y); [reflexivity|]. rewrite IH. apply Permutation_swap.
Qed.

Lemma sorted_perm (l : list Z) : sorted l ≡ₚ l.
Proof.
  induction l as [|x l IH]; [reflexivity|]. unfold sorted in *. simpl.
  by rewrite insert_sorted_perm, IH.
Qed.

Lemma length_sorted (l : list Z) : length (sorted l) = length l.
Proof. apply Permutation_length, sorted_perm. Qed.

Lemma insert_sorted_Sorted (x : Z) (l : list Z) :
  Sorted Z.le l → Sorted Z.le (insert_sorted x l).
Proof.
  induction 1 as [|y l Hs IH Hhd]; simpl.
  - repeat constructor.
  - destruct (x <=? y) eqn:E.
    + apply Z.leb_le in E. repeat constructor; assumption.
    + apply Z.leb_gt in E. constructor; [assumption|].
      destruct Hhd as [|z l Hyz]; simpl.
      * constructor. lia.
      * destruct (x <=? z); constructor; [lia | assumption].
Qed.

Lemma sorted_Sorted (l : list Z) : Sorted Z.le (sorted l).
Proof.
  induction l as [|x l IH]; [constructor|].
  unfold sorted in *. simpl. by apply insert_sorted_Sorted.
Qed.

Lemma sorted_eq_iff_perm (l1 l2 : list Z) : sorted l1 = sorted l2 ↔ l1 ≡ₚ l2.
Proof.
  split.
  - intros H. rewrite <- (sorted_perm l1), <- (sorted_perm l2). by rewrite H.
  - intros H. apply (Sorted_unique Z.le); try apply sorted_Sorted.
    by rewrite !sorted_perm.
Qed.

Lemma sorted_id (l : list Z) : Sorted Z.le l → sorted l = l.
Proof.
  intros H. apply (Sorted_unique Z.le); [apply sorted_Sorted | done |].
  apply sorted_perm.
Qed.

(** ** [combinations] and [comb] *)

Section Combinations.
Context {A : Type}.

Lemma combinations_nil_r (l : list A) : combinations l 0 = [[]].
Proof. by destruct l. Qed.

Lemma combinations_cons (x : A) (l : list A) (k : nat) :
  combinations (x :: l) (S k)
  = map (cons x) (combinations l k) ++ combinations l (S k).
Proof. reflexivity. Qed.

Lemma length_combinations (l : list A) (k : nat) :
  Z.of_nat (length (combinations l k)) = comb (length l) k.
Proof.
  revert k. induction l as [|x l IH]; intros [|k]; try reflexivity.
  rewrite combinations_cons, length_app, length_map, Nat2Z.inj_add, !IH.
  reflexivity.
Qed.

Lemma elem_of_combinations (l c : list A) (k : nat) :
  c ∈ combinations l k ↔ c `sublist_of` l ∧ length c = k.
Proof.
  revert c k. induction l as [|x l IH]; intros c [|k].
  - simpl. rewrite list_elem_of_singleton. split.
    + intros ->. split; [constructor | done].
    + intros [_ H]. by destruct c.
  - simpl. rewrite elem_of_nil, sublist_nil_r. split; [done|].
    intros [-> H]. discriminate.
  - rewrite combinations_nil_r, list_elem_of_singleton. split.
    + intros ->. split; [apply sublist_nil_l | done].
    + intros [_ H]. by destruct c.
  - rewrite combinations_cons, elem_of_app, sublist_cons_r, !IH.
    rewrite list_elem_of_fmap. split.
    + intros [(c' & -> & Hc')|[Hs Hl]].
      * apply IH in Hc' as [Hs Hl]. split; [right; eauto | simpl; lia].
      * split; [by left | done].
    + intros [[Hs|(c' & -> & Hs)] Hl].
      * by right.
      * left. exists c'. split; [done|]. apply IH. simpl in Hl. split; [done|lia].
Qed.

Lemma combinations_length_gt (l : list A) (k : nat) :
  (length l < k)%nat → combinations l k = [].
Proof.
  revert k. induction l as [|x l IH]; intros [|k] H; simpl in *; try lia.
  - reflexivity.
  - rewrite (IH k), (IH (S k)) by lia. reflexivity.
Qed.

Lemma combinations_all (l : list A) : combinations l (length l) = [l].
Proof.
  induction l as [|x l IH]; [reflexivity|].
  cbn [length]. rewrite combinations_cons, IH.
  rewrite combinations_length_gt by lia. reflexivity.
Qed.

End Combinations.

Lemma comb_nonneg (n k : nat) : 0 ≤ comb n k.
Proof.
  rewrite <- (length_replicate n tt), <- length_combinations. lia.
Qed.

Lemma comb_pos (n k : nat) : (k ≤ n)%nat → 1 ≤ comb n k.
Proof.
  revert k. induction n as [|n IH]; intros [|k] H; simpl; try lia.
  destruct (decide (k = n)) as [->|Hne].
  - assert (0 ≤ comb n (S n)).
    { apply comb_nonneg. }
    specialize (IH n). lia.
  - pose proof (IH k). pose proof (comb_nonneg n (S k)). lia.
Qed.

Lemma comb_0_r (n : nat) : comb n 0 = 1.
Proof. by destruct n. Qed.

Lemma comb_gt (n k : nat) : (n < k)%nat → comb n k = 0.
Proof.
  intros H. rewrite <- (length_replicate n tt), <- length_combinations.
  rewrite combinations_length_gt; [reflexivity|]. by rewrite length_replicate.
Qed.

Lemma comb_diag (n : nat) : comb n n = 1.
Proof.
  rewrite <- (length_replicate n tt) at 1.
  rewrite <- length_combinations.
  rewrite <- (length_replicate n tt) at 2.
  by rewrite combinations_all.
Qed.

(** The absorption identity behind the multiplicative formula. *)
Lemma comb_succ_mul (n k : nat) :
  comb n (S k) * Z.of_nat (S k) = comb n k * (Z.of_nat n - Z.of_nat k).
Proof.
  revert k. induction n as [|n IH]; intros k.
  - destruct k; simpl; lia.
  - destruct k as [|k].
    + pose proof (IH 0%nat) as H0. cbn [comb]. rewrite !comb_0_r in *. lia.
    + pose proof (IH k) as Hk. pose proof (IH (S k)) as HSk.
      change (comb (S n) (S (S k))) with (comb n (S k) + comb n (S (S k))).
      change (comb (S n) (S k)) with (comb n k + comb n (S k)).
      nia.
Qed.

Lemma comb_sym (n k : nat) : (k ≤ n)%nat → comb n k = comb n (n - k).
Proof.
  revert k. induction n as [|n IH]; intros k H.
  - by replace k with 0%nat by lia.
  - destruct k as [|k].
    + rewrite Nat.sub_0_r, comb_diag. reflexivity.
    + destruct (decide (k = n)) as [->|Hne].
      * rewrite Nat.sub_diag, comb_diag. reflexivity.
      * replace (S n - S k)%nat with (S (n - S k)) by lia.
        cbn [comb]. rewrite (IH k), (IH (S k)) by lia.
        replace (n - k)%nat with (S (n - S k)) by lia. lia.
Qed.

Lemma combinations_count_loop_comb (n steps i : nat) :
  (i + steps ≤ n)%nat →
  combinations_count_loop (Z.of_nat n) steps (Z.of_nat i) (comb n i)
  = comb n (i + steps).
Proof.
  revert i. induction steps as [|steps IH]; intros i H; simpl.
  - by rewrite Nat.add_0_r.
  - replace (Z.of_nat i + 1) with (Z.of_nat (S i)) by lia.
    rewrite <- comb_succ_mul, Z.div_mul by lia.
    rewrite IH by lia. f_equal. lia.
Qed.

Lemma combinations_count_comb (n k : nat) :
  combinations_count (Z.of_nat n) (Z.of_nat k) = comb n k.
Proof.
  unfold combinations_count.
  destruct (Z.of_nat k <? 0) eqn:E0; [apply Z.ltb_lt in E0; lia|].
  destruct (Z.of_nat n <? Z.of_nat k) eqn:E1; simpl.
  { apply Z.ltb_lt in E1. rewrite comb_gt; [reflexivity | lia]. }
  apply Z.ltb_ge in E1.
  destruct (Z.of_nat k =? 0) eqn:E2; simpl.
  { apply Z.eqb_eq in E2. replace k with 0%nat by lia. by rewrite comb_0_r. }
  destruct (Z.of_nat k =? Z.of_nat n) eqn:E3.
  { apply Z.eqb_eq in E3. replace k with n by lia. by rewrite comb_diag. }
  destruct (Z.of_nat n / 2 <? Z.of_nat k) eqn:E4.
  - replace (Z.of_nat n - Z.of_nat k) with (Z.of_nat (n - k)) by lia.
    rewrite Nat2Z.id.
    pose proof (combinations_count_loop_comb n (n - k) 0) as Hl.
    rewrite comb_0_r in Hl. change (Z.of_nat 0) with 0 in Hl.
    rewrite Hl by lia. symmetry. apply comb_sym. lia.
  - rewrite Nat2Z.id.
    pose proof (combinations_count_loop_comb n k 0) as Hl.
    rewrite comb_0_r in Hl. change (Z.of_nat 0) with 0 in Hl.
    by rewrite Hl by lia.
Qed.

(** Both import branches compute the same tickets. *)
Lemma generate_complex_tickets_fallback_tickets (fronts backs : list Z) :
  (generate_complex_tickets_fallback fronts backs).1
  = (generate_complex_tickets fronts backs).1.
Proof.
  unfold generate_complex_tickets_fallback, generate_complex_tickets.
  change 5 with (Z.of_nat 5). change 2 with (Z.of_nat 2).
  rewrite !combinations_count_comb.
  destruct (_ || _); [reflexivity|]. cbv zeta.
  by destruct (max_tickets_limit <? _).
Qed.

(** ** [expand_pool]: the comprehension of [generate_complex_tickets] *)

Lemma elem_of_expand_pool (fronts backs : list Z) (t : ticket) :
  t ∈ expand_pool fronts backs
  ↔ ∃ f b, f ∈ combinations fronts 5 ∧ b ∈ combinations backs 2
           ∧ t = (sorted f, sorted b).
Proof.
  unfold expand_pool. rewrite list_elem_of_In, in_flat_map. split.
  - intros (f & Hf & Ht). apply in_map_iff in Ht as (b & <- & Hb).
    exists f, b. by rewrite !list_elem_of_In.
  - intros (f & b & Hf & Hb & ->). exists f.
    rewrite <- list_elem_of_In. split; [done|].
    apply in_map_iff. exists b. by rewrite <- list_elem_of_In.
Qed.

Lemma length_flat_map_pairs {A B C} (g : A → B → C) (la : list A) (lb : list B) :
  length (flat_map (λ a, map (g a) lb) la) = (length la * length lb)%nat.
Proof.
  induction la as [|a la IH]; [reflexivity|].
  cbn [flat_map length]. rewrite length_app, length_map, IH. lia.
Qed.

Lemma length_expand_pool (fronts backs : list Z) :
  Z.of_nat (length (expand_pool fronts backs))
  = comb (length fronts) 5 * comb (length backs) 2.
Proof.
  rewrite <- !length_combinations. unfold expand_pool.
  rewrite (length_flat_map_pairs (λ f b, (sorted f, sorted b))). lia.
Qed.

Lemma sublist_perm_eq {A} (l c1 c2 : list A) :
  NoDup l → c1 `sublist_of` l → c2 `sublist_of` l → c1 ≡ₚ c2 → c1 = c2.
Proof.
  intros Hnd. revert c1 c2.
  induction Hnd as [|x l Hx Hnd IH]; intros c1 c2 H1 H2 Hp.
  - apply sublist_nil_r in H1, H2. by subst.
  - apply sublist_cons_r in H1 as [H1|(c1' & -> & H1)];
      apply sublist_cons_r in H2 as [H2|(c2' & -> & H2)].
    + by apply IH.
    + exfalso. apply Hx. eapply elem_of_sublist; [|exact H1].
      rewrite Hp. left.
    + exfalso. apply Hx. eapply elem_of_sublist; [|exact H2].
      rewrite <- Hp. left.
    + f_equal. apply IH; try done. by apply Permutation_cons_inv in Hp.
Qed.

Lemma combinations_NoDup {A} (l : list A) (k : nat) :
  NoDup l → NoDup (combinations l k).
Proof.
  intros Hnd. revert k.
  induction Hnd as [|x l Hx Hnd IH]; intros [|k]; simpl.
  - apply NoDup_singleton.
  - constructor.
  - apply NoDup_singleton.
  - apply NoDup_app. split; [|split].
    + apply (NoDup_fmap_2 (cons x)), IH.
    + intros c Hc Hc'. apply list_elem_of_fmap in Hc as (c' & -> & _).
      apply elem_of_combinations in Hc' as [Hs _].
      apply Hx. eapply elem_of_sublist; [|exact Hs]. left.
    + apply IH.
Qed.

Lemma NoDup_flat_map_pairs {A B C} (g : A → B → C) (la : list A) (lb : list B) :
  (∀ a a' b b', a ∈ la → a' ∈ la → b ∈ lb → b' ∈ lb →
     g a b = g a' b' → a = a' ∧ b = b') →
  NoDup la → NoDup lb → NoDup (flat_map (λ a, map (g a) lb) la).
Proof.
  intros Hinj Hla Hlb. induction Hla as [|a la Ha Hla IH]; [constructor|].
  cbn [flat_map]. apply NoDup_app. split; [|split].
  - apply NoDup_fmap_2_strong; [|done].
    intros b b' Hb Hb' Hg. eapply Hinj; [left|left|done|done|done].
  - intros c Hc Hc'. apply list_elem_of_fmap in Hc as (b & -> & Hb).
    apply list_elem_of_In, in_flat_map in Hc' as (a' & Ha' & Hc').
    apply in_map_iff in Hc' as (b' & Hg & Hb').
    apply list_elem_of_In in Ha', Hb'.
    destruct (Hinj a' a b' b) as [-> _]; try done; [by right | left].
  - apply IH. intros a1 a2 b1 b2 H1 H2. apply Hinj; by right.
Qed.

Lemma expand_pool_NoDup (fronts backs : list Z) :
  NoDup fronts → NoDup backs → NoDup (expand_pool fronts backs).
Proof.
  intros Hf Hb. unfold expand_pool.
  apply (NoDup_flat_map_pairs (λ f b, (sorted f, sorted b)));
    [|by apply combinations_NoDup..].
  intros f f' b b' H1 H2 H3 H4 [= Hsf Hsb].
  apply elem_of_combinations in H1 as [H1 _], H2 as [H2 _],
    H3 as [H3 _], H4 as [H4 _].
  apply sorted_eq_iff_perm in Hsf, Hsb.
  split; [by apply (sublist_perm_eq fronts) | by apply (sublist_perm_eq backs)].
Qed.

Lemma generate_complex_tickets_under_cap (fronts backs : list Z) :
  (5 ≤ length fronts)%nat → (2 ≤ length backs)%nat →
  comb (length fronts) 5 * comb (length backs) 2 ≤ max_tickets_limit →
  generate_complex_tickets fronts backs
  = (expand_pool fronts backs,
     [(INFO, CombinationsGenerated (length (expand_pool fronts backs)))]).
Proof.
  intros Hf Hb Hcap. unfold generate_complex_tickets.
  replace (length fronts <? 5)%nat with false
    by (symmetry; apply Nat.ltb_ge; lia).
  replace (length backs <? 2)%nat with false
    by (symmetry; apply Nat.ltb_ge; lia).
  cbv zeta. cbn [orb].
  replace (max_tickets_limit <? _) with false
    by (symmetry; apply Z.ltb_ge; lia).
  reflexivity.
Qed.

Lemma expand_pool_nonempty (fronts backs : list Z) :
  (5 ≤ length fronts)%nat → (2 ≤ length backs)%nat → expand_pool fronts backs ≠ [].
Proof.
  intros Hf Hb Hnil. pose proof (length_expand_pool fronts backs) as Hl.
  rewrite Hnil in Hl. pose proof (comb_pos (length fronts) 5 Hf).
  pose proof (comb_pos (length backs) 2 Hb). simpl in Hl. nia.
Qed.

(** C2, as the source has it: for a front list of at least 5 elements and a
    back list of at least 2 whose combination count is within the cap of
    20,000, generate_complex_tickets returns exactly C(|fronts|,5) x
    C(|backs|,2) tickets: one for every choice of 5 positions of the front
    list and 2 positions of the back list, and nothing else, each with its
    front and back sorted ascending; the tickets are pairwise distinct when
    neither list repeats a value; 6 fronts and 3 backs give 18 tickets, 5
    fronts and 2 backs give the single ticket of the sorted inputs; the
    ImportError branch returns the same tickets. *)
Theorem generate_complex_tickets_all_combinations (fronts backs : list Z) :
  (5 ≤ length fronts)%nat → (2 ≤ length backs)%nat →
  comb (length fronts) 5 * comb (length backs) 2 ≤ 20000 →
  Z.of_nat (length (generate_complex_tickets fronts backs).1)
    = comb (length fronts) 5 * comb (length backs) 2
  ∧ (∀ t : ticket,
       t ∈ (generate_complex_tickets fronts backs).1
       ↔ ∃ f b, f `sublist_of` fronts ∧ length f = 5%nat
                ∧ b `sublist_of` backs ∧ length b = 2%nat
                ∧ t = (sorted f, sorted b))
  ∧ (∀ t : ticket,
       t ∈ (generate_complex_tickets fronts backs).1 →
       Sorted Z.le t.1 ∧ Sorted Z.le t.2
       ∧ length t.1 = 5%nat ∧ length t.2 = 2%nat)
  ∧ (NoDup fronts → NoDup backs →
     NoDup (generate_complex_tickets fronts backs).1)
  ∧ (length fronts = 6%nat → length backs = 3%nat →
     length (generate_complex_tickets fronts backs).1 = 18%nat)
  ∧ (length fronts = 5%nat → length backs = 2%nat →
     (generate_complex_tickets fronts backs).1 = [(sorted fronts, sorted backs)])
  ∧ (generate_complex_tickets_fallback fronts backs).1
    = (generate_complex_tickets fronts backs).1.
Proof.
  intros Hf Hb Hcap.
  rewrite generate_complex_tickets_fallback_tickets.
  rewrite (generate_complex_tickets_under_cap fronts backs Hf Hb Hcap).
  cbn [fst].
  assert (Hmem : ∀ t : ticket,
    t ∈ expand_pool fronts backs
    ↔ ∃ f b, f `sublist_of` fronts ∧ length f = 5%nat
             ∧ b `sublist_of` backs ∧ length b = 2%nat
             ∧ t = (sorted f, sorted b)).
  { intros t. rewrite elem_of_expand_pool. split.
    - intros (f & b & Hcf & Hcb & ->).
      apply elem_of_combinations in Hcf as [? ?], Hcb as [? ?].
      by exists f, b.
    - intros (f & b & ? & ? & ? & ? & ->). exists f, b.
      by rewrite !elem_of_combinations. }
  split; [apply length_expand_pool|]. split; [exact Hmem|].
  split; [|split; [|split; [|split]]].
  - intros t Ht. apply Hmem in Ht as (f & b & _ & Hlf & _ & Hlb & ->).
    cbn [fst snd]. rewrite !length_sorted.
    repeat split; try done; apply sorted_Sorted.
  - apply expand_pool_NoDup.
  - intros H6 H3. pose proof (length_expand_pool fronts backs) as Hl.
    rewrite H6, H3 in Hl. change (comb 6 5 * comb 3 2) with 18 in Hl. lia.
  - intros H5 H2. unfold expand_pool.
    pose proof (combinations_all fronts) as Ha. rewrite H5 in Ha.
    pose proof (combinations_all backs) as Hb'. rewrite H2 in Hb'.
    by rewrite Ha, Hb'.
  - reflexivity.
Qed.

(** The theorem at six fronts and three backs: 18 tickets, all distinct. *)
Lemma generate_complex_tickets_all_combinations_witness :
  Z.of_nat (length (generate_complex_tickets [1; 2; 3; 4; 5; 6] [1; 2; 3]).1)
  = comb 6 5 * comb 3 2
  ∧ NoDup (generate_complex_tickets [1; 2; 3; 4; 5; 6] [1; 2; 3]).1.
Proof.
  destruct (generate_complex_tickets_all_combinations
              [1; 2; 3; 4; 5; 6] [1; 2; 3]) as (Hlen & _ & _ & Hnd & _).
  - simpl. lia.
  - simpl. lia.
  - vm_compute. discriminate.
  - split; [exact Hlen|]. apply Hnd.
    + apply NoDup_ListNoDup, (List.NoDup_map_inv Z.to_nat).
      simpl. apply List.seq_NoDup with (start := 1%nat) (len := 6%nat).
    + apply NoDup_ListNoDup, (List.NoDup_map_inv Z.to_nat).
      simpl. apply List.seq_NoDup with (start := 1%nat) (len := 3%nat).
Defined.

(** C2, counterexample to the claim as stated: with the six fronts
    1,1,2,3,4,5 and three backs the function returns 18 tickets, but they
    are not 18 distinct tickets (the two copies of 1 give the front
    1,2,3,4,5 twice for each pair of backs). *)
Lemma generate_complex_tickets_repeated_value :
  length [1; 1; 2; 3; 4; 5] = 6%nat ∧ length [1; 2; 3] = 3%nat
  ∧ length (generate_complex_tickets [1; 1; 2; 3; 4; 5] [1; 2; 3]).1 = 18%nat
  ∧ ¬ NoDup (generate_complex_tickets [1; 1; 2; 3; 4; 5] [1; 2; 3]).1.
Proof.
  repeat split. apply (bool_decide_eq_false (NoDup _)).
  vm_compute. reflexivity.
Qed.

Lemma generate_complex_tickets_short (fronts backs : list Z) :
  (length fronts < 5)%nat ∨ (length backs < 2)%nat →
  generate_complex_tickets fronts backs = ([], []).
Proof.
  intros H. unfold generate_complex_tickets.
  replace ((length fronts <? 5)%nat || (length backs <? 2)%nat) with true;
    [reflexivity|].
  symmetry. apply orb_true_iff. rewrite !Nat.ltb_lt. done.
Qed.

Lemma generate_complex_tickets_over_cap (fronts backs : list Z) :
  (5 ≤ length fronts)%nat → (2 ≤ length backs)%nat →
  max_tickets_limit < comb (length fronts) 5 * comb (length backs) 2 →
  generate_complex_tickets fronts backs
  = ([], [(WARNING,
           CombinationsOverLimit
             (comb (length fronts) 5 * comb (length backs) 2)
             max_tickets_limit)]).
Proof.
  intros Hf Hb Hcap. unfold generate_complex_tickets.
  replace (length fronts <? 5)%nat with false
    by (symmetry; apply Nat.ltb_ge; lia).
  replace (length backs <? 2)%nat with false
    by (symmetry; apply Nat.ltb_ge; lia).
  cbv zeta. cbn [orb].
  replace (max_tickets_limit <? _) with true
    by (symmetry; apply Z.ltb_lt; lia).
  reflexivity.
Qed.

(** C4: generate_complex_tickets returns the empty list exactly when the
    front list has fewer than 5 elements, or the back list fewer than 2, or
    the count C(|fronts|,5) x C(|backs|,2) exceeds 20,000.  It always
    returns a list (the function is total), and that list is either empty
    or the full expansion, never a part of it.  Over the cap the result is
    the empty list with one warning that carries the count: it is computed
    from the two lengths alone, no ticket being built; so whether the result
    is empty depends on the lengths only.  Twelve fronts and eight backs
    (22,176 combinations) give the empty list. *)
Theorem generate_complex_tickets_empty_cases (fronts backs : list Z) :
  ((generate_complex_tickets fronts backs).1 = []
   ↔ (length fronts < 5)%nat ∨ (length backs < 2)%nat
     ∨ 20000 < comb (length fronts) 5 * comb (length backs) 2)
  ∧ ((generate_complex_tickets fronts backs).1 = []
     ∨ Z.of_nat (length (generate_complex_tickets fronts backs).1)
       = comb (length fronts) 5 * comb (length backs) 2)
  ∧ ((5 ≤ length fronts)%nat ∧ (2 ≤ length backs)%nat
     ∧ 20000 < comb (length fronts) 5 * comb (length backs) 2 →
     generate_complex_tickets fronts backs
     = ([], [(WARNING,
              CombinationsOverLimit
                (comb (length fronts) 5 * comb (length backs) 2) 20000)]))
  ∧ (∀ fronts' backs' : list Z,
       length fronts' = length fronts → length backs' = length backs →
       ((generate_complex_tickets fronts' backs').1 = []
        ↔ (generate_complex_tickets fronts backs).1 = []))
  ∧ generate_complex_tickets [1; 2; 3; 4; 5; 6; 7; 8; 9; 10; 11; 12]
                             [1; 2; 3; 4; 5; 6; 7; 8]
    = ([], [(WARNING, CombinationsOverLimit 22176 20000)]).
Proof.
  assert (Hiff : ∀ f b : list Z,
    (generate_complex_tickets f b).1 = []
    ↔ (length f < 5)%nat ∨ (length b < 2)%nat
      ∨ 20000 < comb (length f) 5 * comb (length b) 2).
  { intros f b.
    destruct (decide (length f < 5)%nat) as [Hf|Hf].
    { rewrite generate_complex_tickets_short by auto. cbn [fst]. tauto. }
    destruct (decide (length b < 2)%nat) as [Hb|Hb].
    { rewrite generate_complex_tickets_short by auto. cbn [fst]. tauto. }
    destruct (decide (20000 < comb (length f) 5 * comb (length b) 2))
      as [Hc|Hc].
    { rewrite generate_complex_tickets_over_cap by (done || lia).
      cbn [fst]. tauto. }
    rewrite generate_complex_tickets_under_cap
      by (unfold max_tickets_limit; lia).
    cbn [fst]. split.
    - intros Hnil. exfalso. apply (expand_pool_nonempty f b); [lia|lia|done].
    - intros [?|[?|?]]; lia. }
  split; [apply Hiff|]. split; [|split; [|split]].
  - destruct (decide (length fronts < 5)%nat) as [Hf|Hf].
    { left. by rewrite generate_complex_tickets_short by auto. }
    destruct (decide (length backs < 2)%nat) as [Hb|Hb].
    { left. by rewrite generate_complex_tickets_short by auto. }
    destruct (decide (20000 < comb (length fronts) 5 * comb (length backs) 2))
      as [Hc|Hc].
    { left. by rewrite generate_complex_tickets_over_cap by (done || lia). }
    right. rewrite generate_complex_tickets_under_cap
      by (unfold max_tickets_limit; lia).
    apply length_expand_pool.
  - intros (Hf & Hb & Hc). by apply generate_complex_tickets_over_cap.
  - intros fronts' backs' Hlf Hlb. rewrite !Hiff, Hlf, Hlb. done.
  - reflexivity.
Qed.

(** ** DrawRecordStore *)

Lemma all_between_Forall (lo hi : Z) (l : list Z) :
  all_between lo hi l = true ↔ Forall (λ x, lo ≤ x ≤ hi) l.
Proof.
  unfold all_between. rewrite forallb_forall, Forall_forall.
  split; intros H x Hx.
  - apply list_elem_of_In, H in Hx. lia.
  - apply list_elem_of_In, H in Hx. lia.
Qed.

(** What a stored row looks like. *)
Lemma read_row_stored (r : row) (p d : list ascii) (f b : list Z) :
  read_row r = RowStored p d f b
  ↔ ∃ red_str blue_str rest fs bs,
      r = p :: d :: red_str :: blue_str :: rest
      ∧ is_Some (re_match_start period_pattern p)
      ∧ mapM py_int (split_char "," red_str) = Some fs
      ∧ length fs = 5%nat ∧ Forall (λ x, 1 ≤ x ≤ 35) fs
      ∧ mapM py_int (split_char "," blue_str) = Some bs
      ∧ length bs = 2%nat ∧ Forall (λ x, 1 ≤ x ≤ 12) bs
      ∧ f = sorted fs ∧ b = sorted bs.
Proof.
  split.
  - destruct r as [|p0 [|d0 [|red [|blue rest]]]]; try discriminate.
    unfold read_row, sorted_ints.
    destruct (re_match_start period_pattern p0) as [m|] eqn:Em; [|discriminate].
    destruct (mapM py_int (split_char "," red)) as [fs|] eqn:Ef;
      [|discriminate].
    destruct (mapM py_int (split_char "," blue)) as [bs|] eqn:Eb;
      [|discriminate].
    cbn [fmap option_fmap option_map].
    destruct (negb _ || _ || _ || _) eqn:Eg; [discriminate|].
    intros [= -> -> <- <-].
    apply orb_false_iff in Eg as [Eg E4].
    apply orb_false_iff in Eg as [Eg E3].
    apply orb_false_iff in Eg as [E1 E2].
    apply negb_false_iff in E1, E2, E3, E4.
    apply Nat.eqb_eq in E1, E3. rewrite length_sorted in E1, E3.
    apply all_between_Forall in E2, E4.
    rewrite sorted_perm in E2, E4.
    exists red, blue, rest, fs, bs. by repeat split.
  - intros (red & blue & rest & fs & bs & -> & [m Hm] & Hf & Hlf & Hrf
            & Hb & Hlb & Hrb & -> & ->).
    unfold read_row, sorted_ints. rewrite Hm, Hf, Hb.
    cbn [fmap option_fmap option_map].
    rewrite !length_sorted, Hlf, Hlb.
    assert (E2 : all_between 1 35 (sorted fs) = true)
      by (apply all_between_Forall; by rewrite sorted_perm).
    assert (E4 : all_between 1 12 (sorted bs) = true)
      by (apply all_between_Forall; by rewrite sorted_perm).
    by rewrite E2, E4.
Qed.

(** A row draws the warning exactly when a number field is not a list of
    integers. *)
Lemma read_row_invalid (r : row) :
  read_row r = RowInvalid
  ↔ ∃ p d red_str blue_str rest,
      r = p :: d :: red_str :: blue_str :: rest
      ∧ is_Some (re_match_start period_pattern p)
      ∧ (mapM py_int (split_char "," red_str) = None
         ∨ mapM py_int (split_char "," blue_str) = None).
Proof.
  split.
  - destruct r as [|p0 [|d0 [|red [|blue rest]]]]; try discriminate.
    unfold read_row, sorted_ints.
    destruct (re_match_start period_pattern p0) as [m|] eqn:Em; [|discriminate].
    destruct (mapM py_int (split_char "," red)) as [fs|] eqn:Ef.
    + destruct (mapM py_int (split_char "," blue)) as [bs|] eqn:Eb.
      * cbn [fmap option_fmap option_map].
        by destruct (negb _ || _ || _ || _).
      * intros _. exists p0, d0, red, blue, rest. eauto.
    + intros _. exists p0, d0, red, blue, rest. eauto.
  - intros (p & d & red & blue & rest & -> & [m Hm] & Hbad).
    unfold read_row, sorted_ints. rewrite Hm.
    destruct (mapM py_int (split_char "," red)) as [fs|] eqn:Ef; [|done].
    destruct Hbad as [?|Hb]; [done|]. by rewrite Hb.
Qed.

(** The loop over the rows, from any accumulator and first index. *)
Lemma csv_loop_from (rows : list row) :
  ∀ (k : nat) (pm : gmap (list ascii) draw) (pl : list (list ascii))
    (log : list log_entry),
    ∃ pm',
      foldl csv_step (pm, pl, log) (zip (seq k (length rows)) rows)
      = (pm', pl ++ omap stored_period rows,
         log ++ omap row_warning (zip (seq k (length rows)) rows))
      ∧ (∀ p dr, pm' !! p = Some dr →
           pm !! p = Some dr
           ∨ ∃ r, r ∈ rows
                  ∧ read_row r
                    = RowStored p (draw_date dr) (draw_front dr) (draw_back dr))
      ∧ (∀ p, is_Some (pm !! p) → is_Some (pm' !! p))
      ∧ (∀ r p d f b, r ∈ rows → read_row r = RowStored p d f b →
           is_Some (pm' !! p)).
Proof.
  induction rows as [|r rows IH]; intros k pm pl log.
  - exists pm. simpl. rewrite !app_nil_r. repeat split; auto.
    intros r p d f b Hr. by apply elem_of_nil in Hr.
  - cbn [length seq zip zip_with foldl]. unfold csv_step at 2. cbn [fst snd].
    cbn [omap list_omap]. unfold stored_period at 1, row_warning at 1.
    cbn [fst snd]. fold (omap stored_period rows).
    fold (omap row_warning (zip (seq (S k) (length rows)) rows)).
    destruct (read_row r) as [| | |p0 d0 f0 b0] eqn:Er.
    + destruct (IH (S k) pm pl log) as (pm' & -> & H1 & H2 & H3).
      exists pm'. repeat split; auto.
      * intros p dr Hp. destruct (H1 p dr Hp) as [?|(r' & Hr' & ?)]; [by left|].
        right. exists r'. split; [by right | done].
      * intros r' p d f b Hr' Hs. apply elem_of_cons in Hr' as [->|Hr'].
        -- congruence.
        -- eauto.
    + destruct (IH (S k) pm pl
                  (log ++ [(WARNING, CsvRowInvalid (k + 2) r)]))
        as (pm' & -> & H1 & H2 & H3).
      exists pm'. repeat split; auto.
      * by rewrite <- app_assoc.
      * intros p dr Hp. destruct (H1 p dr Hp) as [?|(r' & Hr' & ?)]; [by left|].
        right. exists r'. split; [by right | done].
      * intros r' p d f b Hr' Hs. apply elem_of_cons in Hr' as [->|Hr'].
        -- congruence.
        -- eauto.
    + destruct (IH (S k) pm pl log) as (pm' & -> & H1 & H2 & H3).
      exists pm'. repeat split; auto.
      * intros p dr Hp. destruct (H1 p dr Hp) as [?|(r' & Hr' & ?)]; [by left|].
        right. exists r'. split; [by right | done].
      * intros r' p d f b Hr' Hs. apply elem_of_cons in Hr' as [->|Hr'].
        -- congruence.
        -- eauto.
    + destruct (IH (S k) (<[p0 := Draw d0 f0 b0]> pm) (pl ++ [p0]) log)
        as (pm' & -> & H1 & H2 & H3).
      exists pm'. repeat split; auto.
      * by rewrite <- app_assoc.
      * intros p dr Hp. destruct (H1 p dr Hp) as [Hp'|(r' & Hr' & ?)].
        -- rewrite lookup_insert in Hp'. case_decide as Hd; [|by left].
           subst. right. exists r. split; [left|].
           injection Hp' as <-. exact Er.
        -- right. exists r'. split; [by right | done].
      * intros p Hp. apply H2. rewrite lookup_insert. case_decide; eauto.
      * intros r' p d f b Hr' Hs. apply elem_of_cons in Hr' as [->|Hr'].
        -- rewrite Er in Hs. injection Hs as -> -> -> ->.
           apply H2. rewrite lookup_insert_eq. eauto.
        -- eauto.
Qed.

(** *** Periods are numerals *)

Lemma is_digit_not_int_space (c : ascii) :
  is_digit c = true → is_int_space c = false.
Proof.
  unfold is_digit, is_int_space. intros H.
  apply andb_true_iff in H as [H1 H2].
  apply Nat.leb_le in H1, H2.
  apply orb_false_iff. split.
  - apply andb_false_iff. right. apply Nat.leb_gt. lia.
  - apply Nat.eqb_neq. lia.
Qed.

Lemma lstrip_with_keep (p : ascii → bool) (c : ascii) (s : list ascii) :
  p c = false → lstrip_with p (c :: s) = c :: s.
Proof. intros H. simpl. by rewrite H. Qed.

Lemma strip_digits (ds tl : list ascii) :
  ds ≠ [] → Forall (λ c, is_digit c = true) ds →
  tl = [] ∨ tl = ["010"%char] →
  strip_with is_int_space (ds ++ tl) = ds.
Proof.
  intros Hne Hds Htl. unfold strip_with.
  destruct ds as [|c ds]; [done|].
  assert (Hc : is_int_space c = false).
  { apply is_digit_not_int_space. by inversion Hds. }
  change ((c :: ds) ++ tl) with (c :: (ds ++ tl)).
  rewrite (lstrip_with_keep _ c _ Hc).
  change (c :: (ds ++ tl)) with ((c :: ds) ++ tl).
  rewrite rev_app_distr.
  assert (Hrev : lstrip_with is_int_space (rev (c :: ds)) = rev (c :: ds)).
  { assert (Hds' : Forall (λ c, is_digit c = true) (rev (c :: ds))).
    { apply Forall_forall. intros x Hx.
      apply list_elem_of_In, in_rev, list_elem_of_In in Hx.
      by eapply Forall_forall in Hds. }
    destruct (rev (c :: ds)) as [|x xs] eqn:E.
    - reflexivity.
    - apply lstrip_with_keep, is_digit_not_int_space. by inversion Hds'. }
  rewrite <- (rev_involutive (c :: ds)) at 2.
  set (r := rev (c :: ds)) in *. f_equal.
  destruct Htl as [->| ->].
  - exact Hrev.
  - change (rev ["010"%char] ++ r) with ("010"%char :: r).
    cbn [lstrip_with]. change (is_int_space "010") with true. exact Hrev.
Qed.

Lemma parse_digits_digits (s : list ascii) :
  Forall (λ c, is_digit c = true) s →
  ∀ acc b, s ≠ [] ∨ b = true → is_Some (parse_digits acc b s).
Proof.
  induction 1 as [|c s Hc Hs IH]; intros acc b Hb.
  - destruct Hb as [?| ->]; [done|]. simpl. eauto.
  - simpl. rewrite Hc. apply IH. by right.
Qed.

Lemma py_int_digits (ds tl : list ascii) :
  ds ≠ [] → Forall (λ c, is_digit c = true) ds →
  tl = [] ∨ tl = ["010"%char] →
  is_Some (py_int (ds ++ tl)).
Proof.
  intros Hne Hds Htl. unfold py_int. rewrite strip_digits by done.
  destruct ds as [|c ds]; [done|].
  assert (Hc : is_digit c = true) by (by inversion Hds).
  unfold is_digit in Hc. apply andb_true_iff in Hc as [Hc _].
  apply Nat.leb_le in Hc.
  replace (chr_code c =? 43)%nat with false
    by (symmetry; apply Nat.eqb_neq; lia).
  replace (chr_code c =? 45)%nat with false
    by (symmetry; apply Nat.eqb_neq; lia).
  apply parse_digits_digits; [done | by left].
Qed.

(** A text matches the period pattern exactly when it is four to seven
    digits, possibly followed by one line feed (the [$] of [re]). *)
Lemma period_pattern_shape (p : list ascii) :
  is_Some (re_match_start period_pattern p)
  ↔ ∃ ds tl, p = ds ++ tl ∧ Forall (λ c, is_digit c = true) ds
             ∧ (4 ≤ length ds ≤ 7)%nat ∧ (tl = [] ∨ tl = ["010"%char]).
Proof.
  unfold re_match_start, match_at, period_pattern. split.
  - destruct p as [|c1 [|c2 [|c3 [|c4 p]]]]; simpl;
      try (intros [? ?]; discriminate);
      repeat match goal with
        | |- context [is_digit ?c] => destruct (is_digit c) eqn:?
        end;
      try (intros [? ?]; discriminate).
    all: destruct p as [|c5 [|c6 [|c7 [|c8 [|c9 p]]]]]; simpl;
      repeat match goal with
        | |- context [if is_digit ?c then _ else _] => destruct (is_digit c) eqn:?
        | |- context [(chr_code ?c =? 10)%nat] =>
            destruct (chr_code c =? 10)%nat eqn:?
        end;
      try (intros [? ?]; discriminate); intros _.
    all: repeat match goal with
        | H : (chr_code ?c =? 10)%nat = true |- _ =>
            apply Nat.eqb_eq in H;
            apply (f_equal ascii_of_nat) in H;
            unfold chr_code in H; rewrite ascii_nat_embedding in H;
            simpl in H; subst c
        end.
    all: first
      [ by (exists [c1; c2; c3; c4; c5; c6; c7], []; repeat split;
            [repeat constructor; assumption | simpl; lia | simpl; lia | auto])
      | by (exists [c1; c2; c3; c4; c5; c6; c7], ["010"%char]; repeat split;
            [repeat constructor; assumption | simpl; lia | simpl; lia | auto])
      | by (exists [c1; c2; c3; c4; c5; c6], []; repeat split;
            [repeat constructor; assumption | simpl; lia | simpl; lia | auto])
      | by (exists [c1; c2; c3; c4; c5; c6], ["010"%char]; repeat split;
            [repeat constructor; assumption | simpl; lia | simpl; lia | auto])
      | by (exists [c1; c2; c3; c4; c5], []; repeat split;
            [repeat constructor; assumption | simpl; lia | simpl; lia | auto])
      | by (exists [c1; c2; c3; c4; c5], ["010"%char]; repeat split;
            [repeat constructor; assumption | simpl; lia | simpl; lia | auto])
      | by (exists [c1; c2; c3; c4], []; repeat split;
            [repeat constructor; assumption | simpl; lia | simpl; lia | auto])
      | by (exists [c1; c2; c3; c4], ["010"%char]; repeat split;
            [repeat constructor; assumption | simpl; lia | simpl; lia | auto]) ].
  - intros (ds & tl & -> & Hds & Hlen & Htl).
    destruct ds as [|c1 [|c2 [|c3 [|c4 [|c5 [|c6 [|c7 [|c8 ds]]]]]]]];
      simpl in Hlen; try lia.
    all: repeat match goal with
        | H : Forall _ (_ :: _) |- _ => inversion H; clear H; subst
        end.
    all: destruct Htl as [-> | ->]; simpl;
      repeat match goal with
        | H : is_digit ?c = true |- _ => rewrite H; clear H
        end;
      simpl; eauto.
Qed.

(** *** [sorted(periods_list, key=int)] *)

Lemma insert_by_key_perm x l : insert_by_key x l ≡ₚ x :: l.
Proof.
  induction l as [|y l IH]; [reflexivity|]. simpl.
  destruct (x.1 <=? y.1); [reflexivity|]. rewrite IH. apply Permutation_swap.
Qed.

Lemma insert_by_key_sorted x l :
  StronglySorted key_le l → StronglySorted key_le (insert_by_key x l).
Proof.
  induction 1 as [|y l Hs IH Hy]; simpl.
  - repeat constructor.
  - destruct (x.1 <=? y.1) eqn:E.
    + apply Z.leb_le in E. constructor; [by constructor|].
      constructor; [exact E|].
      eapply Forall_impl; [exact Hy|]. unfold key_le. intros z Hz. lia.
    + apply Z.leb_gt in E. constructor; [exact IH|].
      rewrite insert_by_key_perm. constructor; [|exact Hy].
      unfold key_le. lia.
Qed.

Lemma insert_by_key_filter (k : Z) x l :
  filter (λ y : Z * list ascii, y.1 = k) (insert_by_key x l)
  = filter (λ y : Z * list ascii, y.1 = k) (x :: l).
Proof.
  induction l as [|y l IH]; [reflexivity|]. simpl.
  destruct (x.1 <=? y.1) eqn:E; [reflexivity|]. apply Z.leb_gt in E.
  rewrite (filter_cons _ y (insert_by_key x l)), IH.
  rewrite !filter_cons.
  destruct (decide (x.1 = k)) as [Hx|Hx];
    destruct (decide (y.1 = k)) as [Hy|Hy]; try reflexivity.
  lia.
Qed.

Lemma sort_pairs_perm (ps : list (Z * list ascii)) :
  foldr insert_by_key [] ps ≡ₚ ps.
Proof.
  induction ps as [|x ps IH]; [reflexivity|]. simpl.
  by rewrite insert_by_key_perm, IH.
Qed.

Lemma sort_pairs_sorted (ps : list (Z * list ascii)) :
  StronglySorted key_le (foldr insert_by_key [] ps).
Proof.
  induction ps as [|x ps IH]; [constructor|]. simpl.
  by apply insert_by_key_sorted.
Qed.

Lemma sort_pairs_filter (k : Z) (ps : list (Z * list ascii)) :
  filter (λ y : Z * list ascii, y.1 = k) (foldr insert_by_key [] ps)
  = filter (λ y : Z * list ascii, y.1 = k) ps.
Proof.
  induction ps as [|x ps IH]; [reflexivity|]. simpl.
  rewrite insert_by_key_filter, !filter_cons, IH. reflexivity.
Qed.

Lemma StronglySorted_lookup {A} (R : relation A) (l : list A) i j x y :
  StronglySorted R l → l !! i = Some x → l !! j = Some y → (i < j)%nat → R x y.
Proof.
  intros Hs. revert i j. induction Hs as [|z l Hs IH Hz]; intros i j Hi Hj Hlt.
  - by rewrite lookup_nil in Hi.
  - destruct j as [|j]; [lia|]. destruct i as [|i].
    + injection Hi as ->. simpl in Hj.
      eapply Forall_forall in Hz; [exact Hz|]. by eapply list_elem_of_lookup_2.
    + simpl in Hi, Hj. apply (IH i j); [done|done|lia].
Qed.

Lemma filter_keyed_snd (k : Z) (ps : list (Z * list ascii)) :
  Forall (λ x, py_int x.2 = Some x.1) ps →
  filter (λ p, py_int p = Some k) ps.*2
  = (filter (λ y : Z * list ascii, y.1 = k) ps).*2.
Proof.
  induction 1 as [|x ps Hx Hps IH]; [reflexivity|].
  rewrite fmap_cons, !filter_cons, IH, Hx.
  destruct (decide (Some x.1 = Some k)) as [[= E]|E];
    destruct (decide (x.1 = k)) as [E'|E']; try reflexivity; congruence.
Qed.

Lemma sorted_by_int_spec (l l' : list (list ascii)) :
  sorted_by_int l = Some l' →
  l' ≡ₚ l
  ∧ (∀ i j p q, l' !! i = Some p → l' !! j = Some q → (i < j)%nat →
       ∃ a b, py_int p = Some a ∧ py_int q = Some b ∧ a ≤ b)
  ∧ (∀ k, filter (λ p, py_int p = Some k) l'
          = filter (λ p, py_int p = Some k) l).
Proof.
  unfold sorted_by_int. intros H.
  destruct (mapM py_int l) as [keys|] eqn:Ek; [|discriminate].
  cbn [mbind option_bind] in H. injection H as <-.
  apply mapM_Some in Ek.
  assert (Hlen : length l = length keys) by (by eapply Forall2_length).
  assert (Hkeyed : Forall (λ x, py_int x.2 = Some x.1) (zip keys l)).
  { clear Hlen. induction Ek as [|p k l keys Hp Hl IH]; constructor; done. }
  assert (Hkeyed' : Forall (λ x, py_int x.2 = Some x.1)
                      (foldr insert_by_key [] (zip keys l)))
    by (by rewrite sort_pairs_perm).
  split; [|split].
  - rewrite sort_pairs_perm, snd_zip by lia. reflexivity.
  - intros i j p q Hi Hj Hlt.
    rewrite list_lookup_fmap in Hi, Hj.
    destruct (foldr insert_by_key [] (zip keys l) !! i) as [[a p']|] eqn:Ei;
      [|discriminate].
    destruct (foldr insert_by_key [] (zip keys l) !! j) as [[b q']|] eqn:Ej;
      [|discriminate].
    injection Hi as <-. injection Hj as <-.
    exists a, b. split; [|split].
    + apply (proj1 (Forall_forall _ _) Hkeyed' (a, p')).
      by eapply list_elem_of_lookup_2.
    + apply (proj1 (Forall_forall _ _) Hkeyed' (b, q')).
      by eapply list_elem_of_lookup_2.
    + apply (StronglySorted_lookup key_le _ i j (a, p') (b, q')
               (sort_pairs_sorted _) Ei Ej Hlt).
  - intros k. rewrite filter_keyed_snd by done.
    rewrite sort_pairs_filter, <- filter_keyed_snd by done.
    by rewrite snd_zip by lia.
Qed.

Lemma sorted_by_int_total (l : list (list ascii)) :
  Forall (λ p, is_Some (py_int p)) l → is_Some (sorted_by_int l).
Proof.
  intros H. unfold sorted_by_int.
  destruct (mapM_is_Some_2 py_int l) as [keys ->]; [|by eexists].
  eapply Forall_impl; [exact H|]. done.
Qed.

(** *** The whole function *)

Lemma splitlines_go_nonempty (s cur : list ascii) :
  s ≠ [] ∨ cur ≠ [] → splitlines_go cur s ≠ [].
Proof.
  revert cur. induction s as [|c s IH]; intros cur H.
  - destruct H as [?|H]; [done|]. by destruct cur.
  - simpl. destruct (is_line_boundary c).
    + destruct s as [|c' s']; [done|]. by destruct (_ && _).
    + apply IH. by right.
Qed.

Lemma csv_records_nonempty (lines : list (list ascii)) :
  ∀ mode cur fields,
    lines ≠ [] ∨ mode = InQuoted → csv_records mode cur fields lines ≠ [].
Proof.
  induction lines as [|line lines IH]; intros mode cur fields H.
  - destruct H as [?| ->]; done.
  - cbn [csv_records].
    destruct (csv_scan mode cur fields line) as [[mode' cur'] fields'].
    destruct mode'; try done. apply IH. by right.
Qed.

(** The rows read are the first rows of the lines, all of them unless the
    reader raises, and it raises at a row it does not accept. *)
Lemma rows_until_error_spec (rows : list row) :
  ∃ rest,
    rows = (rows_until_error rows).1 ++ rest
    ∧ Forall (λ r, row_readable r = true) (rows_until_error rows).1
    ∧ ((rows_until_error rows).2 = false → rest = [])
    ∧ ((rows_until_error rows).2 = true →
       ∃ r rest', rest = r :: rest' ∧ row_readable r = false).
Proof.
  induction rows as [|r rows (rest & Hrows & Hok & Hdone & Hraise)].
  - exists []. by repeat split.
  - cbn [rows_until_error]. destruct (row_readable r) eqn:Hr.
    + destruct (rows_until_error rows) as [read raised]. cbn [fst snd] in *.
      exists rest. split; [by rewrite Hrows at 1|]. split; [by constructor|done].
    + exists (r :: rows). cbn [fst snd]. split; [done|]. split; [constructor|].
      split; [done|]. intros _. by exists r, rows.
Qed.

Lemma csv_reader_nonempty (csv_content : list ascii) :
  csv_content ≠ [] →
  (csv_reader csv_content).1 ≠ [] ∨ (csv_reader csv_content).2 = true.
Proof.
  intros H. unfold csv_reader.
  assert (csv_records RecordStart [] [] (splitlines csv_content) ≠ []) as Hne.
  { apply csv_records_nonempty. left.
    by apply (splitlines_go_nonempty csv_content []); left. }
  destruct (rows_until_error_spec
              (csv_records RecordStart [] [] (splitlines csv_content)))
    as (rest & Hrows & _ & Hdone & _).
  destruct (rows_until_error _).2; [by right|]. left.
  rewrite (Hdone eq_refl), app_nil_r in Hrows. by rewrite <- Hrows.
Qed.

Lemma stored_period_numeral (r : row) (p : list ascii) :
  stored_period r = Some p → is_Some (py_int p).
Proof.
  unfold stored_period.
  destruct (read_row r) as [| | |p0 d f b] eqn:E; try discriminate.
  intros [= ->]. apply read_row_stored in E
    as (_ & _ & _ & _ & _ & _ & Hm & _).
  apply period_pattern_shape in Hm as (ds & tl & -> & Hds & Hlen & Htl).
  apply py_int_digits; [|done..]. intros ->. simpl in Hlen. lia.
Qed.

(** The function in terms of its loop: for a content that is not empty,
    the loop runs over the rows read after the header, and the call
    returns its map and the sorted periods, or nothing when the reader
    raised or no row was stored. *)
Lemma get_period_data_from_csv_unfold (csv_content : list ascii) :
  csv_content ≠ [] →
  ∃ pm periods,
    csv_loop (data_rows csv_content)
    = (pm, omap stored_period (data_rows csv_content),
       omap row_warning
         (zip (seq 0 (length (data_rows csv_content))) (data_rows csv_content)))
    ∧ sorted_by_int (omap stored_period (data_rows csv_content)) = Some periods
    ∧ (∀ p dr, pm !! p = Some dr →
         ∃ r, r ∈ data_rows csv_content
              ∧ read_row r
                = RowStored p (draw_date dr) (draw_front dr) (draw_back dr))
    ∧ (∀ r p d f b, r ∈ data_rows csv_content →
         read_row r = RowStored p d f b → is_Some (pm !! p))
    ∧ get_period_data_from_csv csv_content
      = if reader_raises csv_content
        then (Returned None,
              omap row_warning
                (zip (seq 0 (length (data_rows csv_content)))
                     (data_rows csv_content))
              ++ [(ERROR, CsvParseError)])
        else if decide (pm = ∅)
        then (Returned None,
              omap row_warning
                (zip (seq 0 (length (data_rows csv_content)))
                     (data_rows csv_content))
              ++ [(WARNING, CsvNoValidData)])
        else (Returned (Some (pm, periods)),
              omap row_warning
                (zip (seq 0 (length (data_rows csv_content)))
                     (data_rows csv_content))).
Proof.
  intros Hne.
  destruct (csv_loop_from (data_rows csv_content) 0 ∅ [] [])
    as (pm & Hloop & H1 & _ & H3).
  destruct (sorted_by_int_total (omap stored_period (data_rows csv_content)))
    as [periods Hsort].
  { apply Forall_forall. intros p Hp.
    apply list_elem_of_omap in Hp as (r & _ & Hr).
    by apply (stored_period_numeral r). }
  exists pm, periods. split; [exact Hloop|]. split; [exact Hsort|].
  split; [|split; [exact H3|]].
  - intros p dr Hp. destruct (H1 p dr Hp) as [Hp'|?]; [|done].
    by rewrite lookup_empty in Hp'.
  - unfold get_period_data_from_csv, reader_raises. unfold data_rows in *.
    destruct csv_content as [|c0 content0]; [done|].
    pose proof (csv_reader_nonempty (c0 :: content0) Hne) as Hr.
    destruct (csv_reader (c0 :: content0)) as [[|header rows] raised];
      cbn [fst snd tail] in *.
    + destruct Hr as [?| ->]; done.
    + unfold csv_loop. rewrite Hloop. cbn [app].
      destruct raised; [reflexivity|].
      destruct (decide (pm = ∅)); [reflexivity|]. by rewrite Hsort.
Qed.

Lemma row_warning_cases (i : nat) (r : row) :
  ((∃ p d red_str blue_str rest,
      r = p :: d :: red_str :: blue_str :: rest
      ∧ is_Some (re_match_start period_pattern p)
      ∧ (mapM py_int (split_char "," red_str) = None
         ∨ mapM py_int (split_char "," blue_str) = None))
   → row_warning (i, r) = Some (WARNING, CsvRowInvalid (i + 2) r))
  ∧ (¬ (∃ p d red_str blue_str rest,
          r = p :: d :: red_str :: blue_str :: rest
          ∧ is_Some (re_match_start period_pattern p)
          ∧ (mapM py_int (split_char "," red_str) = None
             ∨ mapM py_int (split_char "," blue_str) = None))
     → row_warning (i, r) = None).
Proof.
  unfold row_warning. cbn [snd fst]. split.
  - intros Hd. apply read_row_invalid in Hd. by rewrite Hd.
  - intros Hd. destruct (read_row r) eqn:E; try reflexivity.
    by apply read_row_invalid in E.
Qed.

(** The rows the loop reads, against the rows of the lines. *)
Lemma csv_reader_rows (csv_content : list ascii) :
  ∃ rest,
    csv_records RecordStart [] [] (splitlines csv_content)
    = (csv_reader csv_content).1 ++ rest
    ∧ Forall (λ r, row_readable r = true) (csv_reader csv_content).1
    ∧ (reader_raises csv_content = false → rest = [])
    ∧ (reader_raises csv_content = true →
       ∃ r rest', rest = r :: rest' ∧ row_readable r = false).
Proof. apply rows_until_error_spec. Qed.

(** A row the reader does not accept has a field of more characters than
    the limit or, before Python 3.11, a field with a NUL character. *)
Lemma row_readable_false (r : row) :
  row_readable r = false
  ↔ ∃ field, field ∈ r
             ∧ (field_size_limit < char_count field
                ∨ (nul_raises py = true
                   ∧ ∃ c, c ∈ field ∧ chr_code c = 0%nat)).
Proof.
  assert (∀ field, field_readable field = false
                   ↔ field_size_limit < char_count field
                     ∨ (nul_raises py = true
                        ∧ ∃ c, c ∈ field ∧ chr_code c = 0%nat)) as Hfield.
  { intros field. unfold field_readable.
    assert (existsb is_nul field = true
            ↔ ∃ c, c ∈ field ∧ chr_code c = 0%nat) as Hnul.
    { rewrite existsb_exists. split.
      - intros (c & Hc%list_elem_of_In & Hz). exists c. split; [done|].
        by apply Nat.eqb_eq.
      - intros (c & Hc & Hz). exists c. split; [by apply list_elem_of_In|].
        by apply Nat.eqb_eq. }
    destruct (Z.leb_spec (char_count field) field_size_limit) as [Hle|Hgt];
      cbn [andb].
    - rewrite negb_false_iff, andb_true_iff, Hnul. split.
      + intros [? ?]. by right.
      + intros [?|[? ?]]; [lia|done].
    - split; [by left|done]. }
  unfold row_readable. induction r as [|field r IH].
  - split; [done|]. intros (field & Hin & _). by apply elem_of_nil in Hin.
  - cbn [forallb]. rewrite andb_false_iff, IH, Hfield. split.
    + intros [H|(f & Hf & H)].
      * exists field. split; [left|done].
      * exists f. split; [by right|done].
    + intros (f & Hf & H). apply elem_of_cons in Hf as [->|Hf]; [by left|].
      right. by exists f.
Qed.

(** The three ways a call ends. *)
Lemma get_period_data_from_csv_cases (csv_content : list ascii) :
  (reader_raises csv_content = true
   ∧ (get_period_data_from_csv csv_content).1 = Returned None)
  ∨ (reader_raises csv_content = false
     ∧ omap stored_period (data_rows csv_content) = []
     ∧ (get_period_data_from_csv csv_content).1 = Returned None)
  ∨ (reader_raises csv_content = false
     ∧ omap stored_period (data_rows csv_content) ≠ []
     ∧ ∃ pm pl,
         (get_period_data_from_csv csv_content).1 = Returned (Some (pm, pl))).
Proof.
  destruct csv_content as [|c s]; [right; left; by repeat split|].
  destruct (get_period_data_from_csv_unfold (c :: s))
    as (pm & periods & _ & _ & H1 & H2 & ->); [done|].
  destruct (reader_raises (c :: s)); [by left|]. right.
  destruct (decide (pm = ∅)) as [->|Hpm]; cbn [fst].
  - left. split; [done|]. split; [|done].
    destruct (omap stored_period (data_rows (c :: s))) as [|p l] eqn:E; [done|].
    assert (p ∈ omap stored_period (data_rows (c :: s))) as Hp
      by (rewrite E; left).
    apply list_elem_of_omap in Hp as (r & Hr & Hs). unfold stored_period in Hs.
    destruct (read_row r) as [| | |p0 d f b] eqn:Er; try done.
    destruct (H2 r p0 d f b Hr Er) as [dr Hdr]. by rewrite lookup_empty in Hdr.
  - right. split; [done|]. split; [|by exists pm, periods].
    intros Hnil. apply Hpm, map_empty. intros p.
    apply eq_None_not_Some. intros [dr Hdr].
    destruct (H1 p dr Hdr) as (r & Hr & Hs).
    assert (p ∈ omap stored_period (data_rows (c :: s))) as Hp.
    { apply list_elem_of_omap. exists r. split; [done|].
      unfold stored_period. by rewrite Hs. }
    rewrite Hnil in Hp. by apply elem_of_nil in Hp.
Qed.

(** C5, as the source has it: a row is stored exactly when it has at least
    four fields, its period field matches the pattern of four to seven
    digits, its front field is five integers within 1..35 and its back
    field two integers within 1..12; the stored lists are sorted ascending.
    Every other row that the reader yields is skipped and the rows after it
    are still read: when the reader does not raise, the rows read are all
    the rows of the file, and the call returns a map exactly when one of
    them is stored; the returned map and period list are made of all the
    stored rows.  But a row that the reader cannot read (a field of more
    than 131072 characters; a NUL character before Python 3.11) ends the
    parsing: the call returns (None, None) whatever the rows before have
    stored, after an error message.  A warning is recorded for a row
    exactly when its period matches and one of its number fields is not a
    list of integers (with the line number of the row); rows that fail the
    pattern, the field count, the counts or the ranges are skipped without
    a message.  No exception escapes the call. *)
Theorem get_period_data_from_csv_row_rules (csv_content : list ascii) :
  (∀ (r : row) (p d : list ascii) (f b : list Z),
     read_row r = RowStored p d f b
     ↔ ∃ red_str blue_str rest fs bs,
         r = p :: d :: red_str :: blue_str :: rest
         ∧ is_Some (re_match_start period_pattern p)
         ∧ mapM py_int (split_char "," red_str) = Some fs
         ∧ length fs = 5%nat ∧ Forall (λ x, 1 ≤ x ≤ 35) fs
         ∧ mapM py_int (split_char "," blue_str) = Some bs
         ∧ length bs = 2%nat ∧ Forall (λ x, 1 ≤ x ≤ 12) bs
         ∧ f = sorted fs ∧ b = sorted bs)
  ∧ (∀ p : list ascii,
       is_Some (re_match_start period_pattern p)
       ↔ ∃ ds tl, p = ds ++ tl ∧ Forall (λ c, is_digit c = true) ds
                  ∧ (4 ≤ length ds ≤ 7)%nat ∧ (tl = [] ∨ tl = line_feed))
  ∧ (∃ rest,
       csv_records RecordStart [] [] (splitlines csv_content)
       = (csv_reader csv_content).1 ++ rest
       ∧ Forall (λ r, row_readable r = true) (csv_reader csv_content).1
       ∧ (reader_raises csv_content = false → rest = [])
       ∧ (reader_raises csv_content = true →
          ∃ r rest',
            rest = r :: rest'
            ∧ ∃ field, field ∈ r
                       ∧ (field_size_limit < char_count field
                          ∨ (nul_raises py = true
                             ∧ ∃ c, c ∈ field ∧ chr_code c = 0%nat))))
  ∧ (reader_raises csv_content = true →
     (get_period_data_from_csv csv_content).1 = Returned None)
  ∧ ((∃ pm pl,
        (get_period_data_from_csv csv_content).1 = Returned (Some (pm, pl)))
     ↔ reader_raises csv_content = false
       ∧ ∃ r p d f b, r ∈ data_rows csv_content
                      ∧ read_row r = RowStored p d f b)
  ∧ (∀ pm : gmap (list ascii) draw,
       returned_map (get_period_data_from_csv csv_content) = Some pm →
       (∀ p dr, pm !! p = Some dr →
          Sorted Z.le (draw_front dr) ∧ length (draw_front dr) = 5%nat
          ∧ Forall (λ x, 1 ≤ x ≤ 35) (draw_front dr)
          ∧ Sorted Z.le (draw_back dr) ∧ length (draw_back dr) = 2%nat
          ∧ Forall (λ x, 1 ≤ x ≤ 12) (draw_back dr)
          ∧ ∃ r, r ∈ data_rows csv_content
                 ∧ read_row r
                   = RowStored p (draw_date dr) (draw_front dr) (draw_back dr))
       ∧ (∀ r p d f b, r ∈ data_rows csv_content →
            read_row r = RowStored p d f b → is_Some (pm !! p)))
  ∧ (∀ pl : list (list ascii),
       returned_periods (get_period_data_from_csv csv_content) = Some pl →
       pl ≡ₚ omap stored_period (data_rows csv_content))
  ∧ (csv_content ≠ [] →
     ∃ last,
       (get_period_data_from_csv csv_content).2
       = omap row_warning
           (zip (seq 0 (length (data_rows csv_content)))
                (data_rows csv_content))
         ++ last
       ∧ (if reader_raises csv_content then last = [(ERROR, CsvParseError)]
          else last = [] ∨ last = [(WARNING, CsvNoValidData)]))
  ∧ (∀ (i : nat) (r : row),
       ((∃ p d red_str blue_str rest,
           r = p :: d :: red_str :: blue_str :: rest
           ∧ is_Some (re_match_start period_pattern p)
           ∧ (mapM py_int (split_char "," red_str) = None
              ∨ mapM py_int (split_char "," blue_str) = None))
        → row_warning (i, r) = Some (WARNING, CsvRowInvalid (i + 2) r))
       ∧ (¬ (∃ p d red_str blue_str rest,
               r = p :: d :: red_str :: blue_str :: rest
               ∧ is_Some (re_match_start period_pattern p)
               ∧ (mapM py_int (split_char "," red_str) = None
                  ∨ mapM py_int (split_char "," blue_str) = None))
          → row_warning (i, r) = None))
  ∧ (get_period_data_from_csv csv_content).1 ≠ Raised.
Proof.
  split; [exact read_row_stored|]. split; [exact period_pattern_shape|].
  split.
  { destruct (csv_reader_rows csv_content) as (rest & Hrows & Hok & Hdone & Hraise).
    exists rest. split; [done|]. split; [done|]. split; [done|].
    intros Hr. destruct (Hraise Hr) as (r & rest' & -> & Hbad).
    exists r, rest'. split; [done|]. by apply row_readable_false. }
  split.
  { intros Hr.
    destruct (get_period_data_from_csv_cases csv_content)
      as [[_ ?]|[(Hn & _)|(Hn & _)]]; [done|congruence..]. }
  split.
  { destruct (get_period_data_from_csv_cases csv_content)
      as [[Hr Hnone]|[(Hr & Hnil & Hnone)|(Hr & Hsome & pm & pl & Hret)]].
    - split; [intros (pm & pl & H); congruence|intros [? _]; congruence].
    - split; [intros (pm & pl & H); congruence|].
      intros (_ & r & p & d & f & b & Hin & Hrow). exfalso.
      assert (p ∈ omap stored_period (data_rows csv_content)) as Hp.
      { apply list_elem_of_omap. exists r. split; [done|].
        unfold stored_period. by rewrite Hrow. }
      rewrite Hnil in Hp. by apply elem_of_nil in Hp.
    - split; [intros _|by exists pm, pl]. split; [done|].
      destruct (omap stored_period (data_rows csv_content)) as [|p l] eqn:E;
        [done|].
      assert (p ∈ omap stored_period (data_rows csv_content)) as Hp
        by (rewrite E; left).
      apply list_elem_of_omap in Hp as (r & Hin & Hs).
      unfold stored_period in Hs.
      destruct (read_row r) as [| | |p0 d f b] eqn:Er; try done.
      by exists r, p0, d, f, b. }
  destruct csv_content as [|c0 content0].
  { repeat split; try discriminate; try done;
      by apply row_warning_cases. }
  set (content := c0 :: content0).
  destruct (get_period_data_from_csv_unfold content)
    as (pm & periods & Hloop & Hsort & Hpm1 & Hpm2 & Heq); [done|].
  rewrite Heq. split; [|split; [|split; [|split]]].
  - intros pm'. unfold returned_map.
    destruct (reader_raises content); cbn [fst]; [discriminate|].
    destruct (decide (pm = ∅)); cbn [fst]; [discriminate|].
    intros [= <-]. split; [|exact Hpm2].
    intros p dr Hp. destruct (Hpm1 p dr Hp) as (r & Hr & Hrow).
    pose proof Hrow as Hrow'.
    apply read_row_stored in Hrow'
      as (red & blue & rest & fs & bs & _ & _ & _ & Hlf & Hrf & _ & Hlb
          & Hrb & Hf & Hb).
    rewrite Hf, Hb, !length_sorted.
    split; [apply sorted_Sorted|]. split; [done|].
    split; [by rewrite sorted_perm|].
    split; [apply sorted_Sorted|]. split; [done|].
    split; [by rewrite sorted_perm|].
    exists r. by rewrite <- Hf, <- Hb.
  - intros pl. unfold returned_periods.
    destruct (reader_raises content); cbn [fst]; [discriminate|].
    destruct (decide (pm = ∅)); cbn [fst]; [discriminate|].
    intros [= <-]. by apply sorted_by_int_spec in Hsort as [Hperm _].
  - intros _. destruct (reader_raises content); cbn [snd].
    + eexists. split; reflexivity.
    + destruct (decide (pm = ∅)); cbn [snd].
      * eexists. split; [reflexivity|]. by right.
      * exists []. rewrite app_nil_r. split; [reflexivity|]. by left.
  - intros i r. apply row_warning_cases.
  - destruct (reader_raises content); [done|]. by destruct (decide (pm = ∅)).
Qed.

(** C6, as the source has it: the period list the function returns holds
    the stored periods, sorted by the integer each one denotes, not by its
    text: [int] succeeds on every element, the values never decrease along
    the list, and a period of smaller value stands before every period of
    larger value; periods of equal value keep the order of their rows.
    The list of the specification's example sorts as it says. *)
Theorem get_period_data_from_csv_numeric_order
    (csv_content : list ascii) (pl : list (list ascii)) :
  returned_periods (get_period_data_from_csv csv_content) = Some pl →
  pl ≡ₚ omap stored_period (data_rows csv_content)
  ∧ (∀ i j p q, pl !! i = Some p → pl !! j = Some q → (i < j)%nat →
       ∃ a b, py_int p = Some a ∧ py_int q = Some b ∧ a ≤ b)
  ∧ (∀ i j p q a b, pl !! i = Some p → pl !! j = Some q →
       py_int p = Some a → py_int q = Some b → a < b → (i < j)%nat)
  ∧ (∀ k, filter (λ p, py_int p = Some k) pl
          = filter (λ p, py_int p = Some k)
                   (omap stored_period (data_rows csv_content)))
  ∧ sorted_by_int [str "097"; str "0100"; str "099"]
    = Some [str "097"; str "099"; str "0100"].
Proof.
  intros Hret.
  destruct csv_content as [|c0 content0]; [discriminate|].
  destruct (get_period_data_from_csv_unfold (c0 :: content0))
    as (pm & periods & _ & Hsort & _ & _ & Heq); [done|].
  rewrite Heq in Hret. unfold returned_periods in Hret.
  destruct (reader_raises (c0 :: content0)); cbn [fst] in Hret; [discriminate|].
  destruct (decide (pm = ∅)); cbn [fst] in Hret; [discriminate|].
  injection Hret as <-.
  apply sorted_by_int_spec in Hsort as (Hperm & Hord & Hstable).
  split; [exact Hperm|]. split; [exact Hord|].
  split; [|split; [exact Hstable | vm_compute; reflexivity]].
  intros i j p q a b Hi Hj Hp Hq Hlt.
  destruct (decide (i < j)%nat) as [?|Hge]; [done|]. exfalso.
  destruct (decide (i = j)) as [->|Hne].
  - rewrite Hi in Hj. injection Hj as <-. rewrite Hp in Hq.
    injection Hq as <-. lia.
  - destruct (Hord j i q p Hj Hi) as (b' & a' & Hq' & Hp' & Hle); [lia|].
    rewrite Hp in Hp'. rewrite Hq in Hq'.
    injection Hp' as <-. injection Hq' as <-. lia.
Qed.

(** ** ReportLocator *)

Lemma lex_compare_antisym (a b : list Z) :
  lex_compare b a = CompOpp (lex_compare a b).
Proof.
  revert b. induction a as [|x a IH]; intros [|y b]; try reflexivity.
  simpl. rewrite (Z.compare_antisym x y).
  destruct (x ?= y); simpl; auto.
Qed.

Lemma lex_leb_total (a b : list Z) : lex_leb a b = false → lex_leb b a = true.
Proof.
  unfold lex_leb. rewrite (lex_compare_antisym a b).
  by destruct (lex_compare a b).
Qed.

Lemma lex_compare_trans (a b c : list Z) :
  lex_compare a b ≠ Gt → lex_compare b c ≠ Gt → lex_compare a c ≠ Gt.
Proof.
  revert b c. induction a as [|x a IH]; intros [|y b] [|z c]; simpl; try done.
  destruct (x ?= y) eqn:Exy; destruct (y ?= z) eqn:Eyz; try done.
  - apply Z.compare_eq in Exy, Eyz. subst. rewrite Z.compare_refl. apply IH.
  - apply Z.compare_eq in Exy. subst. by rewrite Eyz.
  - apply Z.compare_eq in Eyz. subst. by rewrite Exy.
  - rewrite Z.compare_lt_iff in Exy, Eyz.
    assert (x < z) as Hlt by lia. apply Z.compare_lt_iff in Hlt.
    by rewrite Hlt.
Qed.

Lemma lex_leb_trans (a b c : list Z) :
  lex_leb a b = true → lex_leb b c = true → lex_leb a c = true.
Proof.
  unfold lex_leb. intros H1 H2.
  pose proof (lex_compare_trans a b c) as H.
  destruct (lex_compare a b); destruct (lex_compare b c);
    destruct (lex_compare a c); try done; exfalso; by apply H.
Qed.

Lemma lex_compare_prefix (a b a' b' : list Z) :
  length a = length b →
  lex_compare (a ++ a') (b ++ b') ≠ Gt → lex_compare a b ≠ Gt.
Proof.
  revert b. induction a as [|x a IH]; intros [|y b] Hlen; simpl; try done.
  destruct (x ?= y); try done. apply IH. simpl in Hlen. lia.
Qed.

Lemma candidate_leb_timestamp (c1 c2 : candidate) :
  candidate_leb c1 c2 = true → datetime_leb c1.1 c2.1 = true.
Proof.
  unfold candidate_leb, datetime_leb, lex_leb. intros H.
  pose proof (lex_compare_prefix (datetime_fields c1.1) (datetime_fields c2.1)
                (codes c1.2) (codes c2.2) eq_refl) as Hp.
  destruct (lex_compare (datetime_fields c1.1 ++ codes c1.2) _); try done;
    destruct (lex_compare (datetime_fields c1.1) _); try done;
    exfalso; by apply Hp.
Qed.

Lemma candidate_leb_refl (c : candidate) : candidate_leb c c = true.
Proof.
  unfold candidate_leb. destruct (lex_leb _ _) eqn:E; [done|].
  by apply lex_leb_total in E as E'; rewrite E in E'.
Qed.

Lemma insert_desc_head (x : candidate) (l : list candidate) :
  ∃ h t, insert_desc x l = h :: t
         ∧ (h = x ∨ ∃ t', l = h :: t')
         ∧ candidate_leb x h = true
         ∧ (∀ h' t', l = h' :: t' → candidate_leb h' h = true).
Proof.
  destruct l as [|y l]; simpl.
  - exists x, []. repeat split; auto using candidate_leb_refl.
    intros h' t' [=].
  - destruct (candidate_leb y x) eqn:E.
    + exists x, (y :: l). repeat split; auto using candidate_leb_refl.
      intros h' t' [= <- <-]. exact E.
    + exists y, (insert_desc x l). repeat split; eauto.
      * by apply lex_leb_total in E.
      * intros h' t' [= <- <-]. apply candidate_leb_refl.
Qed.

(** The first element of the sorted candidates is one of them and is not
    below any of them. *)
Lemma sort_desc_head (l : list candidate) :
  match sort_desc l with
  | [] => l = []
  | h :: _ => h ∈ l ∧ ∀ c, c ∈ l → candidate_leb c h = true
  end.
Proof.
  induction l as [|x l IH]; [reflexivity|].
  unfold sort_desc in *. cbn [foldr].
  destruct (insert_desc_head x (foldr insert_desc [] l))
    as (h & t & -> & Hh & Hx & Hl).
  split.
  - destruct Hh as [->|(t' & Ht')]; [left|].
    rewrite Ht' in IH. right. apply IH.
  - intros c Hc. apply elem_of_cons in Hc as [->|Hc]; [exact Hx|].
    destruct (foldr insert_desc [] l) as [|h' t'] eqn:E.
    + subst l. by apply elem_of_nil in Hc.
    + destruct IH as [_ IH].
      eapply lex_leb_trans; [apply (IH c Hc)|]. by eapply Hl.
Qed.

Lemma candidate_of_Some (target path p : list ascii)
    (oc : option (list ascii)) (ts : datetime) :
  candidate_of target (path, oc) = Some (ts, p)
  ↔ p = path
    ∧ ∃ content, oc = Some content ∧ content ≠ []
                 ∧ declared_period content = Some target
                 ∧ file_timestamp path = Some ts.
Proof.
  unfold candidate_of. cbn [fst snd]. split.
  - destruct oc as [[|c content]|]; try discriminate.
    destruct (declared_period (c :: content)) as [period|] eqn:Ed;
      [|discriminate].
    case_decide as Hp; [|discriminate]. subst period.
    destruct (file_timestamp path) as [ts'|] eqn:Et; [|discriminate].
    intros [= <- <-]. split; [done|]. by exists (c :: content).
  - intros (-> & content & -> & Hne & Hd & Ht).
    destruct content as [|c content]; [done|].
    rewrite Hd, decide_True by done. by rewrite Ht.
Qed.

(** C7: find_matching_report returns a file whose content declares the
    target period and whose name carries a timestamp [strptime] accepts,
    and no such file has a later timestamp; the candidates are exactly the
    readable, non-empty files whose declared period is the target and whose
    name has such a timestamp, so a file that declares the target period
    under a name without a parseable timestamp is never a candidate; the
    result is None exactly when no file is a candidate.  In the sample
    directory the report of 16 January is returned; the files named
    "latest" and "20240230" are passed over. *)
Theorem find_matching_report_latest
    (files : list (list ascii * option (list ascii))) (target : list ascii) :
  (∀ path oc ts p,
     candidate_of target (path, oc) = Some (ts, p)
     ↔ p = path
       ∧ ∃ content, oc = Some content ∧ content ≠ []
                    ∧ declared_period content = Some target
                    ∧ file_timestamp path = Some ts)
  ∧ (∀ path content,
       declared_period content = Some target → file_timestamp path = None →
       candidate_of target (path, Some content) = None)
  ∧ (find_matching_report files target = None
     ↔ ∀ file, file ∈ files → candidate_of target file = None)
  ∧ (∀ path,
       find_matching_report files target = Some path →
       ∃ content ts,
         (path, Some content) ∈ files ∧ content ≠ []
         ∧ declared_period content = Some target
         ∧ file_timestamp path = Some ts
         ∧ ∀ path' content' ts',
             (path', Some content') ∈ files → content' ≠ [] →
             declared_period content' = Some target →
             file_timestamp path' = Some ts' →
             datetime_leb ts' ts = true)
  ∧ find_matching_report sample_files (str "2024001")
    = Some (str "/r/dlt_analysis_output_20240116_080000.txt")
  ∧ file_timestamp (str "/r/dlt_analysis_output_latest.txt") = None
  ∧ file_timestamp (str "/r/dlt_analysis_output_20240230_080000.txt") = None
  ∧ find_matching_report sample_files (str "2024003") = None.
Proof.
  split; [intros; apply candidate_of_Some|].
  split.
  { intros path content Hd Ht. unfold candidate_of. cbn [fst snd].
    destruct content as [|c content]; [done|].
    rewrite Hd, decide_True by done. by rewrite Ht. }
  unfold find_matching_report.
  pose proof (sort_desc_head (omap (candidate_of target) files)) as Hhead.
  destruct (sort_desc (omap (candidate_of target) files)) as [|h t] eqn:Es.
  - split; [|split; [discriminate|]].
    + split; [|done]. intros _ file Hf.
      destruct (candidate_of target file) as [c|] eqn:Ec; [|done].
      assert (Hc : c ∈ omap (candidate_of target) files)
        by (apply list_elem_of_omap; eauto).
      rewrite Hhead in Hc. by apply elem_of_nil in Hc.
    + repeat split; vm_compute; reflexivity.
  - destruct Hhead as [Hin Hmax]. split; [|split].
    + split; [discriminate|]. intros Hnone. exfalso.
      apply list_elem_of_omap in Hin as (file & Hf & Hc).
      rewrite (Hnone file Hf) in Hc. discriminate.
    + intros path [= <-].
      apply list_elem_of_omap in Hin as ([path oc] & Hf & Hc).
      destruct h as [ts p]. apply candidate_of_Some in Hc
        as (-> & content & -> & Hne & Hd & Ht).
      exists content, ts. repeat split; try done.
      intros path' content' ts' Hf' Hne' Hd' Ht'.
      assert (Hc' : (ts', path') ∈ omap (candidate_of target) files).
      { apply list_elem_of_omap. exists (path', Some content').
        split; [done|]. apply candidate_of_Some. split; [done|].
        by exists content'. }
      apply (candidate_leb_timestamp (ts', path') (ts, path)), Hmax, Hc'.
    + repeat split; vm_compute; reflexivity.
Qed.

(** ** RecommendationParser *)

(** [re.search] returns the match at the first position that has one. *)
Lemma search_from_first (r : regex) (s : list ascii) :
  ∀ offset,
    match search_from r offset s with
    | Some m =>
        ∃ k, (k ≤ length s)%nat
             ∧ match_at r (offset + k) (drop k s) = Some m
             ∧ ∀ i, (i < k)%nat → match_at r (offset + i) (drop i s) = None
    | None =>
        ∀ i, (i ≤ length s)%nat → match_at r (offset + i) (drop i s) = None
    end.
Proof.
  induction s as [|c s IH]; intros offset.
  - cbn [search_from]. destruct (match_at r offset []) as [m|] eqn:E.
    + exists 0%nat. rewrite Nat.add_0_r. repeat split; [done|done|]. lia.
    + intros i Hi. simpl in Hi. replace i with 0%nat by lia.
      by rewrite Nat.add_0_r.
  - cbn [search_from]. destruct (match_at r offset (c :: s)) as [m|] eqn:E.
    + exists 0%nat. rewrite Nat.add_0_r. repeat split; [simpl; lia|done|]. lia.
    + specialize (IH (S offset)).
      destruct (search_from r (S offset) s) as [m|].
      * destruct IH as (k & Hk & Hm & Hbefore). exists (S k).
        replace (offset + S k)%nat with (S offset + k)%nat by lia.
        repeat split; [simpl; lia | done |].
        intros [|i] Hi; [by rewrite Nat.add_0_r|].
        replace (offset + S i)%nat with (S offset + i)%nat by lia.
        apply Hbefore. lia.
      * intros [|i] Hi; [by rewrite Nat.add_0_r|].
        replace (offset + S i)%nat with (S offset + i)%nat by lia.
        apply IH. simpl in Hi. lia.
Qed.

Lemma match_at_start (r : regex) (offset : nat) (s : list ascii) (m : re_match) :
  match_at r offset s = Some m → m_start m = offset.
Proof.
  unfold match_at. destruct (match_here r 0 [] [] s) as [[spans e]|];
    [|discriminate].
  by intros [= <-].
Qed.

Lemma re_search_first (r : regex) (s : list ascii) (m : re_match) :
  re_search r s = Some m →
  (m_start m ≤ length s)%nat
  ∧ match_at r (m_start m) (drop (m_start m) s) = Some m
  ∧ ∀ i, (i < m_start m)%nat → match_at r i (drop i s) = None.
Proof.
  unfold re_search. intros H. pose proof (search_from_first r s 0) as Hf.
  rewrite H in Hf. destruct Hf as (k & Hk & Hm & Hbefore).
  cbn [Nat.add] in *. pose proof (match_at_start _ _ _ _ Hm) as ->.
  done.
Qed.

Lemma re_search_none (r : regex) (s : list ascii) :
  re_search r s = None
  ↔ ∀ i, (i ≤ length s)%nat → match_at r i (drop i s) = None.
Proof.
  unfold re_search. pose proof (search_from_first r s 0) as Hf. split.
  - intros H. by rewrite H in Hf.
  - intros H. destruct (search_from r 0 s) as [m|]; [|done].
    destruct Hf as (k & Hk & Hm & _). cbn [Nat.add] in Hm.
    by rewrite (H k Hk) in Hm.
Qed.

Lemma ticket_of_match_Some (m : re_match) (t : ticket) :
  ticket_of_match m = Some t
  ↔ ∃ fs bs, mapM py_int (split_ws (group m 1)) = Some fs
             ∧ mapM py_int (split_ws (group m 2)) = Some bs
             ∧ length fs = 5%nat ∧ length bs = 2%nat
             ∧ t = (sorted fs, sorted bs).
Proof.
  unfold ticket_of_match, sorted_ints. split.
  - destruct (mapM py_int (split_ws (group m 1))) as [fs|]; [|discriminate].
    destruct (mapM py_int (split_ws (group m 2))) as [bs|]; [|discriminate].
    cbn [fmap option_fmap option_map]. rewrite !length_sorted.
    destruct (length fs =? 5)%nat eqn:E5; [|discriminate].
    destruct (length bs =? 2)%nat eqn:E2; [|discriminate].
    apply Nat.eqb_eq in E5, E2. intros [= <-]. by exists fs, bs.
  - intros (fs & bs & -> & -> & H5 & H2 & ->).
    cbn [fmap option_fmap option_map]. by rewrite !length_sorted, H5, H2.
Qed.

Lemma pool_of_match_Sorted (m : option re_match) : Sorted Z.le (pool_of_match m).
Proof.
  unfold pool_of_match, sorted_ints. destruct m as [m|]; [|constructor].
  destruct (mapM py_int _); simpl; [apply sorted_Sorted | constructor].
Qed.

(** C8: parse_recommendations_from_report turns each match of the ticket
    pattern into a ticket exactly when its first group is 5 integers and its
    second group 2 integers; a match that is not of that kind adds nothing
    and the matches after it are still read (the tickets are the accepted
    matches, in the order of the text); the function logs nothing per
    match.  Each complex pool is read from the first match of its pattern
    in the text, the one at the leftmost position, and is empty when the
    pattern has no match.  Every list returned is sorted ascending.  On the
    sample report the tickets of entries 1 and 3 are returned, entry 2
    (four front numbers) is skipped, and the front pool is the one of the
    first "Top" declaration. *)
Theorem parse_recommendations_from_report_rules (content : list ascii) :
  (parse_recommendations_from_report content).1.1
    = omap ticket_of_match (re_finditer rec_pattern content)
  ∧ (∀ (m : re_match) (t : ticket),
       ticket_of_match m = Some t
       ↔ ∃ fs bs, mapM py_int (split_ws (group m 1)) = Some fs
                  ∧ mapM py_int (split_ws (group m 2)) = Some bs
                  ∧ length fs = 5%nat ∧ length bs = 2%nat
                  ∧ t = (sorted fs, sorted bs))
  ∧ (∀ t : ticket,
       t ∈ (parse_recommendations_from_report content).1.1 →
       length t.1 = 5%nat ∧ length t.2 = 2%nat
       ∧ Sorted Z.le t.1 ∧ Sorted Z.le t.2)
  ∧ (parse_recommendations_from_report content).1.2
    = match re_search (complex_pattern "前区") content with
      | Some m => default [] (sorted <$> mapM py_int (split_ws (group m 1)))
      | None => []
      end
  ∧ (parse_recommendations_from_report content).2
    = match re_search (complex_pattern "后区") content with
      | Some m => default [] (sorted <$> mapM py_int (split_ws (group m 1)))
      | None => []
      end
  ∧ (∀ (label : string) (m : re_match),
       re_search (complex_pattern label) content = Some m →
       match_at (complex_pattern label) (m_start m) (drop (m_start m) content)
       = Some m
       ∧ ∀ i, (i < m_start m)%nat →
              match_at (complex_pattern label) i (drop i content) = None)
  ∧ (∀ label : string,
       re_search (complex_pattern label) content = None
       ↔ ∀ i, (i ≤ length content)%nat →
              match_at (complex_pattern label) i (drop i content) = None)
  ∧ Sorted Z.le (parse_recommendations_from_report content).1.2
  ∧ Sorted Z.le (parse_recommendations_from_report content).2
  ∧ parse_recommendations_from_report sample_report
    = ([([1; 5; 9; 22; 35], [3; 11]); ([2; 6; 10; 23; 34], [4; 12])],
       [1; 2; 3; 4; 5; 6; 7], [1; 2; 3]).
Proof.
  split; [reflexivity|]. split; [exact ticket_of_match_Some|].
  split.
  { intros t Ht. cbn [fst snd parse_recommendations_from_report] in Ht.
    apply list_elem_of_omap in Ht as (m & _ & Hm).
    apply ticket_of_match_Some in Hm as (fs & bs & _ & _ & H5 & H2 & ->).
    cbn [fst snd]. rewrite !length_sorted.
    repeat split; try done; apply sorted_Sorted. }
  split; [reflexivity|]. split; [reflexivity|].
  split.
  { intros label m Hm. apply re_search_first in Hm as (_ & ? & ?). done. }
  split; [intros label; apply re_search_none|].
  split; [apply pool_of_match_Sorted|].
  split; [apply pool_of_match_Sorted|].
  vm_compute. reflexivity.
Qed.

(** C10: the parser checks the counts 5 and 2 and nothing else: a match
    whose groups are 5 and 2 integers always gives a ticket, whatever the
    integers are.  The report [unchecked_report] yields the ticket
    1,2,3,99,99 + 6,6 (99 is above 35, 99 and 6 are repeated) and the pools
    1,1,2,3,4,77 and 0,13 (77 above 35, 0 and 13 outside 1..12, 1
    repeated); [main_process] hands them to calculate_prize as they are,
    which awards the ticket tier 8 and the expanded pool six prizes. *)
Theorem parse_recommendations_unvalidated :
  (∀ (m : re_match) (fs bs : list Z),
     mapM py_int (split_ws (group m 1)) = Some fs →
     mapM py_int (split_ws (group m 2)) = Some bs →
     length fs = 5%nat → length bs = 2%nat →
     ticket_of_match m = Some (sorted fs, sorted bs))
  ∧ parse_recommendations_from_report unchecked_report
    = ([([1; 2; 3; 99; 99], [6; 6])], [1; 1; 2; 3; 4; 77], [0; 13])
  ∧ ¬ Forall (λ x, 1 ≤ x ≤ 35) [1; 2; 3; 99; 99]
  ∧ ¬ NoDup [1; 2; 3; 99; 99]
  ∧ ¬ Forall (λ x, 1 ≤ x ≤ 12) [0; 13]
  ∧ ¬ NoDup [1; 1; 2; 3; 4; 77]
  ∧ (∀ content pf pb,
       score_report content pf pb
       = (calculate_prize (parse_recommendations_from_report content).1.1 pf pb,
          calculate_prize
            (generate_complex_tickets
               (parse_recommendations_from_report content).1.2
               (parse_recommendations_from_report content).2).1 pf pb))
  ∧ (score_report unchecked_report [1; 2; 3; 4; 5] [6; 7]).1.2
    = [WinningDetail [1; 2; 3; 99; 99] [6; 6] 8]
  ∧ (score_report unchecked_report [1; 2; 3; 4; 5] [6; 7]).1.1.1 = 15
  ∧ (score_report unchecked_report [1; 2; 3; 4; 5] [6; 7]).2.1.1 = 315
  ∧ length (score_report unchecked_report [1; 2; 3; 4; 5] [6; 7]).2.2 = 6%nat.
Proof.
  split.
  { intros m fs bs Hf Hb H5 H2. apply ticket_of_match_Some. by exists fs, bs. }
  split; [vm_compute; reflexivity|].
  split.
  { intros H. apply Forall_forall with (x := 99) in H; [lia|].
    do 3 right. left. }
  split.
  { apply (bool_decide_eq_false (NoDup _)). vm_compute. reflexivity. }
  split.
  { intros H. apply Forall_forall with (x := 0) in H; [lia|]. left. }
  split.
  { apply (bool_decide_eq_false (NoDup _)). vm_compute. reflexivity. }
  split.
  { intros content pf pb. unfold score_report.
    by destruct (parse_recommendations_from_report content) as [[a b] c]. }
  repeat split; vm_compute; reflexivity.
Qed.

(** ** ReportWriter *)

(** C9, the code at the failing input.  The two lists the call writes are
    cut to 10 entries and 20 error records, the new record first.  But an
    error record is written with the line breaks of its text, and the
    file is read back line by line: from a report with twenty error lines,
    a call with the three-line message of the top-level handler writes 20
    records that fill 22 error lines, so the report then holds more than 20
    error lines.  (Besides, the entry the call writes right under the
    heading is not read back by the next call: the heading is in its
    piece of the text, and pieces with the heading are dropped.) *)
Theorem manage_report_error_lines_over_cap :
  (∀ content ts e err,
     (length (updated_entries content ts e) ≤ 10)%nat
     ∧ (length (updated_errors content ts err) ≤ 20)%nat)
  ∧ (∀ content ts e,
       head (updated_entries content ts (Some e)) = Some (entry_text ts e))
  ∧ (∀ content ts c msg,
       head (updated_errors content ts (Some (c :: msg)))
       = Some (str "[" ++ ts ++ str "] " ++ c :: msg))
  ∧ length (read_error_entries report_with_twenty_errors) = 20%nat
  ∧ length (updated_errors report_with_twenty_errors sample_timestamp
              (Some traceback_error)) = 20%nat
  ∧ length (read_error_entries
              (manage_report report_with_twenty_errors sample_timestamp
                 None (Some traceback_error))) = 22%nat
  ∧ read_normal_entries (manage_report [] sample_timestamp (Some sample_entry) None)
    = []
  ∧ updated_entries (manage_report [] sample_timestamp (Some sample_entry) None)
      sample_timestamp (Some sample_entry)
    = [entry_text sample_timestamp sample_entry].
Proof.
  split.
  { intros content ts e err. unfold updated_entries, updated_errors.
    rewrite !length_take. unfold MAX_NORMAL_RECORDS, MAX_ERROR_LOGS. lia. }
  split; [reflexivity|]. split; [reflexivity|].
  repeat split; vm_compute; reflexivity.
Qed.

(** ** The fallback of [generate_complex_tickets] *)

(** X1 (combinations_count, lines 235-241): the counting function of the
    ImportError branch returns the number of tuples
    [itertools.combinations(l, k)] yields, for every list and every [k];
    it returns 0 for a negative [k] and for [k] above [n], and 1 for
    [k = 0] and [k = n]. *)
Theorem combinations_count_counts_combinations :
  (∀ (l : list Z) (k : nat),
     combinations_count (Z.of_nat (length l)) (Z.of_nat k)
     = Z.of_nat (length (combinations l k)))
  ∧ (∀ n k : Z, k < 0 ∨ n < k → combinations_count n k = 0)
  ∧ (∀ n : Z, 0 ≤ n → combinations_count n 0 = 1 ∧ combinations_count n n = 1).
Proof.
  split; [|split].
  - intros l k. by rewrite combinations_count_comb, length_combinations.
  - intros n k H. unfold combinations_count.
    destruct (k <? 0) eqn:E1; [done|]. destruct (n <? k) eqn:E2; [done|]. lia.
  - intros n Hn. unfold combinations_count. split.
    + destruct (0 <? 0) eqn:E1; [lia|]. destruct (n <? 0) eqn:E2; [lia|]. done.
    + destruct (n <? 0) eqn:E1; [lia|]. destruct (n <? n) eqn:E2; [lia|].
      simpl. destruct (n =? 0) eqn:E3; [done|]. by rewrite Z.eqb_refl.
Qed.

(** X2 (generate_complex_tickets, lines 216-251): the ImportError branch
    returns the tickets of the main branch for every pair of pools, and logs
    what the main branch logs after the warning that [math.comb] is not
    available; pools too short return before the import, and log nothing in
    either branch. *)
Theorem generate_complex_tickets_fallback_agrees (fronts backs : list Z) :
  generate_complex_tickets_fallback fronts backs
  = ((generate_complex_tickets fronts backs).1,
     if (length fronts <? 5)%nat || (length backs <? 2)%nat
     then (generate_complex_tickets fronts backs).2
     else (WARNING, MathCombUnavailable) :: (generate_complex_tickets fronts backs).2).
Proof.
  unfold generate_complex_tickets_fallback, generate_complex_tickets.
  destruct ((length fronts <? 5)%nat || (length backs <? 2)%nat); [done|].
  change 5 with (Z.of_nat 5). change 2 with (Z.of_nat 2).
  rewrite !combinations_count_comb.
  by destruct (max_tickets_limit <? comb (length fronts) 5 * comb (length backs) 2).
Qed.

(** ** What [generate_complex_tickets] returns for any pools *)

Lemma elem_of_sorted (x : Z) (l : list Z) : x ∈ sorted l ↔ x ∈ l.
Proof. by rewrite (sorted_perm l). Qed.

(** X3 (generate_complex_tickets, lines 216-251): whatever the pools are,
    the call returns at most 20000 tickets; every ticket has five front
    numbers taken from the front pool and two back numbers taken from the
    back pool, in ascending order, and its numbers are distinct when the
    numbers of the pool are. *)
Theorem generate_complex_tickets_within_pools (fronts backs : list Z) :
  Z.of_nat (length (generate_complex_tickets fronts backs).1) ≤ 20000
  ∧ ∀ t : ticket,
      t ∈ (generate_complex_tickets fronts backs).1 →
      (∀ x, x ∈ t.1 → x ∈ fronts) ∧ (∀ x, x ∈ t.2 → x ∈ backs)
      ∧ length t.1 = 5%nat ∧ length t.2 = 2%nat
      ∧ Sorted Z.le t.1 ∧ Sorted Z.le t.2
      ∧ (NoDup fronts → NoDup t.1) ∧ (NoDup backs → NoDup t.2).
Proof.
  unfold generate_complex_tickets.
  destruct ((length fronts <? 5)%nat || (length backs <? 2)%nat).
  { split; [simpl; lia|]. intros t Ht. by apply elem_of_nil in Ht. }
  destruct (max_tickets_limit <? comb (length fronts) 5 * comb (length backs) 2)
    eqn:Hcap.
  { split; [simpl; lia|]. intros t Ht. by apply elem_of_nil in Ht. }
  cbn [fst]. split.
  - apply Z.ltb_ge in Hcap. rewrite <- length_expand_pool in Hcap.
    unfold max_tickets_limit in Hcap. lia.
  - intros t (f & b & Hf & Hb & ->)%elem_of_expand_pool.
    apply elem_of_combinations in Hf as [Hf Hlf].
    apply elem_of_combinations in Hb as [Hb Hlb]. cbn [fst snd].
    rewrite !length_sorted.
    split; [|split; [|split; [|split; [|split; [|split; [|split]]]]]];
      try done; try apply sorted_Sorted.
    + intros x Hx. apply (proj1 (elem_of_sorted _ _)) in Hx. exact (elem_of_sublist _ _ _ Hx Hf).
    + intros x Hx. apply (proj1 (elem_of_sorted _ _)) in Hx. exact (elem_of_sublist _ _ _ Hx Hb).
    + intros Hnd. rewrite (sorted_perm f). by eapply sublist_NoDup.
    + intros Hnd. rewrite (sorted_perm b). by eapply sublist_NoDup.
Qed.

(** ** [calculate_prize] on lists of tickets *)

Lemma Zsum_app (l1 l2 : list Z) : Zsum (l1 ++ l2) = Zsum l1 + Zsum l2.
Proof. unfold Zsum. induction l1 as [|x l1 IH]; simpl; [done|]. rewrite IH. lia. Qed.

Lemma count_level_app pf pb lv (l1 l2 : list ticket) :
  count_level pf pb lv (l1 ++ l2)
  = (count_level pf pb lv l1 + count_level pf pb lv l2)%nat.
Proof. unfold count_level. by rewrite filter_app, length_app. Qed.

Lemma calculate_prize_total_app (l1 l2 : list ticket) (pf pb : list Z) :
  (calculate_prize (l1 ++ l2) pf pb).1.1
  = (calculate_prize l1 pf pb).1.1 + (calculate_prize l2 pf pb).1.1.
Proof.
  destruct (calculate_prize_components pf pb (l1 ++ l2)) as (bd & -> & _ & _).
  destruct (calculate_prize_components pf pb l1) as (bd1 & -> & _ & _).
  destruct (calculate_prize_components pf pb l2) as (bd2 & -> & _ & _).
  cbn [fst snd]. by rewrite fmap_app, Zsum_app.
Qed.

(** X4 (calculate_prize, lines 253-293): scoring two lists of tickets one
    after the other is scoring each on its own: the totals add up, the
    counts of every tier add up, and the winners of the first list come
    before those of the second. *)
Theorem calculate_prize_app (l1 l2 : list ticket) (pf pb : list Z) :
  (calculate_prize (l1 ++ l2) pf pb).1.1
  = (calculate_prize l1 pf pb).1.1 + (calculate_prize l2 pf pb).1.1
  ∧ (∀ lv, (calculate_prize (l1 ++ l2) pf pb).1.2 !!! lv
           = ((calculate_prize l1 pf pb).1.2 !!! lv
              + (calculate_prize l2 pf pb).1.2 !!! lv)%nat)
  ∧ (calculate_prize (l1 ++ l2) pf pb).2
    = (calculate_prize l1 pf pb).2 ++ (calculate_prize l2 pf pb).2.
Proof.
  split; [apply calculate_prize_total_app|].
  destruct (calculate_prize_components pf pb (l1 ++ l2)) as (bd & -> & Hbd & _).
  destruct (calculate_prize_components pf pb l1) as (bd1 & -> & Hbd1 & _).
  destruct (calculate_prize_components pf pb l2) as (bd2 & -> & Hbd2 & _).
  cbn [fst snd]. split.
  - intros lv. by rewrite Hbd, Hbd1, Hbd2, count_level_app.
  - by rewrite omap_app.
Qed.

Lemma ticket_prize_range pf pb (t : ticket) :
  match ticket_detail pf pb t with
  | Some _ => 5 ≤ ticket_prize pf pb t ≤ 10000000
  | None => ticket_prize pf pb t = 0
  end.
Proof.
  unfold ticket_detail, ticket_prize.
  destruct (ticket_level pf pb t) as [lv|] eqn:Hlv; simpl; [|done].
  apply level_of_range in Hlv.
  destruct PRIZE_TABLE_values as (H1 & H2 & H3 & H4 & H5 & H6 & H7 & H8 & H9).
  assert (lv = 1 ∨ lv = 2 ∨ lv = 3 ∨ lv = 4 ∨ lv = 5 ∨ lv = 6 ∨ lv = 7
          ∨ lv = 8 ∨ lv = 9)%nat as Hcases by lia.
  destruct Hcases as [->|[->|[->|[->|[->|[->|[->|[->| ->]]]]]]]]; lia.
Qed.

Lemma prize_sum_range pf pb (tickets : list ticket) :
  5 * Z.of_nat (length (omap (ticket_detail pf pb) tickets))
  ≤ Zsum (ticket_prize pf pb <$> tickets)
  ≤ 10000000 * Z.of_nat (length (omap (ticket_detail pf pb) tickets))
  ∧ (length (omap (ticket_detail pf pb) tickets) ≤ length tickets)%nat.
Proof.
  induction tickets as [|t tickets IH]; [simpl; lia|].
  pose proof (ticket_prize_range pf pb t) as Ht.
  cbn [omap list_omap fmap list_fmap Zsum foldr length].
  fold (Zsum (ticket_prize pf pb <$> tickets)).
  fold (omap (ticket_detail pf pb) tickets).
  destruct (ticket_detail pf pb t); cbn [length]; lia.
Qed.

Lemma calculate_prize_zero_iff (tickets : list ticket) (pf pb : list Z) :
  0 ≤ (calculate_prize tickets pf pb).1.1
  ∧ ((calculate_prize tickets pf pb).1.1 = 0
     ↔ (calculate_prize tickets pf pb).2 = []).
Proof.
  destruct (calculate_prize_components pf pb tickets) as (bd & -> & _ & _).
  cbn [fst snd].
  pose proof (prize_sum_range pf pb tickets) as [Hsum _].
  destruct (omap (ticket_detail pf pb) tickets) as [|w ws].
  - simpl in Hsum. split; [lia|]. split; [done|lia].
  - cbn [length] in Hsum. split; [lia|]. split; [lia|done].
Qed.

(** X5 (calculate_prize, lines 253-293): the total is between 5 and
    10,000,000 yuan for each winning ticket, so it is zero exactly when the
    list of winning tickets is empty (the test [rec_prize > 0] of
    [manage_report] decides whether winners are listed); there are no more
    winners than tickets; every winner carries a tier from 1 to 9. *)
Theorem calculate_prize_total_bounds (tickets : list ticket) (pf pb : list Z) :
  5 * Z.of_nat (length (calculate_prize tickets pf pb).2)
    ≤ (calculate_prize tickets pf pb).1.1
    ≤ 10000000 * Z.of_nat (length (calculate_prize tickets pf pb).2)
  ∧ ((calculate_prize tickets pf pb).1.1 = 0
     ↔ (calculate_prize tickets pf pb).2 = [])
  ∧ (0 < (calculate_prize tickets pf pb).1.1
     ↔ (calculate_prize tickets pf pb).2 ≠ [])
  ∧ (length (calculate_prize tickets pf pb).2 ≤ length tickets)%nat
  ∧ (∀ w, w ∈ (calculate_prize tickets pf pb).2 → (1 ≤ wd_level w ≤ 9)%nat).
Proof.
  destruct (calculate_prize_components pf pb tickets) as (bd & -> & _ & _).
  cbn [fst snd].
  pose proof (prize_sum_range pf pb tickets) as [Hsum Hlen].
  destruct (omap (ticket_detail pf pb) tickets) as [|w ws] eqn:Hw.
  - simpl in Hsum. split; [simpl; lia|]. split; [split; [done|lia]|].
    split; [split; [lia|done]|]. split; [simpl; lia|].
    intros w Hin. by apply elem_of_nil in Hin.
  - cbn [length] in Hsum, Hlen. split; [cbn [length]; lia|].
    split; [split; [lia|done]|]. split; [split; [done|lia]|].
    split; [cbn [length]; lia|].
    intros w' Hin. rewrite <- Hw in Hin.
    apply list_elem_of_omap in Hin as (t & _ & Ht).
    unfold ticket_detail in Ht.
    destruct (ticket_level pf pb t) as [lv|] eqn:Hlv; [|done].
    simpl in Ht. injection Ht as <-. simpl. by eapply level_of_range.
Qed.

(** ** Hit counts *)

Lemma hits_proper (nums nums' prize prize' : list Z) :
  (∀ x, x ∈ nums ↔ x ∈ nums') → (∀ x, x ∈ prize ↔ x ∈ prize') →
  hits nums prize = hits nums' prize'.
Proof.
  intros Hn Hp. unfold hits. f_equal. apply set_eq. intros x.
  rewrite !elem_of_intersection, !elem_of_list_to_set. by rewrite Hn, Hp.
Qed.

Lemma size_list_to_set_le (l : list Z) :
  (size (list_to_set l : gset Z) ≤ length l)%nat.
Proof.
  induction l as [|x l IH].
  - rewrite list_to_set_nil, size_empty. simpl. lia.
  - rewrite list_to_set_cons, size_union_alt, size_singleton. cbn [length].
    assert ((list_to_set l : gset Z) ∖ {[x]} ⊆ list_to_set l) as Hsub
      by (by apply subseteq_difference_l).
    apply subseteq_size in Hsub. lia.
Qed.

Lemma size_list_to_set_NoDup (l : list Z) :
  size (list_to_set l : gset Z) = length l → NoDup l.
Proof.
  induction l as [|x l IH]; [constructor|].
  rewrite list_to_set_cons. cbn [length]. intros Hs.
  pose proof (size_list_to_set_le l) as Hle.
  destruct (decide (x ∈ l)) as [Hx|Hx].
  - assert ({[x]} ∪ (list_to_set l : gset Z) = list_to_set l) as Heq.
    { apply subseteq_union_1_L, singleton_subseteq_l. by apply elem_of_list_to_set. }
    rewrite Heq in Hs. lia.
  - constructor; [done|]. apply IH.
    rewrite size_union in Hs
      by (apply disjoint_singleton_l; by rewrite elem_of_list_to_set).
    rewrite size_singleton in Hs. lia.
Qed.

Lemma hits_le (nums prize : list Z) :
  (hits nums prize ≤ length nums)%nat ∧ (hits nums prize ≤ length prize)%nat.
Proof.
  unfold hits. split.
  - etrans; [|apply size_list_to_set_le].
    apply subseteq_size, intersection_subseteq_l.
  - etrans; [|apply size_list_to_set_le].
    apply subseteq_size, intersection_subseteq_r.
Qed.

Lemma hits_full (nums prize : list Z) :
  length nums = length prize →
  hits nums prize = length prize ↔ NoDup prize ∧ nums ≡ₚ prize.
Proof.
  intros Hlen. split.
  - intros Hh. unfold hits in Hh.
    pose proof (size_list_to_set_le nums) as Hn.
    pose proof (size_list_to_set_le prize) as Hp.
    assert ((list_to_set nums : gset Z) ∩ list_to_set prize ⊆ list_to_set nums)
      as Hsub1 by apply intersection_subseteq_l.
    assert ((list_to_set nums : gset Z) ∩ list_to_set prize ⊆ list_to_set prize)
      as Hsub2 by apply intersection_subseteq_r.
    pose proof (subseteq_size _ _ Hsub1) as Hs1.
    pose proof (subseteq_size _ _ Hsub2) as Hs2.
    assert (NoDup nums) as Hnd1 by (apply size_list_to_set_NoDup; lia).
    assert (NoDup prize) as Hnd2 by (apply size_list_to_set_NoDup; lia).
    split; [done|]. apply NoDup_Permutation; [done..|].
    assert ((list_to_set nums : gset Z) ∩ list_to_set prize = list_to_set nums)
      as He1 by (apply set_subseteq_size_eq; [done|lia]).
    assert ((list_to_set nums : gset Z) ∩ list_to_set prize = list_to_set prize)
      as He2 by (apply set_subseteq_size_eq; [done|lia]).
    intros x. rewrite <- !(elem_of_list_to_set (C := gset Z)).
    by rewrite <- He1, He2 at 1.
  - intros [Hnd Hperm]. unfold hits.
    assert ((list_to_set nums : gset Z) = list_to_set prize) as ->.
    { apply set_eq. intros x. rewrite !elem_of_list_to_set. by rewrite Hperm. }
    assert ((list_to_set prize : gset Z) ∩ list_to_set prize = list_to_set prize)
      as -> by apply (idemp_L (∩)).
    by apply size_list_to_set.
Qed.

Lemma level_of_first (fh bh : nat) :
  level_of fh bh = Some 1%nat ↔ fh = 5%nat ∧ bh = 2%nat.
Proof.
  unfold level_of. split.
  - repeat match goal with
      | |- context [(?a =? ?b)%nat] => destruct (Nat.eqb_spec a b)
      end; simpl; intros; try discriminate; try lia.
  - intros [-> ->]. done.
Qed.

(** X6 (calculate_prize, lines 253-293): the tier of a ticket depends on
    the sets of numbers only: two tickets with the same numbers and two
    draws with the same numbers, in any order and with any repetition, give
    the same tier.  The hit counts are at most the number of numbers on
    each side. *)
Theorem ticket_level_same_numbers (pf pb pf' pb' : list Z) (t t' : ticket) :
  (∀ x, x ∈ t.1 ↔ x ∈ t'.1) → (∀ x, x ∈ t.2 ↔ x ∈ t'.2) →
  (∀ x, x ∈ pf ↔ x ∈ pf') → (∀ x, x ∈ pb ↔ x ∈ pb') →
  ticket_level pf pb t = ticket_level pf' pb' t'
  ∧ (hits t.1 pf ≤ length t.1)%nat ∧ (hits t.1 pf ≤ length pf)%nat
  ∧ (hits t.2 pb ≤ length t.2)%nat ∧ (hits t.2 pb ≤ length pb)%nat.
Proof.
  intros H1 H2 H3 H4.
  destruct (hits_le t.1 pf) as [? ?]. destruct (hits_le t.2 pb) as [? ?].
  split; [|done]. unfold ticket_level.
  by rewrite (hits_proper t.1 t'.1 pf pf'), (hits_proper t.2 t'.2 pb pb').
Qed.

Lemma ticket_level_same_numbers_witness :
  ticket_level [5; 4; 3; 2; 1] [7; 6] ([1; 2; 3; 9; 9], [6; 6])
  = ticket_level [1; 2; 3; 4; 5] [6; 7] ([9; 3; 2; 1], [6]).
Proof.
  apply (ticket_level_same_numbers [5; 4; 3; 2; 1] [7; 6] [1; 2; 3; 4; 5] [6; 7]
           ([1; 2; 3; 9; 9], [6; 6]) ([9; 3; 2; 1], [6]));
    intros x; cbn [fst snd]; rewrite !elem_of_cons, !elem_of_nil; tauto.
Defined.

Lemma ticket_level_first (pf pb f b : list Z) :
  length pf = 5%nat → length pb = 2%nat →
  length f = 5%nat → length b = 2%nat →
  ticket_level pf pb (f, b) = Some 1%nat
  ↔ NoDup pf ∧ NoDup pb ∧ f ≡ₚ pf ∧ b ≡ₚ pb.
Proof.
  intros Hpf Hpb Hf Hb. unfold ticket_level. cbn [fst snd].
  rewrite level_of_first.
  rewrite <- Hpf at 1. rewrite <- Hpb at 1.
  rewrite !hits_full by lia. tauto.
Qed.

(** X7 (calculate_prize, lines 253-293): against a draw of five front and
    two back numbers, a ticket of five and two numbers gets the first tier
    exactly when the numbers of the draw are distinct and the ticket holds
    the same numbers, in any order. *)
Theorem calculate_prize_first_tier (pf pb f b : list Z) :
  length pf = 5%nat → length pb = 2%nat →
  length f = 5%nat → length b = 2%nat →
  ((calculate_prize [(f, b)] pf pb).2 = [WinningDetail f b 1]
   ↔ NoDup pf ∧ NoDup pb ∧ f ≡ₚ pf ∧ b ≡ₚ pb).
Proof.
  intros Hpf Hpb Hf Hb.
  rewrite <- (ticket_level_first pf pb f b) by done.
  destruct (calculate_prize_components pf pb [(f, b)]) as (bd & -> & _ & _).
  cbn [snd omap list_omap]. unfold ticket_detail.
  destruct (ticket_level pf pb (f, b)) as [lv|]; simpl.
  - split; [by intros [= ->] | by intros [= ->]].
  - split; discriminate.
Qed.

Lemma calculate_prize_first_tier_witness :
  (calculate_prize [([5; 4; 3; 2; 1], [7; 6])] [1; 2; 3; 4; 5] [6; 7]).2
  = [WinningDetail [5; 4; 3; 2; 1] [7; 6] 1].
Proof.
  apply (calculate_prize_first_tier [1; 2; 3; 4; 5] [6; 7] [5; 4; 3; 2; 1] [7; 6]);
    try reflexivity.
  split; [|split; [|split]].
  - apply (bool_decide_unpack (NoDup [1; 2; 3; 4; 5])). vm_compute. exact I.
  - apply (bool_decide_unpack (NoDup [6; 7])). vm_compute. exact I.
  - exact (Permutation_rev [5; 4; 3; 2; 1]).
  - exact (Permutation_rev [7; 6]).
Defined.

(** ** What [get_period_data_from_csv] returns *)

(** The loop leaves alone the periods that no row stores. *)
Lemma csv_loop_keeps (p : list ascii) (rows : list row) :
  ∀ (k : nat) (pm : gmap (list ascii) draw) (pl : list (list ascii))
    (log : list log_entry),
    (∀ r, r ∈ rows → stored_period r ≠ Some p) →
    (foldl csv_step (pm, pl, log) (zip (seq k (length rows)) rows)).1.1 !! p
    = pm !! p.
Proof.
  induction rows as [|r rows IH]; intros k pm pl log Hrows; [done|].
  cbn [length seq zip zip_with foldl]. unfold csv_step at 2. cbn [fst snd].
  assert (stored_period r ≠ Some p) as Hr by (apply Hrows; left).
  assert (∀ r', r' ∈ rows → stored_period r' ≠ Some p) as Hrows'
    by (intros r' Hr'; apply Hrows; by right).
  unfold stored_period in Hr.
  destruct (read_row r) as [| | |p0 d0 f0 b0]; rewrite IH by done; try done.
  apply lookup_insert_ne. congruence.
Qed.

Lemma zip_seq_app {A} (k : nat) (l1 l2 : list A) :
  zip (seq k (length (l1 ++ l2))) (l1 ++ l2)
  = zip (seq k (length l1)) l1 ++ zip (seq (k + length l1) (length l2)) l2.
Proof.
  rewrite length_app, seq_app. apply zip_with_app. by rewrite length_seq.
Qed.

(** The map the loop builds holds, for a period, the draw of the last row
    that stores it. *)
Lemma csv_loop_last_row (rows1 rows2 : list row) (r : row)
    (p d : list ascii) (f b : list Z) :
  read_row r = RowStored p d f b →
  (∀ r', r' ∈ rows2 → stored_period r' ≠ Some p) →
  (csv_loop (rows1 ++ r :: rows2)).1.1 !! p = Some (Draw d f b).
Proof.
  intros Hr Hrows2. unfold csv_loop. rewrite zip_seq_app, foldl_app.
  destruct (foldl csv_step (∅, [], []) (zip (seq 0 (length rows1)) rows1))
    as [[pm1 pl1] log1].
  cbn [length seq zip zip_with foldl]. unfold csv_step at 2. cbn [fst snd].
  rewrite Hr, csv_loop_keeps by done. apply lookup_insert_eq.
Qed.

Lemma returned_csv_loop (csv_content : list ascii)
    (pm : gmap (list ascii) draw) (periods : list (list ascii)) :
  (get_period_data_from_csv csv_content).1 = Returned (Some (pm, periods)) →
  csv_content ≠ []
  ∧ pm = (csv_loop (data_rows csv_content)).1.1
  ∧ pm ≠ ∅
  ∧ sorted_by_int (omap stored_period (data_rows csv_content)) = Some periods
  ∧ (∀ p dr, pm !! p = Some dr →
       ∃ r, r ∈ data_rows csv_content
            ∧ read_row r
              = RowStored p (draw_date dr) (draw_front dr) (draw_back dr))
  ∧ (∀ r p d f b, r ∈ data_rows csv_content →
       read_row r = RowStored p d f b → is_Some (pm !! p)).
Proof.
  intros Hret.
  assert (csv_content ≠ []) as Hne by (by intros ->).
  destruct (get_period_data_from_csv_unfold csv_content Hne)
    as (pm0 & periods0 & Hloop & Hsort & H1 & H2 & Hget).
  rewrite Hget in Hret. destruct (reader_raises csv_content); [done|].
  destruct (decide (pm0 = ∅)) as [|Hpm]; [done|].
  cbn [fst] in Hret. injection Hret as <- <-.
  rewrite Hloop. done.
Qed.

Lemma elem_of_stored_periods (rows : list row) (p : list ascii) :
  p ∈ omap stored_period rows
  ↔ ∃ r d f b, r ∈ rows ∧ read_row r = RowStored p d f b.
Proof.
  rewrite list_elem_of_omap. unfold stored_period. split.
  - intros (r & Hr & Hs). destruct (read_row r) as [| | |p0 d0 f0 b0] eqn:Er;
      try done. injection Hs as ->. by exists r, d0, f0, b0.
  - intros (r & d & f & b & Hr & Hs). exists r. by rewrite Hs.
Qed.

Lemma returned_keys (csv_content : list ascii)
    (pm : gmap (list ascii) draw) (periods : list (list ascii)) :
  (get_period_data_from_csv csv_content).1 = Returned (Some (pm, periods)) →
  ∀ p, p ∈ periods ↔ is_Some (pm !! p).
Proof.
  intros (Hne & Hpm & Hnon & Hsort & H1 & H2)%returned_csv_loop.
  apply sorted_by_int_spec in Hsort as (Hperm & _ & _).
  intros p. rewrite Hperm, elem_of_stored_periods. split.
  - intros (r & d & f & b & Hr & Hs). by eapply H2.
  - intros [dr Hdr]. destruct (H1 p dr Hdr) as (r & Hr & Hs). eauto 6.
Qed.

(** X8 (get_period_data_from_csv, lines 93-133): when the call returns a
    map and a list, the list is not empty, its elements are exactly the
    keys of the map (so [period_map[p]] cannot fail for a period of the
    list), and [int] accepts every one of them. *)
Theorem get_period_data_from_csv_keys (csv_content : list ascii)
    (pm : gmap (list ascii) draw) (periods : list (list ascii)) :
  (get_period_data_from_csv csv_content).1 = Returned (Some (pm, periods)) →
  periods ≠ []
  ∧ (∀ p, p ∈ periods ↔ is_Some (pm !! p))
  ∧ dom pm = list_to_set periods
  ∧ Forall (λ p, is_Some (py_int p)) periods.
Proof.
  intros Hret. pose proof (returned_keys _ _ _ Hret) as Hkeys.
  apply returned_csv_loop in Hret as (Hne & Hpm & Hnon & Hsort & H1 & H2).
  apply sorted_by_int_spec in Hsort as (Hperm & _ & _).
  split; [|split; [done|split]].
  - intros ->. apply Hnon, map_empty. intros p.
    apply eq_None_not_Some. rewrite <- Hkeys. apply not_elem_of_nil.
  - apply set_eq. intros p.
    by rewrite elem_of_dom, elem_of_list_to_set, Hkeys.
  - apply Forall_forall. intros p Hp. rewrite Hperm in Hp.
    apply list_elem_of_omap in Hp as (r & _ & Hs).
    by eapply stored_period_numeral.
Qed.

(** X9 (get_period_data_from_csv, lines 93-133): the call returns
    (None, None) exactly when the reader raises at some row (a field of
    more than 131072 characters; a NUL character before Python 3.11) or no
    row read after the header passes the checks; an empty content is a
    case of the second.  So one row that the reader cannot read makes the
    call drop every valid row before it. *)
Theorem get_period_data_from_csv_none (csv_content : list ascii) :
  ((get_period_data_from_csv csv_content).1 = Returned None
   ↔ reader_raises csv_content = true
     ∨ omap stored_period (data_rows csv_content) = [])
  ∧ (reader_raises csv_content = true
     ↔ ∃ r field,
         r ∈ csv_records RecordStart [] [] (splitlines csv_content)
         ∧ field ∈ r
         ∧ (field_size_limit < char_count field
            ∨ (nul_raises py = true ∧ ∃ c, c ∈ field ∧ chr_code c = 0%nat)))
  ∧ (csv_content = [] → omap stored_period (data_rows csv_content) = []).
Proof.
  split; [|split].
  - destruct (get_period_data_from_csv_cases csv_content)
      as [[Hr Hnone]|[(Hr & Hnil & Hnone)|(Hr & Hsome & pm & pl & Hret)]].
    + split; [by left|done].
    + split; [by right|done].
    + split; [congruence|]. intros [?|?]; congruence.
  - destruct (csv_reader_rows csv_content)
      as (rest & Hrows & Hok & Hdone & Hraise). split.
    + intros Hr. destruct (Hraise Hr) as (r & rest' & -> & Hbad).
      apply row_readable_false in Hbad as (field & Hf & Hbad).
      exists r, field. split; [|done].
      rewrite Hrows, elem_of_app. right. left.
    + intros (r & field & Hr & Hf & Hbad).
      destruct (reader_raises csv_content) eqn:E; [done|]. exfalso.
      rewrite Hrows, (Hdone eq_refl), app_nil_r in Hr.
      assert (row_readable r = true) as Hread
        by (by eapply Forall_forall in Hok).
      assert (row_readable r = false) as Hunread
        by (apply row_readable_false; by exists field).
      congruence.
  - by intros ->.
Qed.

(** X10 (get_period_data_from_csv, lines 93-133): when a period has
    several valid rows, the map holds the draw of the last of them (the
    period list holds the period once for each row). *)
Theorem get_period_data_from_csv_last_row_wins (csv_content : list ascii)
    (pm : gmap (list ascii) draw) (rows1 rows2 : list row) (r : row)
    (p d : list ascii) (f b : list Z) :
  returned_map (get_period_data_from_csv csv_content) = Some pm →
  data_rows csv_content = rows1 ++ r :: rows2 →
  read_row r = RowStored p d f b →
  (∀ r', r' ∈ rows2 → stored_period r' ≠ Some p) →
  pm !! p = Some (Draw d f b).
Proof.
  intros Hret Hrows Hr Hrows2. unfold returned_map in Hret.
  destruct (get_period_data_from_csv csv_content).1 as [[[pm0 pl]|]|] eqn:E;
    try done.
  injection Hret as ->.
  apply returned_csv_loop in E as (_ & -> & _).
  rewrite Hrows. by apply csv_loop_last_row.
Qed.

(** ** The order of the candidates of [find_matching_report] *)

Lemma lex_compare_Eq (a b : list Z) : lex_compare a b = Eq → a = b.
Proof.
  revert b. induction a as [|x a IH]; intros [|y b]; simpl; try done.
  destruct (Z.compare_spec x y) as [->| |]; try done.
  intros H. f_equal. by apply IH.
Qed.

Lemma lex_leb_antisym (a b : list Z) :
  lex_leb a b = true → lex_leb b a = true → a = b.
Proof.
  unfold lex_leb. rewrite (lex_compare_antisym a b).
  destruct (lex_compare a b) eqn:E; simpl; try done.
  intros _ _. by apply lex_compare_Eq.
Qed.

Lemma lex_compare_app (a x y : list Z) :
  lex_compare (a ++ x) (a ++ y) = lex_compare x y.
Proof. induction a as [|z a IH]; simpl; [done|]. by rewrite Z.compare_refl. Qed.

Lemma codes_inj (s1 s2 : list ascii) : codes s1 = codes s2 → s1 = s2.
Proof.
  unfold codes. revert s2. induction s1 as [|c s1 IH]; intros [|c' s2]; simpl;
    try done.
  intros [= Hc Hs]. f_equal; [|by apply IH].
  apply Nat2Z.inj in Hc. unfold chr_code in Hc.
  rewrite <- (ascii_nat_embedding c), <- (ascii_nat_embedding c'). by rewrite Hc.
Qed.

Lemma candidate_leb_antisym (c1 c2 : candidate) :
  candidate_leb c1 c2 = true → candidate_leb c2 c1 = true → c1 = c2.
Proof.
  unfold candidate_leb. intros H1 H2.
  pose proof (lex_leb_antisym _ _ H1 H2) as Heq.
  apply app_inj_1 in Heq as [Hf Hc]; [|done].
  destruct c1 as [[y1 m1 d1 h1 n1 s1] p1], c2 as [[y2 m2 d2 h2 n2 s2] p2].
  cbn [fst snd] in *. unfold datetime_fields in Hf. simpl in Hf.
  injection Hf as -> -> -> -> -> ->. apply codes_inj in Hc. by subst.
Qed.

(** The head of the sorted candidates is the same for every order of the
    candidates. *)
Lemma sort_desc_head_perm (l l' : list candidate) :
  l ≡ₚ l' → head (sort_desc l) = head (sort_desc l').
Proof.
  intros Hperm.
  pose proof (sort_desc_head l) as H. pose proof (sort_desc_head l') as H'.
  destruct (sort_desc l) as [|h t], (sort_desc l') as [|h' t']; simpl.
  - done.
  - subst l. apply Permutation_nil_l in Hperm. subst l'.
    destruct H' as [H' _]. by apply elem_of_nil in H'.
  - subst l'. apply Permutation_nil_r in Hperm. subst l.
    destruct H as [H _]. by apply elem_of_nil in H.
  - destruct H as [Hin Hmax], H' as [Hin' Hmax']. f_equal.
    apply candidate_leb_antisym.
    + apply Hmax'. by rewrite <- Hperm.
    + apply Hmax. by rewrite Hperm.
Qed.

(** X11 (find_matching_report, lines 135-172): the result does not depend
    on the order in which [glob] lists the files: two listings of the same
    files give the same report. *)
Theorem find_matching_report_any_order
    (files files' : list (list ascii * option (list ascii)))
    (target_period : list ascii) :
  files ≡ₚ files' →
  find_matching_report files target_period
  = find_matching_report files' target_period.
Proof.
  intros Hperm. unfold find_matching_report.
  assert (omap (candidate_of target_period) files
          ≡ₚ omap (candidate_of target_period) files') as Hc
    by (by rewrite Hperm).
  apply sort_desc_head_perm in Hc.
  destruct (sort_desc (omap (candidate_of target_period) files)),
           (sort_desc (omap (candidate_of target_period) files'));
    simpl in Hc; congruence.
Qed.

Lemma find_matching_report_any_order_witness :
  find_matching_report (rev sample_files) (str "2024001")
  = find_matching_report sample_files (str "2024001").
Proof.
  apply find_matching_report_any_order. symmetry. apply Permutation_rev.
Defined.

(** X12 (find_matching_report, lines 135-172): the tuples are sorted on the
    timestamp first and on the path second, so among the candidates that
    carry the latest timestamp the call returns the path that is greatest
    in the order of strings; a candidate with the same timestamp and the
    same path is the same file. *)
Theorem find_matching_report_tie_break
    (files : list (list ascii * option (list ascii)))
    (target_period path : list ascii) :
  find_matching_report files target_period = Some path →
  ∃ ts oc,
    (path, oc) ∈ files
    ∧ candidate_of target_period (path, oc) = Some (ts, path)
    ∧ ∀ path' oc' ts',
        (path', oc') ∈ files →
        candidate_of target_period (path', oc') = Some (ts', path') →
        datetime_leb ts' ts = true
        ∧ (ts' = ts → lex_leb (codes path') (codes path) = true)
        ∧ (datetime_leb ts ts' = true → ts' = ts).
Proof.
  unfold find_matching_report. intros Hfind.
  pose proof (sort_desc_head (omap (candidate_of target_period) files)) as H.
  destruct (sort_desc (omap (candidate_of target_period) files))
    as [|[ts p] t]; [done|].
  injection Hfind as <-. destruct H as [Hin Hmax]. cbn [snd].
  apply list_elem_of_omap in Hin as ([p0 oc] & Hin & Hc).
  assert (p0 = p) as ->.
  { unfold candidate_of in Hc. cbn [fst snd] in Hc.
    destruct oc as [[|c content]|]; try done.
    destruct (declared_period (c :: content)); [|done].
    case_decide; [|done]. destruct (file_timestamp p0); [|done].
    by injection Hc as _ ->. }
  exists ts, oc. split; [done|]. split; [done|].
  intros path' oc' ts' Hin' Hc'.
  assert (candidate_leb (ts', path') (ts, p) = true) as Hle.
  { apply Hmax. apply list_elem_of_omap. by exists (path', oc'). }
  split; [by apply (candidate_leb_timestamp (ts', path') (ts, p))|]. split.
  - intros ->. unfold candidate_leb, lex_leb in Hle. cbn [fst snd] in Hle.
    by rewrite lex_compare_app in Hle.
  - intros Hge. apply candidate_leb_timestamp in Hle. cbn [fst snd] in Hle.
    unfold datetime_leb in *.
    pose proof (lex_leb_antisym _ _ Hle Hge) as Heq.
    destruct ts as [y1 m1 d1 h1 n1 s1], ts' as [y2 m2 d2 h2 n2 s2].
    unfold datetime_fields in Heq. simpl in Heq. by injection Heq as -> -> -> -> -> ->.
Qed.

Lemma find_matching_report_tie_break_witness :
  ∃ ts oc,
    (str "/r/dlt_analysis_output_20240116_080000.txt", oc) ∈ sample_files
    ∧ candidate_of (str "2024001")
        (str "/r/dlt_analysis_output_20240116_080000.txt", oc)
      = Some (ts, str "/r/dlt_analysis_output_20240116_080000.txt").
Proof.
  assert (find_matching_report sample_files (str "2024001")
          = Some (str "/r/dlt_analysis_output_20240116_080000.txt")) as Hfind
    by (vm_compute; reflexivity).
  destruct (find_matching_report_tie_break sample_files (str "2024001") _ Hfind)
    as (ts & oc & Hin & Hc & _).
  exists ts, oc. split; [exact Hin | exact Hc].
Defined.

(** ** [main_process] *)

Lemma get_period_data_from_csv_returns (csv_content : list ascii) :
  (get_period_data_from_csv csv_content).1 ≠ Raised.
Proof.
  destruct csv_content as [|c s]; [done|].
  destruct (get_period_data_from_csv_unfold (c :: s))
    as (pm & periods & _ & _ & _ & _ & ->); [done|].
  destruct (reader_raises (c :: s)); [done|]. by destruct (decide (pm = ∅)).
Qed.

Lemma index_from_end_split {A} (l : list A) :
  (2 ≤ length l)%nat →
  ∃ c e, index_from_end l 1 = Some e ∧ index_from_end l 2 = Some c
         ∧ l = take (length l - 2) l ++ [c; e].
Proof.
  intros Hlen. unfold index_from_end.
  destruct (Nat.ltb_spec (length l) 1) as [|_]; [lia|].
  destruct (Nat.ltb_spec (length l) 2) as [|_]; [lia|].
  pose proof (take_drop (length l - 2) l) as Hsplit.
  pose proof (length_drop l (length l - 2)) as Hd.
  destruct (drop (length l - 2) l) as [|c [|e [|x tl]]] eqn:E;
    simpl in Hd; try lia.
  exists c, e.
  assert (l !! (length l - 2)%nat = Some c) as Hc.
  { rewrite <- (Nat.add_0_r (length l - 2)), <- lookup_drop. by rewrite E. }
  assert (l !! (length l - 1)%nat = Some e) as He.
  { replace (length l - 1)%nat with (length l - 2 + 1)%nat by lia.
    rewrite <- lookup_drop. by rewrite E. }
  by rewrite Hc, He.
Qed.

Lemma last_snoc_call (l : list report_call) (c : report_call) :
  last (l ++ [c]) = Some c.
Proof. apply last_snoc. Qed.

(** The files [main_process] gives to [find_matching_report]. *)
Lemma elem_of_listed_files (read_file : list ascii → option (list ascii))
    (report_paths : list (list ascii)) (path : list ascii)
    (oc : option (list ascii)) :
  (path, oc) ∈ (λ p, (p, read_file p)) <$> report_paths →
  oc = read_file path.
Proof. intros (p & [= -> ->] & _)%list_elem_of_fmap. done. Qed.

(** What [find_matching_report] returns is a candidate. *)
Lemma find_matching_report_candidate
    (files : list (list ascii * option (list ascii)))
    (target_period path : list ascii) :
  find_matching_report files target_period = Some path →
  ∃ content, (path, Some content) ∈ files ∧ content ≠ []
             ∧ declared_period content = Some target_period
             ∧ is_Some (file_timestamp path).
Proof.
  unfold find_matching_report. intros Hfind.
  pose proof (sort_desc_head (omap (candidate_of target_period) files)) as H.
  destruct (sort_desc (omap (candidate_of target_period) files))
    as [|[ts p] t]; [done|].
  injection Hfind as <-. destruct H as [Hin _]. cbn [snd].
  apply list_elem_of_omap in Hin as ([p0 oc] & Hin & Hc).
  apply candidate_of_Some in Hc as (-> & content & -> & Hne & Hd & Ht).
  exists content. by rewrite Ht.
Qed.

(** The run that records an entry, step by step. *)
Lemma main_process_entry_inv (read_file : list ascii → option (list ascii))
    (report_paths : list (list ascii)) (e : report_entry) :
  recorded_entry (main_process read_file report_paths).2 = Some e →
  ∃ csv_content pm periods prize_data report_path report_content,
    read_file CSV_FILE = Some csv_content
    ∧ (get_period_data_from_csv csv_content).1 = Returned (Some (pm, periods))
    ∧ periods
      = take (length periods - 2) periods
        ++ [report_cutoff_period e; eval_period e]
    ∧ pm !! eval_period e = Some prize_data
    ∧ find_matching_report ((λ p, (p, read_file p)) <$> report_paths)
        (report_cutoff_period e) = Some report_path
    ∧ read_file report_path = Some report_content
    ∧ report_content ≠ []
    ∧ e = (let '(rec_tickets, complex_fronts, complex_backs) :=
             parse_recommendations_from_report report_content in
           let complex_tickets :=
             (generate_complex_tickets complex_fronts complex_backs).1 in
           let prize_front := draw_front prize_data in
           let prize_back := draw_back prize_data in
           let '(rec_prize, rec_bd, rec_winners) :=
             calculate_prize rec_tickets prize_front prize_back in
           let '(com_prize, com_bd, com_winners) :=
             calculate_prize complex_tickets prize_front prize_back in
           ReportEntry (eval_period e) (report_cutoff_period e)
             prize_front prize_back (rec_prize + com_prize)
             rec_prize (breakdown_items rec_bd) rec_winners
             com_prize (breakdown_items com_bd) com_winners)
    ∧ (main_process read_file report_paths).2
      = match (parse_recommendations_from_report report_content).1.1,
              (generate_complex_tickets
                 (parse_recommendations_from_report report_content).1.2
                 (parse_recommendations_from_report report_content).2).1 with
        | [], [] => [RecordError (no_bets_error report_path); RecordEntry e]
        | _, _ => [RecordEntry e]
        end.
Proof.
  unfold main_process.
  destruct (read_file CSV_FILE) as [[|c0 s0]|] eqn:Hcsv; try done.
  destruct (get_period_data_from_csv (c0 :: s0)).1 as [[[pm periods]|]|] eqn:Hget;
    try done.
  destruct (bool_decide (pm = ∅) || (length periods <? 2)%nat) eqn:Hguard;
    [done|].
  apply orb_false_elim in Hguard as [_ Hlen]. apply Nat.ltb_ge in Hlen.
  destruct (index_from_end_split periods Hlen) as (cutoff & ev & -> & -> & Hsplit).
  destruct (find_matching_report ((λ p, (p, read_file p)) <$> report_paths) cutoff)
    as [[|c1 s1]|] eqn:Hfind; try done.
  destruct (find_matching_report_candidate _ _ _ Hfind)
    as (content & Hin & Hne & _ & _).
  apply elem_of_listed_files in Hin. rewrite <- Hin.
  destruct content as [|c2 s2]; [done|].
  destruct (parse_recommendations_from_report (c2 :: s2))
    as [[rec_tickets complex_fronts] complex_backs] eqn:Hparse.
  cbn [fst snd].
  destruct (pm !! ev) as [prize_data|] eqn:Hpm; [|by destruct rec_tickets, (generate_complex_tickets complex_fronts complex_backs).1].
  destruct (calculate_prize rec_tickets (draw_front prize_data)
              (draw_back prize_data)) as [[rec_prize rec_bd] rec_winners] eqn:Hrec.
  destruct (calculate_prize (generate_complex_tickets complex_fronts complex_backs).1
              (draw_front prize_data) (draw_back prize_data))
    as [[com_prize com_bd] com_winners] eqn:Hcom.
  cbn [snd]. unfold recorded_entry. rewrite last_snoc_call. intros [= <-].
  cbn [eval_period report_cutoff_period].
  exists (c0 :: s0), pm, periods, prize_data, (c1 :: s1), (c2 :: s2).
  rewrite Hparse. cbn [fst snd]. rewrite Hrec, Hcom.
  repeat (split; [done|]).
  by destruct rec_tickets, (generate_complex_tickets complex_fronts complex_backs).1.
Qed.

(** The calls of a run. *)
Lemma main_process_calls (read_file : list ascii → option (list ascii))
    (report_paths : list (list ascii)) :
  (main_process read_file report_paths).1 = Returned ()
  ∧ ((main_process read_file report_paths).2 = [RecordError csv_unreadable_error]
     ∨ (main_process read_file report_paths).2
       = [RecordError csv_insufficient_error]
     ∨ (∃ csv_content pm periods cutoff,
          read_file CSV_FILE = Some csv_content
          ∧ (get_period_data_from_csv csv_content).1
            = Returned (Some (pm, periods))
          ∧ cutoff ∈ periods
          ∧ (main_process read_file report_paths).2
            = [RecordError (report_missing_error cutoff)])
     ∨ (∃ e, (main_process read_file report_paths).2 = [RecordEntry e])
     ∨ (∃ path e, path ∈ report_paths
                  ∧ (main_process read_file report_paths).2
                    = [RecordError (no_bets_error path); RecordEntry e])).
Proof.
  unfold main_process.
  destruct (read_file CSV_FILE) as [[|c0 s0]|] eqn:Hcsv;
    try (split; [done|by left]).
  pose proof (get_period_data_from_csv_returns (c0 :: s0)) as Hret.
  destruct (get_period_data_from_csv (c0 :: s0)).1 as [[[pm periods]|]|]
    eqn:Hget; [| split; [done|right; by left] | done].
  destruct (bool_decide (pm = ∅) || (length periods <? 2)%nat) eqn:Hguard;
    [split; [done|right; by left]|].
  apply orb_false_elim in Hguard as [_ Hlen]. apply Nat.ltb_ge in Hlen.
  destruct (index_from_end_split periods Hlen)
    as (cutoff & ev & -> & -> & Hsplit).
  destruct (find_matching_report
              ((λ p, (p, read_file p)) <$> report_paths) cutoff)
    as [[|c1 s1]|] eqn:Hfind;
    try (split; [done|right; right; left;
           exists (c0 :: s0), pm, periods, cutoff;
           repeat split; try done;
           rewrite Hsplit, elem_of_app, !elem_of_cons; tauto]).
  destruct (find_matching_report_candidate _ _ _ Hfind)
    as (content & Hin & Hne & _ & _).
  pose proof Hin as Hin'.
  apply elem_of_listed_files in Hin. rewrite <- Hin.
  destruct content as [|c2 s2]; [done|].
  destruct (parse_recommendations_from_report (c2 :: s2))
    as [[rec_tickets complex_fronts] complex_backs] eqn:Hparse.
  pose proof (returned_keys _ _ _ Hget) as Hkeys.
  assert (is_Some (pm !! ev)) as [prize_data ->].
  { apply Hkeys. rewrite Hsplit. rewrite elem_of_app, !elem_of_cons. tauto. }
  destruct (calculate_prize rec_tickets (draw_front prize_data)
              (draw_back prize_data)) as [[rec_prize rec_bd] rec_winners].
  destruct (calculate_prize
              (generate_complex_tickets complex_fronts complex_backs).1
              (draw_front prize_data) (draw_back prize_data))
    as [[com_prize com_bd] com_winners].
  cbn [fst snd]. split; [done|]. right. right. right.
  assert (c1 :: s1 ∈ report_paths) as Hpath.
  { apply list_elem_of_fmap in Hin' as (p & [= -> _] & Hp). done. }
  destruct rec_tickets,
           (generate_complex_tickets complex_fronts complex_backs).1;
    cbn [app]; eauto 6.
Qed.

(** X13 (main_process, lines 377-428): a run lets none of the exceptions
    of its own statements escape: [int] accepts every period the sort
    receives, the two indexed periods exist once the list has two elements,
    and the evaluated period is a key of the map.  It calls
    [manage_report] once with one of three
    error messages, or once with an entry, or twice: with the error that the
    report yields no bet and then, because that branch does not return,
    with an entry.  The error for a report that cannot be read is never
    recorded when the files do not change during the run, because
    [find_matching_report] has read the report before. *)
Theorem main_process_returns (read_file : list ascii → option (list ascii))
    (report_paths : list (list ascii)) :
  (main_process read_file report_paths).1 = Returned ()
  ∧ ((main_process read_file report_paths).2 = [RecordError csv_unreadable_error]
     ∨ (main_process read_file report_paths).2
       = [RecordError csv_insufficient_error]
     ∨ (∃ cutoff, (main_process read_file report_paths).2
                  = [RecordError (report_missing_error cutoff)])
     ∨ (∃ e, (main_process read_file report_paths).2 = [RecordEntry e])
     ∨ (∃ path e, (main_process read_file report_paths).2
                  = [RecordError (no_bets_error path); RecordEntry e]))
  ∧ (∀ path, RecordError (report_unreadable_error path)
             ∉ (main_process read_file report_paths).2).
Proof.
  destruct (main_process_calls read_file report_paths) as [Hret Hcalls].
  assert ((main_process read_file report_paths).2
          = [RecordError csv_unreadable_error]
          ∨ (main_process read_file report_paths).2
            = [RecordError csv_insufficient_error]
          ∨ (∃ cutoff, (main_process read_file report_paths).2
                       = [RecordError (report_missing_error cutoff)])
          ∨ (∃ e, (main_process read_file report_paths).2 = [RecordEntry e])
          ∨ (∃ path e, (main_process read_file report_paths).2
                       = [RecordError (no_bets_error path); RecordEntry e]))
    as Hshape.
  { destruct Hcalls as [H|[H|[(csv & pm & periods & cutoff & _ & _ & _ & H)
                             |[[e H]|(path & e & _ & H)]]]]; eauto 8. }
  split; [done|]. split; [done|]. intros path Hin.
  destruct Hshape as [H|[H|[[c H]|[[e H]|(p & e & H)]]]]; rewrite H in Hin;
    repeat (apply elem_of_cons in Hin as [Hin|Hin]);
    try (by apply elem_of_nil in Hin); try discriminate Hin;
    injection Hin as Hin;
    unfold report_unreadable_error, csv_unreadable_error, csv_insufficient_error,
      report_missing_error, no_bets_error in Hin;
    simpl in Hin; discriminate Hin.
Qed.

Lemma Forall_sorted (P : Z → Prop) (l : list Z) : Forall P l → Forall P (sorted l).
Proof. intros H. by rewrite (sorted_perm l). Qed.

(** X14 (main_process, lines 377-428): in a run that records an entry, the
    evaluated period and the cutoff period are the two last elements of the
    sorted periods of the draw file: no valid row has a period of greater
    value than the evaluated one, and none of the rows left has a period of
    greater value than the cutoff; the two periods differ when no period
    has two valid rows.  The winning numbers of the entry are
    those of a valid row of the evaluated period: five numbers from 1 to 35
    and two from 1 to 12, in ascending order. *)
Theorem main_process_entry_periods
    (read_file : list ascii → option (list ascii))
    (report_paths : list (list ascii)) (e : report_entry) :
  recorded_entry (main_process read_file report_paths).2 = Some e →
  ∃ csv_content rest date r,
    read_file CSV_FILE = Some csv_content
    ∧ omap stored_period (data_rows csv_content)
      ≡ₚ rest ++ [report_cutoff_period e; eval_period e]
    ∧ (∀ p, p ∈ rest ++ [report_cutoff_period e] →
         ∃ a b, py_int p = Some a ∧ py_int (eval_period e) = Some b ∧ a ≤ b)
    ∧ (∀ p, p ∈ rest →
         ∃ a b, py_int p = Some a ∧ py_int (report_cutoff_period e) = Some b
                ∧ a ≤ b)
    ∧ (NoDup (omap stored_period (data_rows csv_content)) →
       eval_period e ≠ report_cutoff_period e)
    ∧ r ∈ data_rows csv_content
    ∧ read_row r
      = RowStored (eval_period e) date (entry_prize_front e) (entry_prize_back e)
    ∧ length (entry_prize_front e) = 5%nat
    ∧ length (entry_prize_back e) = 2%nat
    ∧ Sorted Z.le (entry_prize_front e) ∧ Sorted Z.le (entry_prize_back e)
    ∧ Forall (λ x, 1 ≤ x ≤ 35) (entry_prize_front e)
    ∧ Forall (λ x, 1 ≤ x ≤ 12) (entry_prize_back e).
Proof.
  intros (csv_content & pm & periods & prize_data & report_path & report_content
          & Hcsv & Hget & Hsplit & Hpm & _ & _ & _ & He & _)%main_process_entry_inv.
  apply returned_csv_loop in Hget as (_ & _ & _ & Hsort & Hrows & _).
  apply sorted_by_int_spec in Hsort as (Hperm & Horder & _).
  destruct (Hrows _ _ Hpm) as (r & Hr & Hread).
  set (rest := take (length periods - 2) periods) in *.
  assert (entry_prize_front e = draw_front prize_data
          ∧ entry_prize_back e = draw_back prize_data) as [Hf Hb].
  { rewrite He.
    destruct (parse_recommendations_from_report report_content) as [[? ?] ?].
    cbn zeta.
    destruct (calculate_prize _ _ _) as [[? ?] ?].
    by destruct (calculate_prize _ _ _) as [[? ?] ?]. }
  exists csv_content, rest, (draw_date prize_data), r.
  rewrite Hf, Hb. split; [done|]. split; [by rewrite <- Hperm, <- Hsplit|].
  assert (periods !! length rest = Some (report_cutoff_period e)) as Hc.
  { rewrite Hsplit. apply list_lookup_middle. done. }
  assert (periods !! S (length rest) = Some (eval_period e)) as Hev.
  { rewrite Hsplit. rewrite lookup_app_r by lia.
    by replace (S (length rest) - length rest)%nat with 1%nat by lia. }
  assert (∀ p, p ∈ rest → ∃ i, (i < length rest)%nat ∧ periods !! i = Some p)
    as Hrest.
  { intros p (i & Hi)%list_elem_of_lookup_1. exists i.
    split; [by eapply lookup_lt_Some|].
    rewrite Hsplit. by apply lookup_app_l_Some. }
  split; [|split; [|split; [|split; [done|split; [done|]]]]].
  - intros p [Hp|Hp]%elem_of_app.
    + destruct (Hrest p Hp) as (i & Hi & Hpi).
      apply (Horder i (S (length rest)) p (eval_period e)); [done..|lia].
    + apply list_elem_of_singleton in Hp as ->.
      apply (Horder (length rest) (S (length rest))); [done..|lia].
  - intros p Hp. destruct (Hrest p Hp) as (i & Hi & Hpi).
    by apply (Horder i (length rest) p (report_cutoff_period e)).
  - intros Hnd Heq. rewrite <- Hperm, Hsplit in Hnd.
    apply NoDup_app in Hnd as (_ & _ & Hnd).
    apply NoDup_cons in Hnd as [Hnotin _]. apply Hnotin.
    rewrite Heq. left.
  - apply read_row_stored in Hread
      as (red & blue & tl & fs & bs & _ & _ & _ & Hlf & Hrf & _ & Hlb & Hrb
          & -> & ->).
    rewrite !length_sorted.
    repeat split; try done; try apply sorted_Sorted; by apply Forall_sorted.
Qed.

(** X15 (main_process, lines 377-428): in a run that records an entry, the
    report scored is the one [find_matching_report] returns for the cutoff
    period, and its content declares that period; the two parts of the
    entry are the scores of the discrete tickets and of the expanded pools
    against the winning numbers of the entry; the total of the entry is the
    sum of the two and the score of all the tickets together; it is zero
    exactly when neither part has a winner; and the error that the report
    yielded no bet was recorded before the entry exactly when both lists of
    tickets are empty, in which case the total is zero. *)
Theorem main_process_entry_scores
    (read_file : list ascii → option (list ascii))
    (report_paths : list (list ascii)) (e : report_entry) :
  recorded_entry (main_process read_file report_paths).2 = Some e →
  ∃ report_path report_content rec_bd com_bd,
    find_matching_report ((λ p, (p, read_file p)) <$> report_paths)
      (report_cutoff_period e) = Some report_path
    ∧ read_file report_path = Some report_content
    ∧ declared_period report_content = Some (report_cutoff_period e)
    ∧ score_report report_content (entry_prize_front e) (entry_prize_back e)
      = ((rec_prize e, rec_bd, rec_winners e), (com_prize e, com_bd, com_winners e))
    ∧ rec_breakdown e = breakdown_items rec_bd
    ∧ com_breakdown e = breakdown_items com_bd
    ∧ entry_total_prize e = rec_prize e + com_prize e
    ∧ entry_total_prize e
      = (calculate_prize
           ((parse_recommendations_from_report report_content).1.1
            ++ (generate_complex_tickets
                  (parse_recommendations_from_report report_content).1.2
                  (parse_recommendations_from_report report_content).2).1)
           (entry_prize_front e) (entry_prize_back e)).1.1
    ∧ (entry_total_prize e = 0 ↔ rec_winners e = [] ∧ com_winners e = [])
    ∧ ((main_process read_file report_paths).2
       = [RecordError (no_bets_error report_path); RecordEntry e]
       ↔ (parse_recommendations_from_report report_content).1.1 = []
         ∧ (generate_complex_tickets
              (parse_recommendations_from_report report_content).1.2
              (parse_recommendations_from_report report_content).2).1 = [])
    ∧ ((main_process read_file report_paths).2
       = [RecordError (no_bets_error report_path); RecordEntry e] →
       entry_total_prize e = 0).
Proof.
  intros (csv_content & pm & periods & prize_data & report_path & report_content
          & _ & _ & _ & _ & Hfind & Hread & _ & He & Hcalls)%main_process_entry_inv.
  destruct (find_matching_report_candidate _ _ _ Hfind)
    as (content & Hin & _ & Hdecl & _).
  apply elem_of_listed_files in Hin. rewrite Hread in Hin.
  injection Hin as ->.
  rewrite Hcalls. clear Hcalls. unfold score_report.
  destruct (parse_recommendations_from_report report_content)
    as [[rec_tickets complex_fronts] complex_backs] eqn:Hparse.
  cbn [fst snd]. cbn zeta in He.
  pose proof (calculate_prize_total_app rec_tickets
                (generate_complex_tickets complex_fronts complex_backs).1
                (draw_front prize_data) (draw_back prize_data)) as Hsum.
  pose proof (calculate_prize_zero_iff rec_tickets (draw_front prize_data)
                (draw_back prize_data)) as [Hr1 Hr2].
  pose proof (calculate_prize_zero_iff
                (generate_complex_tickets complex_fronts complex_backs).1
                (draw_front prize_data) (draw_back prize_data)) as [Hc1 Hc2].
  assert (rec_tickets = [] →
          (generate_complex_tickets complex_fronts complex_backs).1 = [] →
          (calculate_prize rec_tickets (draw_front prize_data)
             (draw_back prize_data)).1.1
          + (calculate_prize
               (generate_complex_tickets complex_fronts complex_backs).1
               (draw_front prize_data) (draw_back prize_data)).1.1 = 0)
    as Hzero by (by intros -> ->).
  destruct (calculate_prize rec_tickets (draw_front prize_data)
              (draw_back prize_data)) as [[rec_prize0 rec_bd] rec_winners0]
    eqn:Hrec.
  destruct (calculate_prize
              (generate_complex_tickets complex_fronts complex_backs).1
              (draw_front prize_data) (draw_back prize_data))
    as [[com_prize0 com_bd] com_winners0] eqn:Hcom.
  cbn [fst snd] in *.
  assert (entry_prize_front e = draw_front prize_data) as Hpf
    by (by rewrite He).
  assert (entry_prize_back e = draw_back prize_data) as Hpb by (by rewrite He).
  assert (entry_total_prize e = rec_prize0 + com_prize0) as Htotal
    by (by rewrite He).
  assert (rec_prize e = rec_prize0) as Hrp by (by rewrite He).
  assert (com_prize e = com_prize0) as Hcp by (by rewrite He).
  assert (rec_winners e = rec_winners0) as Hrw by (by rewrite He).
  assert (com_winners e = com_winners0) as Hcw by (by rewrite He).
  assert (rec_breakdown e = breakdown_items rec_bd) as Hrb by (by rewrite He).
  assert (com_breakdown e = breakdown_items com_bd) as Hcb by (by rewrite He).
  exists report_path, report_content, rec_bd, com_bd.
  rewrite Hparse, Hpf, Hpb, Htotal, Hrp, Hcp, Hrw, Hcw, Hrb, Hcb.
  cbn [fst snd].
  split; [done|]. split; [done|]. split; [done|].
  split; [by rewrite Hrec, Hcom|].
  split; [done|]. split; [done|]. split; [done|]. split; [by rewrite Hsum|].
  split; [|split].
  - split.
    + intros H0. split; [apply Hr2|apply Hc2]; lia.
    + intros [H1 H2]. apply Hr2 in H1. apply Hc2 in H2. lia.
  - destruct rec_tickets as [|t ts],
             (generate_complex_tickets complex_fronts complex_backs).1
             as [|t' ts'];
      split; try done; intros [? ?]; done.
  - destruct rec_tickets as [|t ts],
             (generate_complex_tickets complex_fronts complex_backs).1
             as [|t' ts'];
      first [done | intros _; by apply Hzero].
Qed.

(** ** Occurrences of a text in another *)

Lemma starts_with_app (p s : list ascii) : starts_with p (p ++ s) = true.
Proof. induction p as [|c p IH]; simpl; [done|]. by rewrite Ascii.eqb_refl. Qed.

Lemma starts_with_prefix (p s : list ascii) :
  starts_with p s = true ↔ ∃ t, s = p ++ t.
Proof.
  split.
  - revert s. induction p as [|c p IH]; intros s H; [by exists s|].
    destruct s as [|x s]; simpl in H; [done|].
    apply andb_prop in H as [Hc Hs]. apply Ascii.eqb_eq in Hc as ->.
    destruct (IH s Hs) as [t ->]. by exists t.
  - intros [t ->]. apply starts_with_app.
Qed.

(** A character that is not in [sub] ends every attempt to match [sub]
    that reaches it. *)
Lemma starts_with_before (sub q t : list ascii) (c : ascii) :
  c ∉ sub → starts_with sub (q ++ c :: t) = starts_with sub q.
Proof.
  revert q. induction sub as [|x sub IH]; intros q Hc; [done|].
  apply not_elem_of_cons in Hc as [Hx Hc].
  destruct q as [|y q]; simpl.
  - destruct (Ascii.eqb_spec x c) as [->|]; [done|done].
  - by rewrite IH.
Qed.

Lemma contains_starts_with (sub s : list ascii) :
  starts_with sub s = true → contains sub s = true.
Proof. intros H. destruct s; simpl; by rewrite H. Qed.

Lemma contains_infix (sub s : list ascii) :
  contains sub s = true ↔ ∃ a b, s = a ++ sub ++ b.
Proof.
  split.
  - induction s as [|c s IH]; simpl.
    + rewrite orb_false_r. intros [t Ht]%starts_with_prefix. by exists [], t.
    + intros [H|H]%orb_prop.
      * apply starts_with_prefix in H as [t Ht]. by exists [], t.
      * destruct (IH H) as (a & b & ->). by exists (c :: a), b.
  - intros (a & b & ->). induction a as [|c a IH]; simpl.
    + apply contains_starts_with, starts_with_app.
    + by rewrite IH, orb_true_r.
Qed.

Lemma contains_false_infix (sub a s b : list ascii) :
  contains sub (a ++ s ++ b) = false → contains sub s = false.
Proof.
  intros H. destruct (contains sub s) eqn:E; [|done].
  apply contains_infix in E as (x & y & ->).
  assert (contains sub (a ++ (x ++ sub ++ y) ++ b) = true) as H'; [|congruence].
  apply contains_infix. exists (a ++ x), (y ++ b). by rewrite <- !app_assoc.
Qed.

Lemma contains_drop (sub s : list ascii) (i : nat) :
  starts_with sub (drop i s) = true → contains sub s = true.
Proof.
  revert i. induction s as [|c s IH]; intros i H.
  - rewrite drop_nil in H. simpl. by rewrite H.
  - destruct i as [|i]; simpl in *; [by rewrite H|].
    by rewrite (IH i H), orb_true_r.
Qed.

(** A text cut at a character that is not in [sub]: [sub] occurs in the
    whole exactly when it occurs in one of the parts. *)
Lemma contains_cut (sub a b : list ascii) (c : ascii) :
  c ∉ sub → contains sub (a ++ c :: b) = contains sub a || contains sub b.
Proof.
  intros Hc. induction a as [|y a IH].
  - cbn [app contains]. destruct sub as [|x sub]; [done|]. simpl.
    apply not_elem_of_cons in Hc as [Hx _].
    by destruct (Ascii.eqb_spec x c).
  - change ((y :: a) ++ c :: b) with (y :: (a ++ c :: b)).
    cbn [contains]. rewrite IH.
    change (y :: a ++ c :: b) with ((y :: a) ++ c :: b).
    rewrite (starts_with_before sub (y :: a) b c Hc). by rewrite orb_assoc.
Qed.

(** ** [str.split] with a separator string *)

Lemma split_str_go_skip (sep x t cur : list ascii) :
  split_str_go sep (length x) cur (x ++ t) = split_str_go sep 0 cur t
  ∨ (t = [] ∧ split_str_go sep (length x) cur (x ++ t) = [rev cur]).
Proof.
  induction x as [|c x IH]; [by left|]. simpl. exact IH.
Qed.

(** The scan passes over a part that holds no occurrence of the separator. *)
Lemma split_str_go_pass (sep m t : list ascii) :
  (∀ i, (i < length m)%nat → starts_with sep (drop i (m ++ t)) = false) →
  ∀ cur, split_str_go sep 0 cur (m ++ t) = split_str_go sep 0 (rev m ++ cur) t.
Proof.
  induction m as [|c m IH]; intros Hno cur; [done|].
  assert (starts_with sep (c :: m ++ t) = false) as H0
    by (apply (Hno 0%nat); simpl; lia).
  cbn [app split_str_go]. rewrite H0, IH.
  - simpl. by rewrite <- app_assoc.
  - intros i Hi. apply (Hno (S i)). simpl. lia.
Qed.

(** The scan cuts at an occurrence of the separator. *)
Lemma split_str_go_cut (sep t cur : list ascii) :
  sep ≠ [] →
  split_str_go sep 0 cur (sep ++ t) = rev cur :: split_str_go sep 0 [] t.
Proof.
  intros Hsep. destruct sep as [|c sep]; [done|].
  cbn [app split_str_go].
  change (c :: sep ++ t) with ((c :: sep) ++ t). rewrite starts_with_app.
  replace (length (c :: sep) - 1)%nat with (length sep) by (simpl; lia).
  destruct (split_str_go_skip (c :: sep) sep t []) as [->|[-> ->]]; [done|].
  done.
Qed.

(** No separator is left: the rest is the last piece. *)
Lemma split_str_go_last (sep s cur : list ascii) :
  contains sep s = false → split_str_go sep 0 cur s = [rev cur ++ s].
Proof.
  revert cur. induction s as [|c s IH]; intros cur H.
  - simpl. by rewrite app_nil_r.
  - simpl in H. apply orb_false_elim in H as [H1 H2].
    cbn [split_str_go]. rewrite H1, IH by done. simpl. by rewrite <- app_assoc.
Qed.

(** A piece that ends with a character the separator does not have, and
    holds no separator, is cut off whole. *)
Lemma split_str_go_piece (sep p t cur : list ascii) (c : ascii) :
  sep ≠ [] → c ∉ sep → contains sep p = false →
  split_str_go sep 0 cur (p ++ c :: sep ++ t)
  = (rev cur ++ p ++ [c]) :: split_str_go sep 0 [] t.
Proof.
  intros Hsep Hc Hp.
  change (p ++ c :: sep ++ t) with (p ++ [c] ++ sep ++ t).
  rewrite (app_assoc p [c]). rewrite split_str_go_pass.
  - rewrite split_str_go_cut by done. by rewrite rev_app_distr, rev_involutive.
  - intros i Hi. rewrite length_app in Hi. simpl in Hi.
    rewrite <- app_assoc. cbn [app].
    rewrite drop_app_le by lia. rewrite starts_with_before by done.
    destruct (starts_with sep (drop i p)) eqn:E; [|done].
    apply contains_drop in E. congruence.
Qed.

Lemma split_str_go_piece_last (sep p t cur : list ascii) (c : ascii) :
  c ∉ sep → contains sep p = false → contains sep t = false →
  split_str_go sep 0 cur (p ++ c :: t) = [rev cur ++ p ++ c :: t].
Proof.
  intros Hc Hp Ht. apply split_str_go_last.
  rewrite contains_cut by done. by rewrite Hp, Ht.
Qed.

(** ** [str.strip] *)

Lemma lstrip_with_spaces (p : ascii → bool) (a s : list ascii) :
  Forall (λ c, p c = true) a → lstrip_with p (a ++ s) = lstrip_with p s.
Proof. induction 1 as [|c a Hc _ IH]; simpl; [done|]. by rewrite Hc. Qed.

Lemma lstrip_with_suffix (p : ascii → bool) (s : list ascii) :
  ∃ a, s = a ++ lstrip_with p s ∧ Forall (λ c, p c = true) a
       ∧ ∀ c t, lstrip_with p s = c :: t → p c = false.
Proof.
  induction s as [|c s (a & Hs & Ha & Hh)]; simpl.
  - exists []. by repeat split.
  - destruct (p c) eqn:Hc.
    + exists (c :: a). split; [simpl; by f_equal|]. split; [by constructor|done].
    + exists []. split; [done|]. split; [constructor|]. by intros c' t [= <- _].
Qed.

(** What [strip] returns starts and ends with a character that is not
    white space, and what it removes is white space. *)
Lemma strip_spec (s : list ascii) :
  ∃ a b, s = a ++ strip s ++ b
         ∧ Forall (λ c, is_space c = true) a
         ∧ Forall (λ c, is_space c = true) b
         ∧ (∀ c t, strip s = c :: t → is_space c = false)
         ∧ (∀ c t, strip s = t ++ [c] → is_space c = false).
Proof.
  unfold strip, strip_with.
  destruct (lstrip_with_suffix is_space s) as (a & Hs & Ha & Hu).
  destruct (lstrip_with_suffix is_space (rev (lstrip_with is_space s)))
    as (b & Hr & Hb & Hv).
  set (u := lstrip_with is_space s) in *.
  set (v := lstrip_with is_space (rev u)) in *.
  assert (u = rev v ++ rev b) as Hu'.
  { rewrite <- (rev_involutive u), Hr. by rewrite rev_app_distr. }
  exists a, (rev b). split; [by rewrite <- Hu'|]. split; [done|].
  split; [by apply Forall_rev|]. split.
  - intros c t Hc. apply (Hu c (t ++ rev b)). by rewrite Hu', Hc.
  - intros c t Hc. apply (Hv c (rev t)).
    rewrite <- (rev_involutive v), Hc. by rewrite rev_app_distr.
Qed.

Lemma strip_unique (a m b : list ascii) :
  Forall (λ c, is_space c = true) a → Forall (λ c, is_space c = true) b →
  (∀ c t, m = c :: t → is_space c = false) →
  (∀ c t, m = t ++ [c] → is_space c = false) →
  m ≠ [] →
  strip (a ++ m ++ b) = m.
Proof.
  intros Ha Hb Hhead Hlast Hne. unfold strip, strip_with.
  rewrite lstrip_with_spaces by done.
  destruct m as [|c t] eqn:Hm; [done|]. rewrite <- Hm in *.
  assert (lstrip_with is_space (m ++ b) = m ++ b) as ->.
  { rewrite Hm. cbn [app]. apply lstrip_with_keep. by eapply Hhead. }
  rewrite rev_app_distr, lstrip_with_spaces by (by apply Forall_rev).
  destruct (rev m) as [|c' r] eqn:Hr.
  { apply (f_equal (@rev ascii)) in Hr. rewrite rev_involutive in Hr. by subst. }
  rewrite lstrip_with_keep.
  - by rewrite <- Hr, rev_involutive.
  - apply (Hlast c' (rev r)). by rewrite <- (rev_involutive m), Hr.
Qed.

Lemma strip_nil : strip [] = [].
Proof. reflexivity. Qed.

Lemma strip_idem (s : list ascii) : strip (strip s) = strip s.
Proof.
  destruct (strip_spec s) as (a & b & _ & _ & _ & Hh & Hl).
  destruct (strip s) as [|c t] eqn:E; [done|]. rewrite <- E in *.
  rewrite <- (app_nil_r (strip s)) at 1.
  apply (strip_unique [] (strip s) []); try done. by rewrite E.
Qed.

(** A text that [strip] leaves as it is, between white space. *)
Lemma strip_between (a e b : list ascii) :
  strip e = e → e ≠ [] →
  Forall (λ c, is_space c = true) a → Forall (λ c, is_space c = true) b →
  strip (a ++ e ++ b) = e.
Proof.
  intros He Hne Ha Hb.
  destruct (strip_spec e) as (_ & _ & _ & _ & _ & Hh & Hl). rewrite He in *.
  by apply strip_unique.
Qed.

Lemma strip_spaces (a : list ascii) :
  Forall (λ c, is_space c = true) a → strip a = [].
Proof.
  intros Ha. unfold strip, strip_with.
  rewrite <- (app_nil_r a), lstrip_with_spaces by done. done.
Qed.

Lemma strip_Forall (P : ascii → Prop) (s : list ascii) :
  Forall P s → Forall P (strip s).
Proof.
  intros H. destruct (strip_spec s) as (a & b & Hs & _).
  rewrite Hs in H. apply Forall_app in H as [_ H]. by apply Forall_app in H as [H _].
Qed.

Lemma strip_contains (sub s : list ascii) :
  contains sub s = false → contains sub (strip s) = false.
Proof.
  intros H. destruct (strip_spec s) as (a & b & Hs & _).
  rewrite Hs in H. by eapply contains_false_infix.
Qed.

Lemma is_blank_false (s : list ascii) : is_blank s = false ↔ strip s ≠ [].
Proof. unfold is_blank. by destruct (strip s). Qed.

(** ** [str.join] *)

Lemma join_cons_cons (sep e e' : list ascii) (l : list (list ascii)) :
  join sep (e :: e' :: l) = e ++ sep ++ join sep (e' :: l).
Proof. reflexivity. Qed.

Lemma join_nonempty (sep e : list ascii) (l : list (list ascii)) :
  e ≠ [] → join sep (e :: l) ≠ [].
Proof. intros He. destruct l; [done|]. rewrite join_cons_cons. by destruct e. Qed.

Lemma join_Forall (P : ascii → Prop) (sep : list ascii) (l : list (list ascii)) :
  Forall P sep → Forall (Forall P) l → Forall P (join sep l).
Proof.
  intros Hsep. induction 1 as [|e l He Hl IH]; [constructor|].
  destruct l as [|e' l]; [done|]. rewrite join_cons_cons.
  apply Forall_app. split; [done|]. apply Forall_app. by split.
Qed.

(** ** [str.splitlines] *)

Lemma splitlines_go_pass (e s cur : list ascii) :
  Forall (λ c, is_line_boundary c = false) e →
  splitlines_go cur (e ++ s) = splitlines_go (rev e ++ cur) s.
Proof.
  intros He. revert cur. induction He as [|c e Hc _ IH]; intros cur; [done|].
  cbn [app splitlines_go]. rewrite Hc, IH. simpl. by rewrite <- app_assoc.
Qed.

Lemma splitlines_go_line_feed (cur s : list ascii) :
  s ≠ [] →
  splitlines_go cur (line_feed ++ s) = rev cur :: splitlines_go [] s.
Proof. intros Hs. by destruct s. Qed.

(** The lines of lines joined with line feeds are these lines, when none
    is empty and none holds a line boundary. *)
Lemma splitlines_join (es : list (list ascii)) :
  Forall (λ e, e ≠ [] ∧ Forall (λ c, is_line_boundary c = false) e) es →
  splitlines (join line_feed es) = es.
Proof.
  unfold splitlines. induction 1 as [|e es [Hne Hnb] Hes IH]; [done|].
  destruct es as [|e' es].
  - cbn [join]. pose proof (splitlines_go_pass e [] [] Hnb) as H.
    rewrite !app_nil_r in H. rewrite H. simpl.
    destruct (rev e) eqn:E; [|by rewrite <- E, rev_involutive].
    apply (f_equal (@rev ascii)) in E. rewrite rev_involutive in E. by subst.
  - rewrite join_cons_cons, splitlines_go_pass by done.
    rewrite splitlines_go_line_feed.
    + by rewrite app_nil_r, rev_involutive, IH.
    + apply join_nonempty. by apply Forall_cons in Hes as [[? _] _].
Qed.

(** Every line of [splitlines] is free of line boundaries and is a part of
    the text. *)
Lemma splitlines_go_lines (n : nat) :
  ∀ (s cur line : list ascii),
    (length s ≤ n)%nat →
    Forall (λ c, is_line_boundary c = false) cur →
    line ∈ splitlines_go cur s →
    Forall (λ c, is_line_boundary c = false) line
    ∧ ∃ x y, rev cur ++ s = x ++ line ++ y.
Proof.
  induction n as [|n IH]; intros s cur line Hlen Hcur Hin.
  - destruct s; [|simpl in Hlen; lia]. simpl in Hin.
    destruct cur as [|c cur]; [by apply elem_of_nil in Hin|].
    apply list_elem_of_singleton in Hin as ->.
    split; [by apply Forall_rev|]. exists [], []. by rewrite !app_nil_r.
  - destruct s as [|c s].
    + simpl in Hin. destruct cur as [|c cur]; [by apply elem_of_nil in Hin|].
      apply list_elem_of_singleton in Hin as ->.
      split; [by apply Forall_rev|]. exists [], []. by rewrite !app_nil_r.
    + simpl in Hlen. cbn [splitlines_go] in Hin.
      destruct (is_line_boundary c) eqn:Hc.
      * destruct s as [|c' s'].
        -- apply list_elem_of_singleton in Hin as ->.
           split; [by apply Forall_rev|]. by exists [], [c].
        -- destruct ((chr_code c =? 13)%nat && (chr_code c' =? 10)%nat).
           ++ apply elem_of_cons in Hin as [->|Hin].
              ** split; [by apply Forall_rev|]. by exists [], (c :: c' :: s').
              ** simpl in Hlen.
                 destruct (IH s' [] line ltac:(lia) ltac:(constructor) Hin)
                   as (Hnb & x & y & Hxy).
                 split; [done|]. simpl in Hxy.
                 exists (rev cur ++ c :: c' :: x), y. rewrite Hxy.
                 by rewrite <- !app_assoc.
           ++ apply elem_of_cons in Hin as [->|Hin].
              ** split; [by apply Forall_rev|]. by exists [], (c :: c' :: s').
              ** destruct (IH (c' :: s') [] line ltac:(lia) ltac:(constructor) Hin)
                   as (Hnb & x & y & Hxy).
                 split; [done|]. simpl in Hxy.
                 exists (rev cur ++ c :: x), y. rewrite Hxy.
                 by rewrite <- !app_assoc.
      * destruct (IH s (c :: cur) line ltac:(lia) ltac:(by constructor) Hin)
          as (Hnb & x & y & Hxy).
        split; [done|]. exists x, y. rewrite <- Hxy. simpl.
        by rewrite <- app_assoc.
Qed.

(** ** Reading a file in text mode *)

Lemma universal_newlines_id (s : list ascii) :
  Forall (λ c, chr_code c ≠ 13%nat) s → universal_newlines s = s.
Proof.
  induction 1 as [|c s Hc _ IH]; [done|]. simpl.
  destruct (Nat.eqb_spec (chr_code c) 13); [done|]. by rewrite IH.
Qed.

Lemma universal_newlines_free (n : nat) :
  ∀ s, (length s ≤ n)%nat →
       Forall (λ c, chr_code c ≠ 13%nat) (universal_newlines s).
Proof.
  induction n as [|n IH]; intros s Hlen.
  - destruct s; [constructor|simpl in Hlen; lia].
  - destruct s as [|c s]; [constructor|]. simpl in Hlen. simpl.
    destruct (Nat.eqb_spec (chr_code c) 13) as [_|Hc].
    + constructor; [by vm_compute|].
      destruct s as [|c' s']; [constructor|]. simpl in Hlen.
      destruct (chr_code c' =? 10)%nat; apply IH; simpl; lia.
    + constructor; [done|]. apply IH. lia.
Qed.

(** ** The pieces of [str.split] *)

(** No occurrence of the separator starts in the piece being read. *)
Lemma split_str_go_current (sep cur s : list ascii) :
  sep ≠ [] →
  (∀ i, (i < length cur)%nat → starts_with sep (drop i (rev cur ++ s)) = false) →
  contains sep (rev cur) = false.
Proof.
  intros Hsep Hno. destruct (contains sep (rev cur)) eqn:E; [|done].
  apply contains_infix in E as (a & b & Hab).
  assert (length a < length cur)%nat as Hlen.
  { apply (f_equal length) in Hab. rewrite length_rev, !length_app in Hab.
    destruct sep; [done|]. simpl in Hab. lia. }
  specialize (Hno (length a) Hlen).
  rewrite Hab, <- !app_assoc, drop_app_length, starts_with_app in Hno. done.
Qed.

(** Every piece is free of the separator and is a part of the text. *)
Lemma split_str_go_pieces (sep : list ascii) :
  sep ≠ [] →
  ∀ s,
    (∀ k piece, piece ∈ split_str_go sep k [] s →
       contains sep piece = false ∧ ∃ x y, s = x ++ piece ++ y)
    ∧ (∀ cur piece,
         (∀ i, (i < length cur)%nat →
               starts_with sep (drop i (rev cur ++ s)) = false) →
         piece ∈ split_str_go sep 0 cur s →
         contains sep piece = false ∧ ∃ x y, rev cur ++ s = x ++ piece ++ y).
Proof.
  intros Hsep. induction s as [|c s [IH1 IH2]].
  - split.
    + intros k piece Hin. destruct k; simpl in Hin;
        apply list_elem_of_singleton in Hin as ->;
        (split; [by destruct sep|by exists [], []]).
    + intros cur piece Hno Hin. simpl in Hin.
      apply list_elem_of_singleton in Hin as ->.
      split; [by eapply split_str_go_current|].
      exists [], []. by rewrite !app_nil_r.
  - assert (∀ cur piece,
              (∀ i, (i < length cur)%nat →
                    starts_with sep (drop i (rev cur ++ c :: s)) = false) →
              piece ∈ split_str_go sep 0 cur (c :: s) →
              contains sep piece = false
              ∧ ∃ x y, rev cur ++ c :: s = x ++ piece ++ y) as H2.
    { intros cur piece Hno Hin. cbn [split_str_go] in Hin.
      destruct (starts_with sep (c :: s)) eqn:Hst.
      - apply elem_of_cons in Hin as [->|Hin].
        + split; [by eapply split_str_go_current|]. by exists [], (c :: s).
        + destruct (IH1 _ _ Hin) as (Hc & x & y & ->). split; [done|].
          exists (rev cur ++ c :: x), y. by rewrite <- !app_assoc.
      - apply IH2 in Hin.
        + destruct Hin as (Hc & x & y & Hxy). split; [done|].
          exists x, y. rewrite <- Hxy. simpl. by rewrite <- app_assoc.
        + intros i Hi. simpl in Hi. simpl. rewrite <- app_assoc. cbn [app].
          destruct (decide (i = length cur)) as [->|Hne].
          * rewrite <- (length_rev cur), drop_app_length. done.
          * apply Hno. lia. }
    split; [|exact H2].
    intros k piece Hin. destruct k as [|k].
    + apply (H2 [] piece); [simpl; lia|done].
    + cbn [split_str_go] in Hin. destruct (IH1 _ _ Hin) as (Hc & x & y & ->).
      split; [done|]. by exists (c :: x), y.
Qed.

Lemma split_str_pieces (sep s piece : list ascii) :
  sep ≠ [] → piece ∈ split_str sep s →
  contains sep piece = false ∧ ∃ x y, s = x ++ piece ++ y.
Proof.
  intros Hsep Hin. destruct (split_str_go_pieces sep Hsep s) as [H1 _].
  by apply (H1 0%nat).
Qed.

(** ** The markers of the report file *)

Lemma line_feed_app (s : list ascii) : line_feed ++ s = "010"%char :: s.
Proof. reflexivity. Qed.

Lemma entry_separator_app (s : list ascii) :
  (line_feed ++ entry_rule ++ line_feed) ++ s
  = "010"%char :: entry_rule ++ "010"%char :: s.
Proof. reflexivity. Qed.

Lemma line_feed_not_in_markers :
  ("010"%char ∉ error_marker) ∧ ("010"%char ∉ entry_rule)
  ∧ ("010"%char ∉ normal_marker).
Proof.
  split; [|split]; apply (bool_decide_unpack _); vm_compute; exact I.
Qed.

Lemma markers_apart :
  contains error_marker normal_marker = false
  ∧ contains error_marker entry_rule = false
  ∧ contains entry_rule normal_marker = false
  ∧ contains normal_marker entry_rule = false
  ∧ contains error_marker [] = false
  ∧ contains entry_rule [] = false
  ∧ contains normal_marker [] = false.
Proof. repeat split; vm_compute; reflexivity. Qed.

(** A text that occurs in none of the entries, nor in the rule, does not
    occur in the entries joined with the rule. *)
Lemma contains_join_entries (sub : list ascii) (ns : list (list ascii)) :
  ("010"%char ∉ sub) → contains sub [] = false →
  contains sub entry_rule = false →
  Forall (λ e, contains sub e = false) ns →
  contains sub (join (line_feed ++ entry_rule ++ line_feed) ns) = false.
Proof.
  intros Hlf Hnil Hrule. induction 1 as [|e ns He Hns IH]; [done|].
  destruct ns as [|e' ns]; [done|].
  rewrite join_cons_cons, entry_separator_app.
  rewrite contains_cut, He by done. rewrite contains_cut, Hrule by done.
  by rewrite IH.
Qed.

Lemma contains_join_lines (sub : list ascii) (es : list (list ascii)) :
  ("010"%char ∉ sub) → contains sub [] = false →
  Forall (λ e, contains sub e = false) es →
  contains sub (join line_feed es) = false.
Proof.
  intros Hlf Hnil. induction 1 as [|e es He Hes IH]; [done|].
  destruct es as [|e' es]; [done|]. rewrite join_cons_cons, line_feed_app.
  rewrite contains_cut, He by done. by rewrite IH.
Qed.

(** ** Writing the report file and reading it back *)

Lemma render_report_shape (ns es : list (list ascii)) :
  render_report ns es
  = (normal_marker
     ++ "010"%char :: join (line_feed ++ entry_rule ++ line_feed) ns ++ ["010"%char])
    ++ "010"%char :: error_marker ++ "010"%char :: join line_feed es.
Proof.
  unfold render_report. rewrite !line_feed_app. rewrite <- !app_assoc.
  cbn [app]. by rewrite <- !app_assoc.
Qed.

(** The two parts [manage_report] finds in what it wrote. *)
Lemma render_report_parts (ns es : list (list ascii)) :
  Forall entry_writable ns → Forall error_ok es →
  split_str error_marker (render_report ns es)
  = [ normal_marker
      ++ "010"%char :: join (line_feed ++ entry_rule ++ line_feed) ns
      ++ ["010"%char; "010"%char];
      "010"%char :: join line_feed es ].
Proof.
  intros Hns Hes. unfold split_str. rewrite render_report_shape.
  destruct line_feed_not_in_markers as (Hlf & _ & _).
  destruct markers_apart as (H1 & H2 & _ & _ & H5 & _ & _).
  rewrite split_str_go_piece; [| done | done |].
  - cbn [rev app]. rewrite <- !app_assoc. cbn [app]. f_equal.
    + by rewrite <- app_assoc.
    + rewrite split_str_go_last; [done|].
      change ("010"%char :: join line_feed es)
        with ([] ++ "010"%char :: join line_feed es).
      rewrite contains_cut, H5 by done.
      apply contains_join_lines; [done..|].
      eapply Forall_impl; [exact Hes|]. by intros e (_ & _ & He & _).
  - rewrite contains_cut, H1 by done.
    rewrite contains_cut, H5, orb_false_r by done.
    apply contains_join_entries; [done..|].
    eapply Forall_impl; [exact Hns|]. by intros e (_ & He & _).
Qed.

Lemma filter_strip_lines (es : list (list ascii)) :
  Forall (λ e, strip e = e ∧ e ≠ []) es →
  strip <$> filter (λ err, negb (is_blank err)) es = es.
Proof.
  induction 1 as [|e es [He Hne] _ IH]; [done|].
  rewrite filter_cons_True.
  - rewrite fmap_cons. by rewrite He, IH.
  - rewrite (proj2 (is_blank_false e)) by (by rewrite He). exact I.
Qed.

(** The error lines written are the error lines read back. *)
Lemma render_read_errors (ns es : list (list ascii)) :
  Forall entry_writable ns → Forall error_ok es →
  read_error_entries (render_report ns es) = es.
Proof.
  intros Hns Hes. unfold read_error_entries.
  rewrite render_report_parts by done. cbn [lookup list_lookup default from_option id].
  assert (splitlines ("010"%char :: join line_feed es) = [] :: es) as ->.
  { destruct es as [|e es]; [done|].
    unfold splitlines. rewrite <- line_feed_app, splitlines_go_line_feed.
    - f_equal. apply splitlines_join.
      eapply Forall_impl; [exact Hes|]. by intros e0 (_ & ? & _ & ?).
    - apply join_nonempty. by apply Forall_cons in Hes as [(_ & ? & _) _]. }
  rewrite filter_cons_False by (by intros H; apply H).
  apply filter_strip_lines.
  eapply Forall_impl; [exact Hes|]. by intros e (? & ? & _).
Qed.

(** The chunk [manage_report] cuts for an entry: kept by the filter, and
    stripped to the entry. *)
Lemma entry_chunk (e b : list ascii) :
  entry_ok e → Forall (λ c, c = "010"%char) b →
  let chunk := "010"%char :: e ++ "010"%char :: b in
  negb (is_blank chunk) && negb (contains normal_marker chunk) = true
  ∧ strip chunk = e
  ∧ contains entry_rule chunk = false.
Proof.
  intros (He & Hne & Hr & _ & Hm & _) Hb chunk.
  destruct line_feed_not_in_markers as (_ & Hlf1 & Hlf2).
  destruct markers_apart as (_ & _ & _ & _ & _ & H6 & H7).
  assert (∀ sub, ("010"%char ∉ sub) → contains sub [] = false →
                 contains sub b = false) as Hcb.
  { intros sub Hsub Hnil. induction Hb as [|c b -> _ IH]; [done|].
    change ("010"%char :: b) with ([] ++ "010"%char :: b).
    by rewrite contains_cut, Hnil, IH. }
  assert (strip chunk = e) as Hs.
  { apply (strip_between ["010"%char] e ("010"%char :: b)); [done..| |].
    - by repeat constructor.
    - constructor; [done|]. eapply Forall_impl; [exact Hb|]. by intros c ->. }
  split; [|split; [done|]].
  - apply andb_true_intro. split.
    + rewrite (proj2 (is_blank_false chunk)); [done|]. by rewrite Hs.
    + unfold chunk. change ("010"%char :: e ++ "010"%char :: b)
        with ([] ++ "010"%char :: e ++ "010"%char :: b).
      rewrite contains_cut, H7 by done. rewrite contains_cut, Hm by done.
      by rewrite Hcb.
  - unfold chunk. change ("010"%char :: e ++ "010"%char :: b)
      with ([] ++ "010"%char :: e ++ "010"%char :: b).
    rewrite contains_cut, H6 by done. rewrite contains_cut, Hr by done.
    by rewrite Hcb.
Qed.

(** The chunks after the first one give back the entries. *)
Lemma render_read_chunks (l : list (list ascii)) :
  l ≠ [] → Forall entry_ok l →
  strip <$> filter (λ entry, negb (is_blank entry)
                             && negb (contains normal_marker entry))
              (split_str_go entry_rule 0 []
                 ("010"%char :: join (line_feed ++ entry_rule ++ line_feed) l
                  ++ ["010"%char; "010"%char]))
  = l.
Proof.
  intros Hne Hl. induction Hl as [|e l He Hl IH]; [done|]. clear Hne.
  destruct line_feed_not_in_markers as (_ & Hlf1 & _).
  destruct l as [|e' l].
  - cbn [join].
    destruct (entry_chunk e ["010"%char] He ltac:(by repeat constructor))
      as (Hkeep & Hstrip & Hrule).
    rewrite split_str_go_last by exact Hrule. cbn [rev app].
    rewrite filter_cons_True by (by rewrite Hkeep). cbn [fmap list_fmap].
    by rewrite Hstrip.
  - rewrite join_cons_cons, entry_separator_app, <- app_assoc.
    cbn [app]. rewrite <- app_assoc.
    destruct (entry_chunk e [] He ltac:(constructor))
      as (Hkeep & Hstrip & Hrule).
    change ("010"%char :: e ++ "010"%char :: entry_rule ++ ?t)
      with (("010"%char :: e) ++ "010"%char :: entry_rule ++ t).
    rewrite split_str_go_piece; [|done|done|].
    + cbn [rev app]. rewrite filter_cons_True by (by rewrite Hkeep).
      rewrite fmap_cons, Hstrip. f_equal. by apply IH.
    + eapply (contains_false_infix _ [] _ ["010"%char]). exact Hrule.
Qed.

(** The entries written are read back without the first of them: the
    first chunk holds the heading line, and the filter drops it. *)
Lemma render_read_entries (ns es : list (list ascii)) :
  Forall entry_writable ns → Forall entry_ok (tail ns) → Forall error_ok es →
  read_normal_entries (render_report ns es) = tail ns.
Proof.
  intros Hns Htl Hes. unfold read_normal_entries.
  rewrite render_report_parts by done. cbn [head default from_option id].
  destruct line_feed_not_in_markers as (_ & Hlf1 & Hlf2).
  destruct markers_apart as (_ & _ & H3 & _ & _ & H6 & _).
  assert (∀ t, negb (is_blank (normal_marker ++ t))
               && negb (contains normal_marker (normal_marker ++ t)) = false)
    as Hdrop.
  { intros t. by rewrite (contains_starts_with _ _ (starts_with_app _ t)),
      andb_false_r. }
  destruct ns as [|e [|e' l]].
  - unfold split_str. rewrite split_str_go_last.
    + cbn [rev app]. by rewrite filter_cons_False by (rewrite Hdrop; intros []).
    + rewrite contains_cut, H3 by done. vm_compute. reflexivity.
  - apply Forall_cons in Hns as [(Hr & _) _].
    unfold split_str. rewrite split_str_go_last.
    + cbn [rev app]. by rewrite filter_cons_False by (rewrite Hdrop; intros []).
    + cbn [join]. rewrite contains_cut, H3 by done.
      rewrite contains_cut, Hr by done. vm_compute. reflexivity.
  - apply Forall_cons in Hns as [(Hr & _) _]. cbn [tail] in Htl.
    unfold split_str. rewrite join_cons_cons, entry_separator_app.
    rewrite <- app_assoc. cbn [app]. rewrite <- app_assoc.
    change (normal_marker ++ "010"%char :: e ++ "010"%char :: entry_rule ++ ?t)
      with ((normal_marker ++ "010"%char :: e)
            ++ "010"%char :: entry_rule ++ t).
    rewrite split_str_go_piece; [|done|done|].
    + cbn [rev app tail]. rewrite <- app_assoc.
      rewrite filter_cons_False by (rewrite Hdrop; intros []).
      apply render_read_chunks; done.
    + by rewrite contains_cut, H3, Hr.
Qed.

(** ** What [manage_report] reads from any file *)

Lemma Forall_infix {A} (P : A → Prop) (x l y : list A) :
  Forall P (x ++ l ++ y) → Forall P l.
Proof.
  intros H. apply Forall_app in H as [_ H]. by apply Forall_app in H as [H _].
Qed.

Lemma error_marker_nonempty : error_marker ≠ [].
Proof. intros H. apply (f_equal length) in H. vm_compute in H. discriminate. Qed.

Lemma entry_rule_nonempty : entry_rule ≠ [].
Proof. intros H. apply (f_equal length) in H. vm_compute in H. discriminate. Qed.

(** A part [split] cuts at the error marker. *)
Lemma error_marker_part (content part : list ascii) (i : nat) :
  default [] (split_str error_marker content !! i) = part →
  contains error_marker part = false
  ∧ (∀ P : ascii → Prop, Forall P content → Forall P part).
Proof.
  intros <-. destruct (split_str error_marker content !! i) as [p|] eqn:E.
  - apply list_elem_of_lookup_2 in E.
    apply split_str_pieces in E as (Hc & x & y & ->);
      [|exact error_marker_nonempty].
    split; [done|]. intros P. apply Forall_infix.
  - split; [by vm_compute|]. intros P _. constructor.
Qed.

Lemma read_normal_entries_ok (content : list ascii) :
  Forall (λ c, chr_code c ≠ 13%nat) content →
  Forall entry_ok (read_normal_entries content).
Proof.
  intros Hcr. unfold read_normal_entries. rewrite head_lookup.
  destruct (error_marker_part content _ 0 eq_refl) as [Hem Hfa].
  set (normal_part := default [] (split_str error_marker content !! 0%nat)) in *.
  apply Forall_fmap, Forall_forall. intros chunk Hin.
  apply list_elem_of_filter in Hin as [Hkeep Hin].
  apply split_str_pieces in Hin as (Hrule & x & y & Hxy);
    [|exact entry_rule_nonempty].
  apply andb_prop_elim in Hkeep as [Hblank Hmarker].
  apply negb_prop_elim, Is_true_false_1 in Hblank.
  apply negb_prop_elim, Is_true_false_1 in Hmarker.
  rewrite Hxy in Hem. apply contains_false_infix in Hem.
  apply Hfa in Hcr. rewrite Hxy in Hcr. apply Forall_infix in Hcr.
  cbn [compose]. unfold entry_ok.
  split; [apply strip_idem|]. split; [by apply is_blank_false|].
  split; [by apply strip_contains|]. split; [by apply strip_contains|].
  split; [by apply strip_contains|]. by apply strip_Forall.
Qed.

Lemma read_error_entries_ok (content : list ascii) :
  Forall error_ok (read_error_entries content).
Proof.
  unfold read_error_entries.
  destruct (error_marker_part content _ 1 eq_refl) as [Hem _].
  set (error_part := default [] (split_str error_marker content !! 1%nat)) in *.
  apply Forall_fmap, Forall_forall. intros line Hin.
  apply list_elem_of_filter in Hin as [Hblank Hin].
  apply negb_prop_elim, Is_true_false_1 in Hblank.
  apply (splitlines_go_lines (length error_part)) in Hin
    as (Hnb & x & y & Hxy); [|done|constructor].
  simpl in Hxy. rewrite Hxy in Hem. apply contains_false_infix in Hem.
  cbn [compose]. unfold error_ok.
  split; [apply strip_idem|]. split; [by apply is_blank_false|].
  split; [by apply strip_contains|]. by apply strip_Forall.
Qed.

Lemma line_boundary_carriage_return (c : ascii) :
  is_line_boundary c = false → chr_code c ≠ 13%nat.
Proof. unfold is_line_boundary. intros H Hc. rewrite Hc in H. done. Qed.

Lemma entry_ok_writable (e : list ascii) : entry_ok e → entry_writable e.
Proof. by intros (_ & _ & ? & ? & _ & ?). Qed.

Lemma render_report_free (ns es : list (list ascii)) :
  Forall entry_writable ns → Forall error_ok es →
  Forall (λ c, chr_code c ≠ 13%nat) (render_report ns es).
Proof.
  intros Hns Hes. unfold render_report.
  assert (Forall (λ c, chr_code c ≠ 13%nat) line_feed) as Hlf
    by (by repeat constructor).
  assert (Forall (λ c, chr_code c ≠ 13%nat) normal_marker) as Hnm
    by (apply (bool_decide_unpack _); vm_compute; exact I).
  assert (Forall (λ c, chr_code c ≠ 13%nat) error_marker) as Hem
    by (apply (bool_decide_unpack _); vm_compute; exact I).
  assert (Forall (λ c, chr_code c ≠ 13%nat) entry_rule) as Hru
    by (apply (bool_decide_unpack _); vm_compute; exact I).
  repeat (apply Forall_app; split); try done.
  - apply join_Forall; [by repeat (apply Forall_app; split)|].
    eapply Forall_impl; [exact Hns|]. by intros e (_ & _ & ?).
  - apply join_Forall; [done|].
    eapply Forall_impl; [exact Hes|]. intros e (_ & _ & _ & Hnb).
    eapply Forall_impl; [exact Hnb|]. apply line_boundary_carriage_return.
Qed.

(** The lists [manage_report] writes, for any previous file. *)
Lemma updated_errors_ok (written timestamp : list ascii)
    (new_error : option (list ascii)) :
  (∀ c msg, new_error = Some (c :: msg) →
     error_ok (str "[" ++ timestamp ++ str "] " ++ c :: msg)) →
  Forall error_ok (updated_errors (universal_newlines written) timestamp new_error).
Proof.
  intros Herror. unfold updated_errors. apply Forall_take.
  pose proof (read_error_entries_ok (universal_newlines written)) as Hold.
  destruct new_error as [[|c msg]|]; [done| |done].
  constructor; [by apply Herror|done].
Qed.

Lemma updated_entries_ok (written timestamp : list ascii)
    (new_entry : option report_entry) :
  (∀ e, new_entry = Some e → entry_writable (entry_text timestamp e)) →
  Forall entry_writable
    (updated_entries (universal_newlines written) timestamp new_entry)
  ∧ Forall entry_ok
      (tail (updated_entries (universal_newlines written) timestamp new_entry)).
Proof.
  intros Hentry. unfold updated_entries.
  pose proof (read_normal_entries_ok (universal_newlines written)
                (universal_newlines_free _ written (le_n _))) as Hold.
  assert (Forall entry_writable (read_normal_entries (universal_newlines written)))
    as Hold' by (eapply Forall_impl; [exact Hold|apply entry_ok_writable]).
  destruct new_entry as [e|].
  - split.
    + apply Forall_take. constructor; [by apply Hentry|done].
    + cbn [MAX_NORMAL_RECORDS take tail]. by apply Forall_take.
  - split; [by apply Forall_take|]. by apply Forall_tail, Forall_take.
Qed.

(** X16 (manage_report, lines 307-371): what is written is read back by
    the next call, except the first entry.  For entries and error lines
    that are stripped, not empty and free of the rule, of the markers and
    of carriage returns (the error lines of every line boundary), the file
    [manage_report] writes gives back, when it is read again, the same
    error lines and the entries without the first one: the first entry is
    in the same chunk as the heading line, and the filter drops every
    chunk that holds the heading. *)
Theorem manage_report_round_trip (ns es : list (list ascii)) :
  Forall entry_ok ns → Forall error_ok es →
  read_normal_entries (universal_newlines (render_report ns es)) = tail ns
  ∧ read_error_entries (universal_newlines (render_report ns es)) = es.
Proof.
  intros Hns Hes.
  assert (Forall entry_writable ns) as Hw
    by (eapply Forall_impl; [exact Hns|apply entry_ok_writable]).
  rewrite universal_newlines_id by (by apply render_report_free).
  split; [|by apply render_read_errors].
  apply render_read_entries; [done| |done]. by apply Forall_tail.
Qed.

(** X17 (manage_report, lines 307-371): whatever the file holds, the
    entries [manage_report] reads from it are stripped, not empty and free
    of the rule, of both markers and of carriage returns, and the error
    lines are stripped, not empty and free of the error marker and of line
    boundaries: they are of the kind that the round trip preserves. *)
Theorem manage_report_reads_well_formed (written : list ascii) :
  Forall entry_ok (read_normal_entries (universal_newlines written))
  ∧ Forall error_ok (read_error_entries (universal_newlines written)).
Proof.
  split; [|apply read_error_entries_ok].
  apply read_normal_entries_ok. by apply (universal_newlines_free (length written)).
Qed.

(** X18 (manage_report, lines 307-371): from one call to the next.  For
    any previous file, a call whose new error line is stripped and holds
    neither a line boundary nor the error marker, and whose new entry holds
    neither the rule nor the error marker nor a carriage return, writes a
    file from which the next call reads all the error lines it kept, and
    all the entries it kept but the first.  So a new entry is not read back
    by the next call, which keeps at most nine of the older entries, and a
    call that only logs an error removes the most recent entry. *)
Theorem manage_report_next_call (written timestamp : list ascii)
    (new_entry : option report_entry) (new_error : option (list ascii)) :
  (∀ e, new_entry = Some e → entry_writable (entry_text timestamp e)) →
  (∀ c msg, new_error = Some (c :: msg) →
     error_ok (str "[" ++ timestamp ++ str "] " ++ c :: msg)) →
  read_error_entries
    (universal_newlines
       (manage_report (universal_newlines written) timestamp new_entry new_error))
  = updated_errors (universal_newlines written) timestamp new_error
  ∧ read_normal_entries
      (universal_newlines
         (manage_report (universal_newlines written) timestamp new_entry new_error))
    = tail (updated_entries (universal_newlines written) timestamp new_entry)
  ∧ (∀ e, new_entry = Some e →
       read_normal_entries
         (universal_newlines
            (manage_report (universal_newlines written) timestamp new_entry
               new_error))
       = take 9 (read_normal_entries (universal_newlines written))).
Proof.
  intros Hentry Herror.
  destruct (updated_entries_ok written timestamp new_entry Hentry) as [Hns Htl].
  pose proof (updated_errors_ok written timestamp new_error Herror) as Hes.
  unfold manage_report.
  rewrite universal_newlines_id by (by apply render_report_free).
  rewrite render_read_errors, render_read_entries by done.
  split; [done|]. split; [done|]. by intros e ->.
Qed.

Lemma manage_report_round_trip_witness :
  read_normal_entries
    (universal_newlines
       (render_report
          [entry_text sample_timestamp sample_entry; str "an older entry"]
          [str "[2024-01-01 00:00:00] error 1"]))
  = [str "an older entry"].
Proof.
  apply (manage_report_round_trip
           [entry_text sample_timestamp sample_entry; str "an older entry"]
           [str "[2024-01-01 00:00:00] error 1"]).
  - repeat constructor; unfold entry_ok;
      apply (bool_decide_unpack _); vm_compute; exact I.
  - repeat constructor; unfold error_ok;
      apply (bool_decide_unpack _); vm_compute; exact I.
Defined.

Lemma manage_report_next_call_witness :
  read_normal_entries
    (universal_newlines
       (manage_report (universal_newlines report_with_twenty_errors)
          sample_timestamp (Some sample_entry) (Some (str "a new error"))))
  = take 9 (read_normal_entries (universal_newlines report_with_twenty_errors)).
Proof.
  refine (proj2 (proj2 (manage_report_next_call report_with_twenty_errors
                          sample_timestamp (Some sample_entry)
                          (Some (str "a new error")) _ _)) sample_entry eq_refl).
  - intros e [= <-]. unfold entry_writable.
    apply (bool_decide_unpack _); vm_compute; exact I.
  - intros c msg [= <- <-]. unfold error_ok.
    apply (bool_decide_unpack _); vm_compute; exact I.
Defined.

(** ** More hits, better tier *)

Lemma calculate_prize_single (t : ticket) (pf pb : list Z) :
  (calculate_prize [t] pf pb).1.1 = ticket_prize pf pb t.
Proof.
  destruct (calculate_prize_components pf pb [t]) as (bd & -> & _ & _).
  cbn [fst fmap list_fmap Zsum foldr]. lia.
Qed.

Lemma level_of_monotone (fh bh fh' bh' : nat) :
  (fh ≤ fh')%nat → (fh' ≤ 5)%nat → (bh ≤ bh')%nat → (bh' ≤ 2)%nat →
  match level_of fh bh with
  | Some lv =>
      ∃ lv', level_of fh' bh' = Some lv' ∧ (lv' ≤ lv)%nat
             ∧ PRIZE_TABLE !!! lv ≤ PRIZE_TABLE !!! lv'
  | None => True
  end.
Proof.
  intros H1 H2 H3 H4.
  destruct fh' as [|[|[|[|[|[|?]]]]]]; try lia;
    destruct bh' as [|[|[|?]]]; try lia;
    destruct fh as [|[|[|[|[|[|?]]]]]]; try lia;
    destruct bh as [|[|[|?]]]; try lia;
    cbn [level_of Nat.eqb andb orb]; try exact I;
    (eexists; split; [reflexivity|]; split; [lia|]; by vm_compute).
Qed.

(** X19 (calculate_prize, lines 275-285): the tier chain is monotone.  A
    ticket that hits at least as many front numbers and at least as many
    back numbers as another one gets a tier that is at least as good, and
    never wins less; in particular a ticket without a tier cannot have
    more hits on both sides than a ticket with one. *)
Theorem calculate_prize_more_hits (pf pb : list Z) (t t' : ticket) :
  length t'.1 = 5%nat → length t'.2 = 2%nat →
  (hits t.1 pf ≤ hits t'.1 pf)%nat → (hits t.2 pb ≤ hits t'.2 pb)%nat →
  (calculate_prize [t] pf pb).1.1 ≤ (calculate_prize [t'] pf pb).1.1
  ∧ ∀ lv, ticket_level pf pb t = Some lv →
          ∃ lv', ticket_level pf pb t' = Some lv' ∧ (lv' ≤ lv)%nat.
Proof.
  intros Hf Hb Hhf Hhb. rewrite !calculate_prize_single.
  unfold ticket_prize, ticket_level.
  destruct (hits_le t'.1 pf) as [Hf' _]. destruct (hits_le t'.2 pb) as [Hb' _].
  rewrite Hf in Hf'. rewrite Hb in Hb'.
  pose proof (level_of_monotone _ _ _ _ Hhf Hf' Hhb Hb') as Hmono.
  destruct (level_of (hits t.1 pf) (hits t.2 pb)) as [lv|] eqn:Hlv.
  - destruct Hmono as (lv' & -> & Hle & Hprize). split; [done|].
    intros lv0 [= <-]. eauto.
  - split; [|done].
    destruct (level_of (hits t'.1 pf) (hits t'.2 pb)) as [lv'|] eqn:Hlv';
      [|done].
    apply level_of_range in Hlv'.
    destruct PRIZE_TABLE_values as (V1 & V2 & V3 & V4 & V5 & V6 & V7 & V8 & V9).
    assert (lv' = 1 ∨ lv' = 2 ∨ lv' = 3 ∨ lv' = 4 ∨ lv' = 5 ∨ lv' = 6 ∨ lv' = 7
            ∨ lv' = 8 ∨ lv' = 9)%nat as Hcases by lia.
    destruct Hcases as [->|[->|[->|[->|[->|[->|[->|[->| ->]]]]]]]]; lia.
Qed.

Lemma calculate_prize_more_hits_witness :
  (calculate_prize [([1; 2; 3; 9; 10], [6; 8])] [1; 2; 3; 4; 5] [6; 7]).1.1
  ≤ (calculate_prize [([1; 2; 3; 4; 10], [6; 7])] [1; 2; 3; 4; 5] [6; 7]).1.1.
Proof.
  apply (calculate_prize_more_hits [1; 2; 3; 4; 5] [6; 7]
           ([1; 2; 3; 9; 10], [6; 8]) ([1; 2; 3; 4; 10], [6; 7]));
    [reflexivity | reflexivity | vm_compute; lia | vm_compute; lia].
Defined.

(** ** [format_winning_tickets_for_report] *)







(** ** Pools that cover the draw *)

(** The numbers of a draw, picked out of a pool that holds them all. *)
Lemma pool_covers (pool prize : list Z) :
  NoDup pool → NoDup prize → (∀ x, x ∈ prize → x ∈ pool) →
  ∃ c, c `sublist_of` pool ∧ length c = length prize ∧ c ≡ₚ prize.
Proof.
  intros Hpool Hprize Hsub. exists (filter (λ x, x ∈ prize) pool).
  assert (filter (λ x, x ∈ prize) pool ≡ₚ prize) as Hperm.
  { apply NoDup_Permutation; [by apply NoDup_filter|done|].
    intros x. rewrite list_elem_of_filter. split; [by intros [? _]|].
    intros Hx. split; [done|by apply Hsub]. }
  split; [apply sublist_filter|]. split; [by rewrite Hperm|done].
Qed.

Lemma filter_length_one {A} (P : A → Prop) `{∀ x, Decision (P x)}
    (l : list A) (t : A) :
  NoDup l → t ∈ l → P t → (∀ t', t' ∈ l → P t' → t' = t) →
  length (filter P l) = 1%nat.
Proof.
  intros Hnd Ht HP Huniq.
  assert (filter P l ≡ₚ [t]) as ->; [|done].
  apply NoDup_Permutation; [by apply NoDup_filter|apply NoDup_singleton|].
  intros x. rewrite list_elem_of_filter, list_elem_of_singleton. split.
  - intros [? ?]. by apply Huniq.
  - by intros ->.
Qed.

Lemma Zsum_elem (l : list Z) (y : Z) :
  (∀ x, x ∈ l → 0 ≤ x) → y ∈ l → y ≤ Zsum l.
Proof.
  unfold Zsum. induction l as [|x l IH]; intros Hpos Hy.
  - by apply elem_of_nil in Hy.
  - simpl. fold (foldr Z.add 0 l).
    assert (0 ≤ foldr Z.add 0 l) as Hsum.
    { clear IH Hy. induction l as [|z l IHl]; simpl; [lia|].
      assert (0 ≤ z) by (apply Hpos; right; left).
      assert (0 ≤ foldr Z.add 0 l); [|lia].
      apply IHl. intros w Hw. apply Hpos.
      apply elem_of_cons in Hw as [->|Hw]; [left|right; by right]. }
    assert (0 ≤ x) by (apply Hpos; left).
    apply elem_of_cons in Hy as [->|Hy]; [lia|].
    assert (y ≤ foldr Z.add 0 l); [|lia].
    apply IH; [|done]. intros w Hw. apply Hpos. by right.
Qed.

(** X21 (generate_complex_tickets and calculate_prize, lines 216-293): a
    complex bet that covers the draw wins the first tier once.  When the
    numbers of the pools are distinct, the pools hold the five distinct
    front numbers and the two distinct back numbers of the draw, and the
    number of combinations is within the cap, the tickets
    [generate_complex_tickets] returns hold the draw itself, in ascending
    order; [calculate_prize] lists it as a first-tier winner, counts
    exactly one ticket in the first tier, and returns a total of at least
    10,000,000. *)
Theorem complex_pools_covering_the_draw (fronts backs pf pb : list Z) :
  NoDup fronts → NoDup backs → NoDup pf → NoDup pb →
  length pf = 5%nat → length pb = 2%nat →
  (∀ x, x ∈ pf → x ∈ fronts) → (∀ x, x ∈ pb → x ∈ backs) →
  comb (length fronts) 5 * comb (length backs) 2 ≤ 20000 →
  (sorted pf, sorted pb) ∈ (generate_complex_tickets fronts backs).1
  ∧ WinningDetail (sorted pf) (sorted pb) 1
    ∈ (calculate_prize (generate_complex_tickets fronts backs).1 pf pb).2
  ∧ (calculate_prize (generate_complex_tickets fronts backs).1 pf pb).1.2 !!! 1%nat
    = 1%nat
  ∧ 10000000
    ≤ (calculate_prize (generate_complex_tickets fronts backs).1 pf pb).1.1.
Proof.
  intros Hfronts Hbacks Hpf Hpb Hlf Hlb Hcf Hcb Hcap.
  assert (5 ≤ length fronts)%nat as H5.
  { rewrite <- Hlf. by apply submseteq_length, NoDup_submseteq. }
  assert (2 ≤ length backs)%nat as H2.
  { rewrite <- Hlb. by apply submseteq_length, NoDup_submseteq. }
  rewrite generate_complex_tickets_under_cap by done. cbn [fst].
  destruct (pool_covers fronts pf Hfronts Hpf Hcf) as (f & Hf & Hfl & Hfp).
  destruct (pool_covers backs pb Hbacks Hpb Hcb) as (b & Hb & Hbl & Hbp).
  assert ((sorted pf, sorted pb) ∈ expand_pool fronts backs) as Hin.
  { apply elem_of_expand_pool. exists f, b.
    rewrite !elem_of_combinations.
    split; [split; [done|lia]|]. split; [split; [done|lia]|].
    f_equal; symmetry; by apply sorted_eq_iff_perm. }
  assert (ticket_level pf pb (sorted pf, sorted pb) = Some 1%nat) as Hlevel.
  { apply ticket_level_first; rewrite ?length_sorted; try done.
    split; [done|]. split; [done|]. split; apply sorted_perm. }
  destruct (calculate_prize_components pf pb (expand_pool fronts backs))
    as (bd & -> & Hbd & _).
  cbn [fst snd]. split; [done|]. split; [|split].
  - apply list_elem_of_omap. exists (sorted pf, sorted pb). split; [done|].
    unfold ticket_detail. by rewrite Hlevel.
  - rewrite Hbd. unfold count_level.
    apply (filter_length_one _ _ (sorted pf, sorted pb));
      [by apply expand_pool_NoDup|done|done|].
    intros t' (f' & b' & Hf' & Hb' & ->)%elem_of_expand_pool Ht'.
    apply elem_of_combinations in Hf' as [_ Hf'l].
    apply elem_of_combinations in Hb' as [_ Hb'l].
    apply ticket_level_first in Ht' as (_ & _ & Hp1 & Hp2);
      rewrite ?length_sorted; try done.
    f_equal.
    + rewrite <- (sorted_id (sorted f')) by apply sorted_Sorted.
      by apply sorted_eq_iff_perm.
    + rewrite <- (sorted_id (sorted b')) by apply sorted_Sorted.
      by apply sorted_eq_iff_perm.
  - assert (ticket_prize pf pb (sorted pf, sorted pb) = 10000000) as <-.
    { unfold ticket_prize. rewrite Hlevel. apply PRIZE_TABLE_values. }
    apply Zsum_elem.
    + intros x (t & -> & _)%list_elem_of_fmap.
      pose proof (ticket_prize_range pf pb t) as Hr.
      destruct (ticket_detail pf pb t); lia.
    + apply list_elem_of_fmap. by exists (sorted pf, sorted pb).
Qed.

Lemma complex_pools_covering_the_draw_witness :
  WinningDetail [1; 2; 3; 4; 5] [6; 7] 1
  ∈ (calculate_prize
       (generate_complex_tickets [9; 5; 4; 3; 2; 1] [8; 7; 6]).1
       [1; 2; 3; 4; 5] [6; 7]).2.
Proof.
  refine (proj1 (proj2 (complex_pools_covering_the_draw
                          [9; 5; 4; 3; 2; 1] [8; 7; 6] [1; 2; 3; 4; 5] [6; 7]
                          _ _ _ _ eq_refl eq_refl _ _ _))).
  - apply (bool_decide_unpack _). vm_compute. exact I.
  - apply (bool_decide_unpack _). vm_compute. exact I.
  - apply (bool_decide_unpack _). vm_compute. exact I.
  - apply (bool_decide_unpack _). vm_compute. exact I.
  - intros x Hx. rewrite !elem_of_cons, elem_of_nil in Hx.
    rewrite !elem_of_cons. tauto.
  - intros x Hx. rewrite !elem_of_cons, elem_of_nil in Hx.
    rewrite !elem_of_cons. tauto.
  - vm_compute. discriminate.
Defined.

(** ** The fields [csv.reader] returns *)

(** The characters of the fields come from the lines. *)
Lemma csv_scan_chars (P : ascii → Prop) (s : list ascii) :
  Forall P s →
  ∀ mode cur fields,
    Forall P cur → Forall (Forall P) fields →
    Forall P (csv_scan mode cur fields s).1.2
    ∧ Forall (Forall P) (csv_scan mode cur fields s).2.
Proof.
  induction 1 as [|c s Hc Hs IH]; intros mode cur fields Hcur Hfields; [done|].
  assert (Forall P (c :: cur)) as Hcur' by (by constructor).
  assert (Forall (Forall P) (rev cur :: fields)) as Hfields'
    by (constructor; [by apply Forall_rev|done]).
  cbn [csv_scan].
  destruct (chr_code c =? 44)%nat; [by destruct mode; apply IH|].
  destruct (chr_code c =? 34)%nat; by destruct mode; apply IH.
Qed.

Lemma csv_records_chars (P : ascii → Prop) (lines : list (list ascii)) :
  Forall (Forall P) lines →
  ∀ mode cur fields,
    Forall P cur → Forall (Forall P) fields →
    Forall (Forall (Forall P)) (csv_records mode cur fields lines).
Proof.
  induction 1 as [|line lines Hline Hlines IH]; intros mode cur fields Hcur Hfields.
  - cbn [csv_records]. destruct mode; try constructor; [|constructor].
    apply Forall_rev. constructor; [by apply Forall_rev|done].
  - cbn [csv_records].
    destruct (csv_scan_chars P line Hline mode cur fields Hcur Hfields)
      as [Hc Hf].
    destruct (csv_scan mode cur fields line) as [[mode' cur'] fields'].
    cbn [fst snd] in Hc, Hf.
    assert (Forall (Forall P) (rev (rev cur' :: fields'))) as Hrow.
    { apply Forall_rev. constructor; [by apply Forall_rev|done]. }
    destruct mode';
      first [ by apply IH
            | constructor; [first [done|constructor] | by apply IH] ].
Qed.

(** No field of a row holds a line boundary. *)
Lemma csv_reader_fields (csv_content : list ascii) :
  Forall (Forall (Forall (λ c, is_line_boundary c = false)))
    (csv_reader csv_content).1.
Proof.
  destruct (csv_reader_rows csv_content) as (rest & Hrows & _).
  assert (Forall (Forall (Forall (λ c, is_line_boundary c = false)))
            (csv_records RecordStart [] [] (splitlines csv_content))) as H.
  { apply csv_records_chars; [|constructor|constructor].
    apply Forall_forall. intros line Hline.
    by apply (splitlines_go_lines (length csv_content) csv_content [] line)
      in Hline as [? _]; [|done|constructor]. }
  rewrite Hrows in H. by apply Forall_app in H as [H _].
Qed.

Lemma stored_period_digits (csv_content : list ascii) (r : row) (p : list ascii) :
  r ∈ data_rows csv_content → stored_period r = Some p →
  (4 ≤ length p ≤ 7)%nat ∧ Forall (λ c, is_digit c = true) p.
Proof.
  intros Hr Hp.
  assert (Forall (Forall (λ c, is_line_boundary c = false)) r) as Hfields.
  { pose proof (csv_reader_fields csv_content) as H.
    unfold data_rows in Hr. destruct (csv_reader csv_content).1 as [|h rows];
      [by apply elem_of_nil in Hr|].
    apply Forall_cons in H as [_ H]. by eapply Forall_forall in H. }
  unfold stored_period in Hp.
  destruct (read_row r) as [| | |p0 d f b] eqn:Hrow; try done.
  injection Hp as ->.
  apply read_row_stored in Hrow as (red & blue & tl & fs & bs & -> & Hpat & _).
  apply Forall_cons in Hfields as [Hnb _].
  apply period_pattern_shape in Hpat as (ds & tail & -> & Hds & Hlen & Htail).
  destruct Htail as [->| ->].
  - by rewrite app_nil_r.
  - apply Forall_app in Hnb as [_ Hnb]. apply Forall_cons in Hnb as [Hnb _].
    by vm_compute in Hnb.
Qed.

Lemma returned_periods_digits (csv_content : list ascii)
    (pm : gmap (list ascii) draw) (periods : list (list ascii)) (p : list ascii) :
  (get_period_data_from_csv csv_content).1 = Returned (Some (pm, periods)) →
  p ∈ periods →
  (4 ≤ length p ≤ 7)%nat ∧ Forall (λ c, is_digit c = true) p.
Proof.
  intros Hret Hp.
  apply returned_csv_loop in Hret as (_ & _ & _ & Hsort & _ & _).
  apply sorted_by_int_spec in Hsort as (Hperm & _ & _).
  rewrite Hperm in Hp. apply list_elem_of_omap in Hp as (r & Hr & Hs).
  by eapply stored_period_digits.
Qed.

(** X22 (get_period_data_from_csv, lines 93-133): every period the call
    returns, in the list and as a key of the map, consists of four to
    seven digits and of nothing else; the line feed that [$] would let
    pass at the end cannot be there, because the rows are read from
    [splitlines]. *)
Theorem get_period_data_from_csv_periods_are_numerals
    (csv_content : list ascii) (pm : gmap (list ascii) draw)
    (periods : list (list ascii)) :
  (get_period_data_from_csv csv_content).1 = Returned (Some (pm, periods)) →
  (∀ p, p ∈ periods →
        (4 ≤ length p ≤ 7)%nat ∧ Forall (λ c, is_digit c = true) p)
  ∧ (∀ p, is_Some (pm !! p) →
          (4 ≤ length p ≤ 7)%nat ∧ Forall (λ c, is_digit c = true) p).
Proof.
  intros Hret. split; intros p Hp.
  - by eapply returned_periods_digits.
  - eapply returned_periods_digits; [exact Hret|].
    by apply (returned_keys _ _ _ Hret).
Qed.

(** ** The characters of what [main_process] records *)

Lemma plain_forallb (s : list ascii) : forallb plain_char s = true → plain s.
Proof.
  unfold plain. induction s as [|c s IH]; simpl; [constructor|].
  intros [Hc Hs]%andb_prop. constructor; [done|by apply IH].
Qed.

Lemma plain_app (a b : list ascii) : plain a → plain b → plain (a ++ b).
Proof. intros Ha Hb. apply Forall_app. by split. Qed.

Lemma digit_plain (c : ascii) : is_digit c = true → plain_char c = true.
Proof. destruct c as [[] [] [] [] [] [] [] []]; vm_compute; done. Qed.

Lemma digits_plain (s : list ascii) :
  Forall (λ c, is_digit c = true) s → plain s.
Proof. intros H. eapply Forall_impl; [exact H|exact digit_plain]. Qed.

Lemma string_of_uint_plain (d : Decimal.uint) :
  plain (list_ascii_of_string (NilEmpty.string_of_uint d)).
Proof. induction d; simpl; constructor; done. Qed.

Lemma str_of_Z_plain (z : Z) : plain (str_of_Z z).
Proof.
  unfold str_of_Z, NilZero.string_of_int, NilZero.string_of_uint.
  destruct (Z.to_int z) as [d|d].
  - destruct d; try apply string_of_uint_plain. by repeat constructor.
  - simpl. constructor; [done|].
    destruct d; try apply string_of_uint_plain. by repeat constructor.
Qed.

Lemma group_thousands_plain (digits : list ascii) :
  plain digits → ∀ seen, plain (group_thousands digits seen).
Proof.
  induction 1 as [|d digits Hd Hds IH]; intros seen; [constructor|].
  cbn [group_thousands]. destruct digits as [|d' digits]; [by constructor|].
  destruct (seen =? 2)%nat; repeat (constructor; [done|]); apply IH.
Qed.

Lemma format_comma_plain (z : Z) : plain (format_comma z).
Proof.
  unfold format_comma. apply plain_app.
  - destruct (z <? 0); by repeat constructor.
  - apply Forall_rev, group_thousands_plain, Forall_rev, str_of_Z_plain.
Qed.

Lemma format_02d_plain (z : Z) : plain (format_02d z).
Proof.
  unfold format_02d. destruct ((0 <=? z) && (z <? 10)); [|apply str_of_Z_plain].
  apply plain_app; [by repeat constructor|apply str_of_Z_plain].
Qed.

Lemma repr_list_plain (l : list Z) : plain (repr_list l).
Proof.
  unfold repr_list. apply plain_app; [by repeat constructor|].
  apply plain_app; [|by repeat constructor].
  apply join_Forall; [by repeat constructor|].
  apply Forall_fmap, Forall_forall. intros z _. apply str_of_Z_plain.
Qed.

Lemma highlight_plain (prize : list Z) (x : Z) : plain (highlight prize x).
Proof.
  unfold highlight. destruct (bool_decide (x ∈ prize)); [|apply format_02d_plain].
  apply plain_app; [by repeat constructor|].
  apply plain_app; [apply format_02d_plain|by repeat constructor].
Qed.

Lemma format_winning_tickets_plain (winning_list : list winning_detail)
    (prize_front prize_back : list Z) :
  Forall plain (format_winning_tickets_for_report winning_list prize_front prize_back).
Proof.
  unfold format_winning_tickets_for_report.
  apply Forall_fmap, Forall_forall. intros t _. cbn [compose].
  assert (∀ prize nums, plain (join (str " ") (highlight prize <$> nums))) as Hj.
  { intros prize nums. apply join_Forall; [by repeat constructor|].
    apply Forall_fmap, Forall_forall. intros x _. apply highlight_plain. }
  repeat (apply plain_app;
          [first [apply Hj | apply str_of_Z_plain
                 | apply plain_forallb; vm_compute; reflexivity]|]).
  apply plain_forallb. vm_compute. reflexivity.
Qed.

Lemma format_breakdown_plain (bd : list (nat * nat)) : plain (format_breakdown bd).
Proof.
  unfold format_breakdown. apply join_Forall; [by repeat constructor|].
  apply Forall_fmap, Forall_forall. intros kv _. cbn [compose].
  apply plain_app; [apply str_of_Z_plain|].
  apply plain_app; [|apply str_of_Z_plain].
  apply plain_forallb. vm_compute. reflexivity.
Qed.

Lemma detail_lines_plain (prize : Z) (bd : list (nat * nat))
    (winners : list winning_detail) (prize_front prize_back : list Z)
    (none_text : string) :
  plain (str none_text) →
  Forall plain (detail_lines prize bd winners prize_front prize_back none_text).
Proof.
  intros Hnone. unfold detail_lines. destruct (0 <? prize); [|by repeat constructor].
  constructor; [|apply format_winning_tickets_plain].
  apply plain_app; [apply plain_forallb; vm_compute; reflexivity|].
  apply plain_app; [apply format_comma_plain|].
  apply plain_app; [apply plain_forallb; vm_compute; reflexivity|].
  apply format_breakdown_plain.
Qed.

Ltac plain_piece :=
  first [ assumption | apply Forall_nil_2 | apply repr_list_plain
        | apply format_comma_plain | apply str_of_Z_plain
        | apply plain_forallb; vm_compute; reflexivity ].

Ltac plain_line :=
  first [ plain_piece | apply plain_app; [plain_piece | plain_line] ].

(** The lines of an entry hold no [=] and no line boundary when the time
    stamp and the two periods hold none. *)
Lemma entry_text_chars (timestamp : list ascii) (e : report_entry) :
  plain timestamp → plain (eval_period e) → plain (report_cutoff_period e) →
  Forall (λ c, plain_char c = true ∨ c = "010"%char) (entry_text timestamp e).
Proof.
  intros Hts Hev Hcut. unfold entry_text.
  apply join_Forall; [by repeat constructor|].
  assert (∀ l, Forall plain l →
               Forall (Forall (λ c, plain_char c = true ∨ c = "010"%char)) l) as Hl.
  { intros l Hall. eapply Forall_impl; [exact Hall|]. intros s Hs.
    eapply Forall_impl; [exact Hs|]. by left. }
  apply Hl. repeat (apply Forall_app; split).
  - repeat (apply Forall_cons_2;
            [plain_line|]).
    apply Forall_nil_2.
  - apply detail_lines_plain. plain_piece.
  - repeat (apply Forall_cons_2; [plain_piece|]). apply Forall_nil_2.
  - apply detail_lines_plain. plain_piece.
Qed.

(** A text that does not hold the first character of another does not
    hold the other. *)
Lemma contains_first_char (c0 : ascii) (sub s : list ascii) :
  Forall (λ c, c ≠ c0) s → contains (c0 :: sub) s = false.
Proof.
  induction 1 as [|c s Hc _ IH]; [done|]. cbn [contains starts_with].
  rewrite IH, orb_false_r. apply andb_false_intro1.
  apply Ascii.eqb_neq. by intros ->.
Qed.

Lemma plain_char_line_feed (c : ascii) :
  plain_char c = true ∨ c = "010"%char →
  c ≠ "="%char ∧ chr_code c ≠ 13%nat.
Proof.
  intros [H| ->]; [|by vm_compute].
  destruct c as [[] [] [] [] [] [] [] []]; vm_compute in H |- *;
    first [discriminate H | by split].
Qed.

Lemma entry_text_writable (timestamp : list ascii) (e : report_entry) :
  plain timestamp → plain (eval_period e) → plain (report_cutoff_period e) →
  entry_writable (entry_text timestamp e).
Proof.
  intros Hts Hev Hcut.
  pose proof (entry_text_chars timestamp e Hts Hev Hcut) as H.
  assert (Forall (λ c, c ≠ "="%char) (entry_text timestamp e)) as Heq
    by (eapply Forall_impl; [exact H|]; by intros c [? _]%plain_char_line_feed).
  split; [|split].
  - by apply (contains_first_char "="%char (replicate 19 "="%char)).
  - by apply (contains_first_char "="%char (str "=== 错误日志 ====")).
  - eapply Forall_impl; [exact H|]. by intros c [_ ?]%plain_char_line_feed.
Qed.

Lemma plain_char_spec (c : ascii) :
  plain_char c = true → c ≠ "="%char ∧ is_line_boundary c = false.
Proof.
  destruct c as [[] [] [] [] [] [] [] []]; vm_compute; intros H;
    first [discriminate H | by split].
Qed.

(** An error line is stripped and free of the marker and of line
    boundaries when the time stamp and the message are plain and the
    message does not end with white space. *)
Lemma error_line_ok (timestamp init : list ascii) (last : ascii) :
  plain timestamp → plain (init ++ [last]) → is_space last = false →
  error_ok (error_line timestamp (init ++ [last])).
Proof.
  intros Hts Hmsg Hlast. unfold error_line.
  assert (plain (str "[" ++ timestamp ++ str "] " ++ init ++ [last])) as Hp.
  { apply plain_app; [by repeat constructor|]. apply plain_app; [done|].
    apply plain_app; [by repeat constructor|done]. }
  set (m := str "[" ++ timestamp ++ str "] " ++ init ++ [last]) in *.
  split; [|split; [|split]].
  - rewrite <- (app_nil_r m) at 1. apply (strip_unique [] m []).
    + constructor.
    + constructor.
    + intros c t H. unfold m in H. simpl in H. by injection H as <- _.
    + intros c t H. unfold m in H. rewrite !app_assoc in H.
      apply app_inj_tail in H as [_ <-]. done.
    + done.
  - done.
  - apply (contains_first_char "="%char (str "=== 错误日志 ====")).
    eapply Forall_impl; [exact Hp|]. by intros c [? _]%plain_char_spec.
  - eapply Forall_impl; [exact Hp|]. by intros c [_ ?]%plain_char_spec.
Qed.

(** The messages of [main_process]: a fixed text, a parameter, a fixed
    text. *)
Lemma message_ok (timestamp a p b : list ascii) (last : ascii) :
  plain timestamp → plain a → plain p → plain (b ++ [last]) →
  is_space last = false →
  error_ok (error_line timestamp (a ++ p ++ b ++ [last])).
Proof.
  intros Hts Ha Hp Hb Hlast. rewrite !app_assoc. apply error_line_ok; [done| |done].
  rewrite <- !app_assoc. apply plain_app; [done|]. by apply plain_app.
Qed.

Lemma csv_unreadable_error_ok (timestamp : list ascii) :
  plain timestamp → error_ok (error_line timestamp csv_unreadable_error).
Proof.
  intros Hts.
  assert (csv_unreadable_error
          = str "无法读取或未找到CSV数据文件: " ++ [] ++ str "daletou.cs" ++ ["v"%char])
    as -> by reflexivity.
  apply message_ok; [done|plain_piece|constructor|plain_piece|done].
Qed.

Lemma csv_insufficient_error_ok (timestamp : list ascii) :
  plain timestamp → error_ok (error_line timestamp csv_insufficient_error).
Proof.
  intros Hts.
  assert (csv_insufficient_error
          = [] ++ [] ++ removelast csv_insufficient_error ++ ["130"%char])
    as -> by (vm_compute; reflexivity).
  apply message_ok; [done|constructor|constructor|plain_piece|done].
Qed.

Lemma report_missing_error_ok (timestamp cutoff : list ascii) :
  plain timestamp → plain cutoff →
  error_ok (error_line timestamp (report_missing_error cutoff)).
Proof.
  intros Hts Hc. unfold report_missing_error.
  assert (str " 的分析报告。"
          = removelast (str " 的分析报告。") ++ ["130"%char])
    as -> by (vm_compute; reflexivity).
  apply message_ok; [done|plain_piece|done|plain_piece|done].
Qed.

Lemma no_bets_error_ok (timestamp path : list ascii) :
  plain timestamp → plain (basename path) →
  error_ok (error_line timestamp (no_bets_error path)).
Proof.
  intros Hts Hc. unfold no_bets_error.
  assert (str " 中解析出任何有效投注。"
          = removelast (str " 中解析出任何有效投注。") ++ ["130"%char])
    as -> by (vm_compute; reflexivity).
  apply message_ok; [done|plain_piece|done|plain_piece|done].
Qed.

(** ** What a run records can be written *)

Lemma main_process_error_ok (read_file : list ascii → option (list ascii))
    (report_paths : list (list ascii)) (msg timestamp : list ascii) :
  RecordError msg ∈ (main_process read_file report_paths).2 →
  (∀ path, path ∈ report_paths → plain (basename path)) →
  plain timestamp →
  msg ≠ [] ∧ error_ok (error_line timestamp msg).
Proof.
  intros Hin Hnames Hts.
  destruct (main_process_calls read_file report_paths) as [_ Hcalls].
  destruct Hcalls as [H|[H|[(csv & pm & periods & cutoff & _ & Hget & Hc & H)
                            |[[e H]|(path & e & Hpath & H)]]]];
    rewrite H in Hin;
    repeat (apply elem_of_cons in Hin as [Hin|Hin]);
    try (by apply elem_of_nil in Hin); try discriminate Hin;
    injection Hin as ->.
  - split; [done|by apply csv_unreadable_error_ok].
  - split; [done|by apply csv_insufficient_error_ok].
  - split; [done|]. apply report_missing_error_ok; [done|].
    apply digits_plain. by eapply returned_periods_digits.
  - split; [done|]. apply no_bets_error_ok; [done|by apply Hnames].
Qed.

Lemma recorded_entry_plain (read_file : list ascii → option (list ascii))
    (report_paths : list (list ascii)) (e : report_entry) :
  recorded_entry (main_process read_file report_paths).2 = Some e →
  plain (eval_period e) ∧ plain (report_cutoff_period e).
Proof.
  intros (csv_content & pm & periods & _ & _ & _ & _ & Hget & Hsplit
          & _)%main_process_entry_inv.
  split; apply digits_plain;
    eapply (returned_periods_digits _ _ _ _ Hget);
    rewrite Hsplit, elem_of_app, !elem_of_cons; tauto.
Qed.

Lemma main_process_entry_last (read_file : list ascii → option (list ascii))
    (report_paths : list (list ascii)) (e : report_entry) :
  RecordEntry e ∈ (main_process read_file report_paths).2 →
  recorded_entry (main_process read_file report_paths).2 = Some e.
Proof.
  intros Hin.
  destruct (main_process_calls read_file report_paths) as [_ Hcalls].
  destruct Hcalls as [H|[H|[(csv & pm & periods & cutoff & _ & _ & _ & H)
                            |[[e' H]|(path & e' & _ & H)]]]];
    rewrite H in Hin |- *;
    repeat (apply elem_of_cons in Hin as [Hin|Hin]);
    try (by apply elem_of_nil in Hin); try discriminate Hin;
    by injection Hin as ->.
Qed.

Lemma main_process_call_ok (read_file : list ascii → option (list ascii))
    (report_paths : list (list ascii)) (timestamp : list ascii)
    (call : report_call) :
  call ∈ (main_process read_file report_paths).2 →
  (∀ path, path ∈ report_paths → plain (basename path)) →
  plain timestamp →
  call_ok timestamp call.
Proof.
  intros Hin Hnames Hts. destruct call as [msg|e]; cbn [call_ok].
  - intros _. by eapply main_process_error_ok.
  - apply main_process_entry_last, recorded_entry_plain in Hin as [? ?].
    by apply entry_text_writable.
Qed.

(** ** The report file from call to call *)

Lemma record_call_reads (content timestamp : list ascii) (call : report_call) :
  call_ok timestamp call →
  read_normal_entries (universal_newlines (record_call content timestamp call))
  = tail (updated_entries (universal_newlines content) timestamp
            match call with RecordEntry e => Some e | _ => None end)
  ∧ read_error_entries (universal_newlines (record_call content timestamp call))
    = updated_errors (universal_newlines content) timestamp
        match call with RecordError msg => Some msg | _ => None end.
Proof.
  intros Hok.
  set (new_entry := match call with RecordEntry e => Some e | _ => None end).
  set (new_error := match call with RecordError msg => Some msg | _ => None end).
  assert (record_call content timestamp call
          = manage_report (universal_newlines content) timestamp new_entry new_error)
    as -> by (by destruct call).
  assert (∀ e, new_entry = Some e → entry_writable (entry_text timestamp e))
    as Hentry by (destruct call; intros e' [= <-]; exact Hok).
  assert (∀ c msg, new_error = Some (c :: msg) →
                   error_ok (str "[" ++ timestamp ++ str "] " ++ c :: msg))
    as Herror.
  { destruct call as [m|]; intros c msg [= ->]. by apply Hok. }
  destruct (updated_entries_ok content timestamp new_entry Hentry) as [Hns Htl].
  pose proof (updated_errors_ok content timestamp new_error Herror) as Hes.
  unfold manage_report.
  rewrite universal_newlines_id by (by apply render_report_free).
  by rewrite render_read_errors, render_read_entries.
Qed.

Lemma take_app_take {A} (n : nat) (a b : list A) :
  take n (a ++ take n b) = take n (a ++ b).
Proof.
  rewrite !take_app, take_take. do 2 f_equal. lia.
Qed.

Lemma logged_lines_cons (tc : list ascii * report_call)
    (calls : list (list ascii * report_call)) (y : list ascii) :
  take MAX_ERROR_LOGS
    (logged_lines calls
     ++ updated_errors y tc.1 match tc.2 with RecordError msg => Some msg | _ => None end)
  = take MAX_ERROR_LOGS
      (logged_lines (tc :: calls) ++ read_error_entries y).
Proof.
  unfold updated_errors. rewrite take_app_take. f_equal.
  unfold logged_lines. cbn [omap list_omap].
  destruct tc as [ts [[|c msg]|e]]; cbn [fst snd rev]; try done.
  by rewrite <- app_assoc.
Qed.

Lemma report_file_after_entries (calls : list (list ascii * report_call)) :
  ∀ content,
    Forall (λ tc, call_ok tc.1 tc.2) calls →
    read_normal_entries (universal_newlines (report_file_after content calls))
    `sublist_of` read_normal_entries (universal_newlines content).
Proof.
  induction calls as [|tc calls IH]; intros content Hok; [done|].
  apply Forall_cons in Hok as [Htc Hok]. cbn [report_file_after foldl].
  etrans; [by apply IH|].
  destruct (record_call_reads content tc.1 tc.2 Htc) as [-> _].
  unfold updated_entries. destruct tc.2 as [msg|e].
  - etrans; [apply (sublist_drop _ 1)|apply sublist_take].
  - cbn [MAX_NORMAL_RECORDS take tail]. apply sublist_take.
Qed.

Lemma report_file_after_errors (calls : list (list ascii * report_call)) :
  ∀ content,
    Forall (λ tc, call_ok tc.1 tc.2) calls → calls ≠ [] →
    read_error_entries (universal_newlines (report_file_after content calls))
    = take MAX_ERROR_LOGS
        (logged_lines calls ++ read_error_entries (universal_newlines content)).
Proof.
  induction calls as [|tc calls IH]; intros content Hok Hne; [done|].
  apply Forall_cons in Hok as [Htc Hok]. cbn [report_file_after foldl].
  destruct (record_call_reads content tc.1 tc.2 Htc) as [_ Herr].
  destruct calls as [|tc' calls].
  - cbn [foldl]. rewrite Herr, <- (logged_lines_cons tc []).
    cbn [logged_lines omap list_omap rev app]. unfold updated_errors.
    by rewrite take_take, Nat.min_id.
  - rewrite IH by done. rewrite Herr. apply logged_lines_cons.
Qed.

Lemma run_calls_ok (r : run) :
  (∀ k, plain (run_now r k)) →
  (∀ path, path ∈ run_report_paths r → plain (basename path)) →
  Forall (λ tc, call_ok tc.1 tc.2) (run_calls r).
Proof.
  intros Hnow Hnames. apply Forall_forall. intros tc Hin.
  apply elem_of_lookup_imap_1 in Hin as (k & call & -> & Hk).
  cbn [fst snd]. eapply main_process_call_ok; [|done|done].
  by eapply list_elem_of_lookup_2.
Qed.

Lemma sample_names_plain (path : list ascii) :
  path ∈ sample_report_paths → plain (basename path).
Proof.
  revert path. apply Forall_forall.
  repeat (apply Forall_cons_2; [apply plain_forallb; vm_compute; reflexivity|]).
  apply Forall_nil_2.
Qed.

(** X23 (main_process and manage_report): the entry a run records is lost
    at the next call.  The text of the entry [main_process] passes to
    [manage_report] holds no [=] and no carriage return when the time
    stamp holds none: the periods are digits, and the rest are numbers and
    fixed texts.  So, whatever the file held before, the next call reads
    from the file written with this entry the nine first of the older
    entries, and not the new one; the error lines are those of before. *)
Theorem main_process_entry_not_read_back
    (read_file : list ascii → option (list ascii))
    (report_paths : list (list ascii)) (e : report_entry)
    (written timestamp : list ascii) :
  recorded_entry (main_process read_file report_paths).2 = Some e →
  plain timestamp →
  entry_writable (entry_text timestamp e)
  ∧ read_normal_entries
      (universal_newlines
         (manage_report (universal_newlines written) timestamp (Some e) None))
    = take 9 (read_normal_entries (universal_newlines written))
  ∧ read_error_entries
      (universal_newlines
         (manage_report (universal_newlines written) timestamp (Some e) None))
    = take MAX_ERROR_LOGS (read_error_entries (universal_newlines written)).
Proof.
  intros Hrec Hts. destruct (recorded_entry_plain _ _ _ Hrec) as [Hev Hcut].
  pose proof (entry_text_writable timestamp e Hts Hev Hcut) as Hw.
  split; [done|].
  destruct (record_call_reads written timestamp (RecordEntry e) Hw) as [Hn He].
  cbn [record_call] in Hn, He. by rewrite Hn, He.
Qed.

(** X24 (main_process and manage_report): the errors a run records are
    read back.  Each of the messages [main_process] passes to
    [manage_report] is not empty and makes one line that is stripped and
    holds neither the error marker nor a line boundary, when the time
    stamp and the names of the report files hold no [=] and no line
    boundary.  So the next call reads this line before the older ones, at
    most twenty in all; and the call has removed the first of the entries
    that the file held. *)
Theorem main_process_errors_read_back
    (read_file : list ascii → option (list ascii))
    (report_paths : list (list ascii)) (msg written timestamp : list ascii) :
  RecordError msg ∈ (main_process read_file report_paths).2 →
  (∀ path, path ∈ report_paths → plain (basename path)) →
  plain timestamp →
  msg ≠ []
  ∧ error_ok (error_line timestamp msg)
  ∧ read_error_entries
      (universal_newlines
         (manage_report (universal_newlines written) timestamp None (Some msg)))
    = take MAX_ERROR_LOGS
        (error_line timestamp msg
         :: read_error_entries (universal_newlines written))
  ∧ read_normal_entries
      (universal_newlines
         (manage_report (universal_newlines written) timestamp None (Some msg)))
    = tail (take MAX_NORMAL_RECORDS
              (read_normal_entries (universal_newlines written))).
Proof.
  intros Hin Hnames Hts.
  destruct (main_process_error_ok _ _ _ timestamp Hin Hnames Hts) as [Hne Hok].
  split; [done|]. split; [done|].
  destruct (record_call_reads written timestamp (RecordError msg) (λ _, Hok))
    as [Hn He].
  cbn [record_call] in Hn, He. rewrite Hn, He.
  unfold updated_errors, updated_entries. by destruct msg.
Qed.

(** X25 (manage_report, lines 307-371): a sequence of calls.  When every
    entry recorded holds neither the rule nor the error marker nor a
    carriage return, and every error line is stripped and holds neither
    the error marker nor a line boundary, then after the calls the entries
    that can be read from the file are among those that could be read
    before the first call, in the same order: none of the entries recorded
    by the calls is read again, and a file that had no entry to read has
    none after any number of calls.  The error lines read after the calls
    are the twenty first of the lines of the calls, newest first, followed
    by the lines read before. *)
Theorem manage_report_call_sequence (content : list ascii)
    (calls : list (list ascii * report_call)) :
  Forall (λ tc, call_ok tc.1 tc.2) calls →
  read_normal_entries (universal_newlines (report_file_after content calls))
  `sublist_of` read_normal_entries (universal_newlines content)
  ∧ (read_normal_entries (universal_newlines content) = [] →
     read_normal_entries (universal_newlines (report_file_after content calls))
     = [])
  ∧ (calls ≠ [] →
     read_error_entries (universal_newlines (report_file_after content calls))
     = take MAX_ERROR_LOGS
         (logged_lines calls ++ read_error_entries (universal_newlines content))).
Proof.
  intros Hok. pose proof (report_file_after_entries calls content Hok) as Hsub.
  split; [done|]. split.
  - intros Hnil. rewrite Hnil in Hsub. by apply sublist_nil_r.
  - by apply report_file_after_errors.
Qed.

(** X26 (main_process and manage_report): the report file keeps no
    history of the runs.  Start without a report file and run the script
    any number of times, on any draw files and report files; the time
    stamps and the names of the report files hold no [=] and no line
    boundary.  Then the next call of [manage_report] reads no entry from
    the file, so the file it writes holds at most the entry of that call,
    although [MAX_NORMAL_RECORDS] is ten; and it reads the error lines of
    all the runs, newest first, up to twenty. *)
Theorem runs_keep_no_history (runs : list run) :
  Forall (λ r, (∀ k, plain (run_now r k))
               ∧ (∀ path, path ∈ run_report_paths r → plain (basename path)))
    runs →
  read_normal_entries
    (universal_newlines (report_file_after [] (concat (run_calls <$> runs))))
  = []
  ∧ read_error_entries
      (universal_newlines (report_file_after [] (concat (run_calls <$> runs))))
    = take MAX_ERROR_LOGS (logged_lines (concat (run_calls <$> runs)))
  ∧ (∀ timestamp e,
       updated_entries
         (universal_newlines (report_file_after [] (concat (run_calls <$> runs))))
         timestamp (Some e)
       = [entry_text timestamp e]).
Proof.
  intros Hruns.
  assert (Forall (λ tc, call_ok tc.1 tc.2) (concat (run_calls <$> runs))) as Hok.
  { apply Forall_concat, Forall_fmap.
    eapply Forall_impl; [exact Hruns|]. intros r [Hnow Hnames]. cbn [compose].
    by apply run_calls_ok. }
  pose proof (report_file_after_entries _ [] Hok) as Hsub.
  apply sublist_nil_r in Hsub.
  split; [done|]. split.
  - destruct (concat (run_calls <$> runs)) as [|tc calls] eqn:E; [done|].
    rewrite report_file_after_errors by done. by rewrite app_nil_r.
  - intros timestamp e. unfold updated_entries. by rewrite Hsub.
Qed.

Lemma manage_report_call_sequence_witness :
  read_normal_entries
    (universal_newlines
       (report_file_after report_with_twenty_errors
          [(sample_timestamp, RecordEntry sample_entry);
           (sample_timestamp, RecordError (str "a new error"))]))
  `sublist_of` read_normal_entries (universal_newlines report_with_twenty_errors).
Proof.
  refine (proj1 (manage_report_call_sequence report_with_twenty_errors
                   [(sample_timestamp, RecordEntry sample_entry);
                    (sample_timestamp, RecordError (str "a new error"))] _)).
  apply Forall_cons_2; [|apply Forall_cons_2; [|apply Forall_nil_2]].
  - cbn [call_ok fst snd]. unfold entry_writable.
    apply (bool_decide_unpack _); vm_compute; exact I.
  - cbn [call_ok fst snd]. intros _. unfold error_ok.
    apply (bool_decide_unpack _); vm_compute; exact I.
Defined.

(** ** A row that the reader cannot read *)

Lemma char_count_replicate (n : nat) :
  char_count (replicate n "a"%char) = Z.of_nat n.
Proof.
  unfold char_count.
  assert (∀ k, foldl (λ n c, if is_continuation c then n else n + 1) k
                 (replicate n "a"%char) = k + Z.of_nat n) as H.
  { induction n as [|n IH]; intros k; [simpl; lia|].
    cbn [replicate foldl]. rewrite IH.
    change (is_continuation "a"%char) with false. lia. }
  by rewrite H.
Qed.

(** A line without comma and quote mark, read outside a quoted field, goes
    to the field being read. *)
Lemma csv_scan_letters (s : list ascii) :
  Forall (λ c, (chr_code c =? 44)%nat = false ∧ (chr_code c =? 34)%nat = false) s →
  s ≠ [] →
  ∀ mode cur fields,
    mode ≠ InQuoted →
    csv_scan mode cur fields s = (InField, rev s ++ cur, fields).
Proof.
  induction 1 as [|c s [Hc1 Hc2] Hs IH]; intros Hne mode cur fields Hmode;
    [done|].
  cbn [csv_scan]. rewrite Hc1, Hc2.
  assert (csv_scan InField (c :: cur) fields s
          = (InField, rev (c :: s) ++ cur, fields)) as Hgo.
  { destruct s as [|c' s'].
    - reflexivity.
    - rewrite IH by done. cbn [rev]. by rewrite <- !app_assoc. }
  by destruct mode.
Qed.

Lemma csv_with_long_field_rows (n : nat) :
  (0 < n)%nat →
  csv_records RecordStart [] [] (splitlines (csv_with_long_field n))
  = [ [str "period"; str "date"; str "front"; str "back"];
      [str "2024001"; str "2024-01-01"; str "1,2,3,4,5"; str "1,2"];
      [replicate n "a"%char] ].
Proof.
  intros Hn. unfold csv_with_long_field, csv_text.
  rewrite splitlines_join.
  - cbn [csv_records].
    assert (csv_scan RecordStart [] [] (str "period,date,front,back")
            = (InField, rev (str "back"),
               [str "front"; str "date"; str "period"])) as ->
      by (vm_compute; reflexivity).
    assert (csv_scan RecordStart [] []
              (csv_record "2024001" "2024-01-01" "1,2,3,4,5" "1,2")
            = (QuoteInQuoted, rev (str "1,2"),
               [str "1,2,3,4,5"; str "2024-01-01"; str "2024001"])) as ->
      by (vm_compute; reflexivity).
    rewrite (csv_scan_letters (replicate n "a"%char)).
    + rewrite app_nil_r, !rev_involutive. reflexivity.
    + apply Forall_replicate. by split.
    + destruct n; [lia|done].
    + done.
  - repeat (apply Forall_cons_2;
            [split; [by destruct n; [lia|]
                    | first [ apply Forall_replicate; reflexivity
                            | apply (bool_decide_unpack _); vm_compute; exact I ]]
            |]).
    apply Forall_nil_2.
Qed.

(** X27 (get_period_data_from_csv, lines 110-127): the handler of line 125
    is reached, and it drops the rows already stored.  In a file with a
    valid record followed by a line of more than 131072 letters, the
    reader yields the header and the valid record and raises at the long
    field: the call returns (None, None) after the error message, on
    every interpreter, although the same file with a shorter last line
    gives the period of the valid record. *)
Theorem unreadable_row_drops_the_stored_rows (n : nat) :
  field_size_limit < Z.of_nat n →
  csv_reader (csv_with_long_field n)
  = ([ [str "period"; str "date"; str "front"; str "back"];
       [str "2024001"; str "2024-01-01"; str "1,2,3,4,5"; str "1,2"] ], true)
  ∧ stored_period [str "2024001"; str "2024-01-01"; str "1,2,3,4,5"; str "1,2"]
    = Some (str "2024001")
  ∧ get_period_data_from_csv (csv_with_long_field n)
    = (Returned None, [(ERROR, CsvParseError)])
  ∧ returned_periods (get_period_data_from_csv (csv_with_long_field 3))
    = Some [str "2024001"].
Proof.
  intros Hn.
  assert (csv_reader (csv_with_long_field n)
          = ([ [str "period"; str "date"; str "front"; str "back"];
               [str "2024001"; str "2024-01-01"; str "1,2,3,4,5"; str "1,2"] ],
             true)) as Hread.
  { unfold csv_reader. rewrite csv_with_long_field_rows
      by (unfold field_size_limit in Hn; lia).
    cbn [rows_until_error].
    assert (row_readable [str "period"; str "date"; str "front"; str "back"]
            = true) as -> by (vm_compute; reflexivity).
    assert (row_readable
              [str "2024001"; str "2024-01-01"; str "1,2,3,4,5"; str "1,2"]
            = true) as -> by (vm_compute; reflexivity).
    assert (row_readable [replicate n "a"%char] = false) as ->; [|done].
    apply row_readable_false. exists (replicate n "a"%char).
    split; [left|]. left. by rewrite char_count_replicate. }
  split; [done|]. split; [by vm_compute|]. split; [|by vm_compute].
  unfold get_period_data_from_csv. rewrite Hread.
  assert (csv_with_long_field n ≠ []) as Hne by done.
  destruct (csv_with_long_field n) as [|c s]; [done|].
  by vm_compute.
Qed.

End Interpreter.

(** * The theorems at sample files

    The interpreter is Python 3.11. *)

(** C5, counterexample to the claim as stated: in this file the second
    record has the front number 99 and the third a period of two digits;
    both rows are skipped, the first is stored, and no warning is
    recorded. *)
Lemma malformed_rows_without_warning :
  read_row <$> data_rows Python311 csv_with_malformed_rows
  = [RowStored (str "2024001") (str "2024-01-01") [1; 2; 3; 4; 5] [1; 2];
     RowDropped; RowPassedOver]
  ∧ returned_periods (get_period_data_from_csv Python311 csv_with_malformed_rows)
    = Some [str "2024001"]
  ∧ (get_period_data_from_csv Python311 csv_with_malformed_rows).2 = [].
Proof. repeat split; vm_compute; reflexivity. Qed.

(** The theorem at a file whose records are out of order: the periods come
    back in the order of their values. *)
Lemma get_period_data_from_csv_numeric_order_witness :
  returned_periods (get_period_data_from_csv Python311 csv_out_of_order)
  = Some [str "10003"; str "2024001"; str "2024002"]
  ∧ [str "10003"; str "2024001"; str "2024002"]
    ≡ₚ omap stored_period (data_rows Python311 csv_out_of_order).
Proof.
  assert (H : returned_periods (get_period_data_from_csv Python311 csv_out_of_order)
              = Some [str "10003"; str "2024001"; str "2024002"])
    by (vm_compute; reflexivity).
  split; [exact H|].
  exact (proj1 (get_period_data_from_csv_numeric_order Python311 csv_out_of_order _ H)).
Defined.

(** C6, counterexample to the claim as stated: the periods 0100 and 00100
    are both stored and both denote 100; 0100 stands before 00100 in the
    returned list although its value is not the smaller one. *)
Lemma equal_values_keep_file_order :
  returned_periods (get_period_data_from_csv Python311 csv_equal_values)
  = Some [str "0100"; str "00100"]
  ∧ py_int (str "0100") = Some 100
  ∧ py_int (str "00100") = Some 100
  ∧ ¬ (∀ pl i j p q a b,
         returned_periods (get_period_data_from_csv Python311 csv_equal_values) = Some pl →
         pl !! i = Some p → pl !! j = Some q →
         py_int p = Some a → py_int q = Some b →
         ((i < j)%nat ↔ a < b)).
Proof.
  assert (H : returned_periods (get_period_data_from_csv Python311 csv_equal_values)
              = Some [str "0100"; str "00100"])
    by (vm_compute; reflexivity).
  assert (Hp : py_int (str "0100") = Some 100) by (vm_compute; reflexivity).
  assert (Hq : py_int (str "00100") = Some 100) by (vm_compute; reflexivity).
  split; [exact H|]. split; [exact Hp|]. split; [exact Hq|].
  intros Hiff.
  assert (H0 : [str "0100"; str "00100"] !! 0%nat = Some (str "0100"))
    by reflexivity.
  assert (H1 : [str "0100"; str "00100"] !! 1%nat = Some (str "00100"))
    by reflexivity.
  destruct (Hiff _ 0%nat 1%nat _ _ 100 100 H H0 H1 Hp Hq) as [Hlt _].
  specialize (Hlt ltac:(lia)). lia.
Qed.

Lemma get_period_data_from_csv_keys_witness :
  ∃ pm periods,
    (get_period_data_from_csv Python311 csv_out_of_order).1 = Returned (Some (pm, periods))
    ∧ periods ≠ [] ∧ dom pm = list_to_set periods.
Proof.
  assert (returned_periods (get_period_data_from_csv Python311 csv_out_of_order)
          = Some [str "10003"; str "2024001"; str "2024002"]) as Hv
    by (vm_compute; reflexivity).
  unfold returned_periods in Hv.
  destruct (get_period_data_from_csv Python311 csv_out_of_order) as [r log] eqn:E.
  cbn [fst] in Hv |- *.
  destruct r as [[[pm pl]|]|]; [|discriminate Hv|discriminate Hv].
  exists pm, pl. split; [reflexivity|].
  assert ((get_period_data_from_csv Python311 csv_out_of_order).1
          = Returned (Some (pm, pl))) as Hret by (rewrite E; reflexivity).
  destruct (get_period_data_from_csv_keys Python311 csv_out_of_order pm pl Hret)
    as (H1 & _ & H3 & _).
  split; [exact H1 | exact H3].
Defined.

Lemma get_period_data_from_csv_last_row_wins_witness :
  ∃ pm, returned_map (get_period_data_from_csv Python311 csv_repeated_period) = Some pm
        ∧ pm !! str "2024002"
          = Some (Draw (str "2024-01-04") [7; 8; 9; 10; 11] [3; 4]).
Proof.
  assert (returned_periods (get_period_data_from_csv Python311 csv_repeated_period)
          = Some [str "2024001"; str "2024002"; str "2024002"]) as Hv
    by (vm_compute; reflexivity).
  assert (data_rows Python311 csv_repeated_period
          = take 2 (data_rows Python311 csv_repeated_period)
            ++ [str "2024002"; str "2024-01-04"; str "7,8,9,10,11"; str "3,4"]
               :: []) as Hrows by (vm_compute; reflexivity).
  assert (read_row [str "2024002"; str "2024-01-04"; str "7,8,9,10,11"; str "3,4"]
          = RowStored (str "2024002") (str "2024-01-04") [7; 8; 9; 10; 11] [3; 4])
    as Hrow by (vm_compute; reflexivity).
  unfold returned_periods in Hv. unfold returned_map.
  destruct (get_period_data_from_csv Python311 csv_repeated_period) as [r log] eqn:E.
  cbn [fst] in Hv |- *.
  destruct r as [[[pm pl]|]|]; [|discriminate Hv|discriminate Hv].
  exists pm. split; [reflexivity|].
  apply (get_period_data_from_csv_last_row_wins Python311 csv_repeated_period pm
           (take 2 (data_rows Python311 csv_repeated_period)) []
           [str "2024002"; str "2024-01-04"; str "7,8,9,10,11"; str "3,4"]).
  - unfold returned_map. rewrite E. reflexivity.
  - exact Hrows.
  - exact Hrow.
  - intros r' Hr'. exfalso. exact (proj1 (elem_of_nil r') Hr').
Defined.

Lemma main_process_entry_periods_witness :
  ∃ csv_content rest,
    sample_read_file CSV_FILE = Some csv_content
    ∧ omap stored_period (data_rows Python311 csv_content)
      ≡ₚ rest ++ [str "2024001"; str "2024002"].
Proof.
  assert (∃ e, recorded_entry (main_process Python311 sample_read_file sample_report_paths).2
               = Some e
               ∧ report_cutoff_period e = str "2024001"
               ∧ eval_period e = str "2024002") as (e & He & Hc & Hv).
  { destruct (recorded_entry (main_process Python311 sample_read_file sample_report_paths).2)
      as [e|] eqn:E.
    - exists e. split; [reflexivity|].
      assert (((λ e, (report_cutoff_period e, eval_period e))
               <$> recorded_entry
                     (main_process Python311 sample_read_file sample_report_paths).2)
              = Some (str "2024001", str "2024002")) as H
        by (vm_compute; reflexivity).
      rewrite E in H. simpl in H. injection H as -> ->. split; reflexivity.
    - exfalso.
      assert (is_Some (recorded_entry
                         (main_process Python311 sample_read_file sample_report_paths).2))
        as [e He]; [|congruence].
      assert (((λ e, (report_cutoff_period e, eval_period e))
               <$> recorded_entry
                     (main_process Python311 sample_read_file sample_report_paths).2)
              = Some (str "2024001", str "2024002")) as H
        by (vm_compute; reflexivity).
      rewrite E in H. discriminate H. }
  destruct (main_process_entry_periods Python311 sample_read_file sample_report_paths e He)
    as (csv_content & rest & _ & _ & H1 & H2 & _).
  exists csv_content, rest. rewrite Hc, Hv in H2. split; [exact H1 | exact H2].
Defined.

Lemma main_process_entry_scores_witness :
  ∃ report_path report_content,
    find_matching_report
      ((λ p, (p, sample_read_file p)) <$> sample_report_paths) (str "2024001")
    = Some report_path
    ∧ sample_read_file report_path = Some report_content
    ∧ declared_period report_content = Some (str "2024001").
Proof.
  assert (∃ e, recorded_entry (main_process Python311 sample_read_file sample_report_paths).2
               = Some e
               ∧ report_cutoff_period e = str "2024001") as (e & He & Hc).
  { destruct (recorded_entry (main_process Python311 sample_read_file sample_report_paths).2)
      as [e|] eqn:E.
    - exists e. split; [reflexivity|].
      assert ((report_cutoff_period
               <$> recorded_entry
                     (main_process Python311 sample_read_file sample_report_paths).2)
              = Some (str "2024001")) as H by (vm_compute; reflexivity).
      rewrite E in H. simpl in H. injection H as ->. reflexivity.
    - exfalso.
      assert ((report_cutoff_period
               <$> recorded_entry
                     (main_process Python311 sample_read_file sample_report_paths).2)
              = Some (str "2024001")) as H by (vm_compute; reflexivity).
      rewrite E in H. discriminate H. }
  destruct (main_process_entry_scores Python311 sample_read_file sample_report_paths e He)
    as (report_path & report_content & _ & _ & H1 & H2 & H3 & _).
  exists report_path, report_content. rewrite Hc in H1, H3.
  split; [exact H1|]. split; [exact H2 | exact H3].
Defined.

Lemma get_period_data_from_csv_periods_are_numerals_witness :
  ∃ pm periods,
    (get_period_data_from_csv Python311 csv_out_of_order).1 = Returned (Some (pm, periods))
    ∧ ∀ p, p ∈ periods → Forall (λ c, is_digit c = true) p.
Proof.
  assert (returned_periods (get_period_data_from_csv Python311 csv_out_of_order)
          = Some [str "10003"; str "2024001"; str "2024002"]) as Hv
    by (vm_compute; reflexivity).
  unfold returned_periods in Hv.
  destruct (get_period_data_from_csv Python311 csv_out_of_order) as [r log] eqn:E.
  cbn [fst] in Hv |- *.
  destruct r as [[[pm pl]|]|]; [|discriminate Hv|discriminate Hv].
  exists pm, pl. split; [reflexivity|].
  assert ((get_period_data_from_csv Python311 csv_out_of_order).1
          = Returned (Some (pm, pl))) as Hret by (rewrite E; reflexivity).
  intros p Hp.
  exact (proj2 (proj1 (get_period_data_from_csv_periods_are_numerals Python311
                         csv_out_of_order pm pl Hret) p Hp)).
Defined.

Lemma sample_run_records :
  ∃ e, recorded_entry (main_process Python311 sample_read_file sample_report_paths).2 = Some e.
Proof.
  assert (match recorded_entry (main_process Python311 sample_read_file sample_report_paths).2
          with Some _ => true | None => false end = true) as H
    by (vm_compute; reflexivity).
  destruct (recorded_entry (main_process Python311 sample_read_file sample_report_paths).2)
    as [e|]; [by exists e|discriminate H].
Qed.

Lemma main_process_entry_not_read_back_witness :
  ∃ e, recorded_entry (main_process Python311 sample_read_file sample_report_paths).2 = Some e
       ∧ entry_writable (entry_text sample_timestamp e).
Proof.
  destruct sample_run_records as [e He]. exists e. split; [exact He|].
  refine (proj1 (main_process_entry_not_read_back Python311 sample_read_file
                   sample_report_paths e [] sample_timestamp He _)).
  apply plain_forallb. vm_compute. reflexivity.
Defined.

Lemma main_process_errors_read_back_witness :
  error_ok (error_line sample_timestamp csv_unreadable_error).
Proof.
  refine (proj1 (proj2 (main_process_errors_read_back Python311 (λ _, None) []
                          csv_unreadable_error [] sample_timestamp _ _ _))).
  - apply list_elem_of_here.
  - intros path H. by apply elem_of_nil in H.
  - apply plain_forallb. vm_compute. reflexivity.
Defined.

Lemma runs_keep_no_history_witness :
  read_normal_entries
    (universal_newlines
       (report_file_after [] (concat (run_calls Python311 <$> [sample_run; sample_run]))))
  = [].
Proof.
  refine (proj1 (runs_keep_no_history Python311 [sample_run; sample_run] _)).
  assert ((∀ k, plain (run_now sample_run k))
          ∧ (∀ path, path ∈ run_report_paths sample_run → plain (basename path)))
    as H.
  { split; [|exact sample_names_plain].
    intros k. apply plain_forallb. vm_compute. reflexivity. }
  apply Forall_cons_2; [exact H|]. apply Forall_cons_2; [exact H|].
  apply Forall_nil_2.
Defined.

Lemma unreadable_row_drops_the_stored_rows_witness :
  get_period_data_from_csv Python311 (csv_with_long_field (Z.to_nat 131073))
  = (Returned None, [(ERROR, CsvParseError)]).
Proof.
  refine (proj1 (proj2 (proj2 (unreadable_row_drops_the_stored_rows Python311
                                 (Z.to_nat 131073) _)))).
  rewrite Z2Nat.id by lia. unfold field_size_limit. lia.
Defined.

(** The same file on the two interpreters: before Python 3.11 the reader
    raises at the NUL character and the valid record is lost; from Python
    3.11 on the record with the NUL character is a row like another, here
    one that is passed over. *)
Lemma nul_character_by_interpreter :
  get_period_data_from_csv BeforePython311 csv_with_nul
  = (Returned None, [(ERROR, CsvParseError)])
  ∧ returned_periods (get_period_data_from_csv Python311 csv_with_nul)
    = Some [str "2024001"]
  ∧ (get_period_data_from_csv Python311 csv_with_nul).2 = [].
Proof. repeat split; vm_compute; reflexivity. Qed.
